(** * Megatron distributed optimizer: the sharding index algebra

    A shallow embedding of [megatron/optimizer/distrib_optimizer.py]:
    the [Range] class, the world partition of a gradient buffer
    ([build_model_gbuf_range]), the three-way parameter map
    ([build_model_gbuf_param_range_map]), the group builder and the
    checkpoint codec ([state_dict] / [load_state_dict]).

    Python integers are unbounded, so every index is a [Z].  Python
    dictionaries keep insertion order and the code iterates over them, so
    a dictionary is an association list with Python's assignment
    semantics.  Exceptions are an error monad. *)

From Stdlib Require Import ZArith Lia.
From stdpp Require Import base tactics option list sorting strings.

Local Open Scope Z_scope.

(** ** Python runtime: exceptions, lists, dictionaries *)

Inductive exn : Type :=
  | ZeroDivisionError
  | IndexError
  | KeyError
  | AssertionError
  | RuntimeError
  | ValueError
  | NameError (name : string)
  | TypeError (msg : string).

Inductive res (A : Type) : Type :=
  | Ok (a : A)
  | Raise (e : exn).
Arguments Ok {A} a.
Arguments Raise {A} e.

#[export] Instance res_ret : MRet res := fun _ a => Ok a.
#[export] Instance res_bind : MBind res := fun _ _ f m =>
  match m with
  | Ok a => f a
  | Raise e => Raise e
  end.

(** [for x in xs: acc = body(acc, x)], stopping at the first exception. *)
Fixpoint for_each {A S : Type} (body : S -> A -> res S) (xs : list A) (acc : S)
  : res S :=
  match xs with
  | [] => Ok acc
  | x :: xs' => acc' ← body acc x; for_each body xs' acc'
  end.

(** [l[i]] on a Python list: a negative index counts from the end. *)
Definition list_getitem {A : Type} (l : list A) (i : Z) : res A :=
  let j := if i <? 0 then i + Z.of_nat (length l) else i in
  if j <? 0 then Raise IndexError
  else match l !! Z.to_nat j with
       | Some x => Ok x
       | None => Raise IndexError
       end.

(** [range(n)]: empty when [n <= 0]. *)
Definition range (n : Z) : list Z := seqZ 0 n.

Section dict.
Context {K V : Type} `{EqDecision K}.

Fixpoint dict_get (k : K) (d : list (K * V)) : option V :=
  match d with
  | [] => None
  | (k', v) :: d' => if decide (k = k') then Some v else dict_get k d'
  end.

(** [d[k] = v]: an existing key keeps its place, a new key goes last. *)
Fixpoint dict_set (k : K) (v : V) (d : list (K * V)) : list (K * V) :=
  match d with
  | [] => [(k, v)]
  | (k', v') :: d' =>
      if decide (k = k') then (k', v) :: d' else (k', v') :: dict_set k v d'
  end.

(** [d[k]] as an expression. *)
Definition dict_getitem (k : K) (d : list (K * V)) : res V :=
  match dict_get k d with
  | Some v => Ok v
  | None => Raise KeyError
  end.

Definition dict_keys (d : list (K * V)) : list K := d.*1.
End dict.

Abbreviation dict K V := (list (K * V)) (only parsing).

(** ** class Range *)

Module Range.
Record t : Type := mk { start : Z; end_ : Z; size : Z }.

(** [Range.__init__]: no check of any kind. *)
Definition init (start end_ : Z) : t :=
  {| start := start; end_ := end_; size := end_ - start |}.

(** [Range.normalize(start = 0)] *)
Definition normalize (self : t) (start : Z) : t :=
  init start (start + size self).


Definition subset (a b : t) : Prop := start b <= start a /\ end_ a <= end_ b.
End Range.

#[export] Instance Range_eq_dec : EqDecision Range.t.
Proof. solve_decision. Defined.

(** ** The model as the distributed-data-parallel layer presents it *)

(** Element values are only sliced and copied, never computed on. *)
Definition scalar : Type := Z.

(** A model parameter.  [param_id] stands for the identity of the Python
    object (tensors hash by identity); [type_] is what [param.type()]
    returns; [data] is the flattened contents, [param.view(-1)]. *)
Record Param : Type := mkParam {
  param_id : nat;
  type_ : string;
  requires_grad : bool;
  data : list scalar;
}.

#[export] Instance Param_eq_dec : EqDecision Param.
Proof. solve_decision. Defined.

(** The key of [model._grad_buffers]: the element type of a gradient buffer. *)
Inductive dtype : Type := torch_float | torch_half | torch_bfloat16.

#[export] Instance dtype_eq_dec : EqDecision dtype.
Proof. solve_decision. Defined.

(** [MemoryBuffer]: only the two element counts are read here. *)
Record MemoryBuffer : Type := mkMemoryBuffer {
  numel : Z;
  numel_padded : Z;
}.

(** An entry of [model._grad_buffer_param_index_map[dtype]]:
    [(param_world_order, param_world_start, param_world_end)]. *)
Definition world_indexes : Type := Z * Z * Z.

Record Model : Type := mkModel {
  _grad_buffers : dict dtype MemoryBuffer;
  _grad_buffer_param_index_map : dict dtype (dict Param world_indexes);
}.

(** ** The three-way map *)

(** The value stored in [param_range_map[param]]. *)
Record ParamRangeMap : Type := mkParamRangeMap {
  gbuf_world_order : Z;
  gbuf_world : Range.t;
  gbuf_local : Range.t;
  param : Range.t;
}.

#[export] Instance ParamRangeMap_eq_dec : EqDecision ParamRangeMap.
Proof. solve_decision. Defined.

(** The body of the loop of [build_model_gbuf_param_range_map] for one
    item of the index map. *)
Definition param_range_step (gbuf_world_range : Range.t)
    (param_range_map : dict Param ParamRangeMap)
    (item : Param * world_indexes) : dict Param ParamRangeMap :=
  let '(param, (param_world_order, param_world_start, param_world_end)) := item in
  let param_local_start :=
    Z.max 0 (param_world_start - Range.start gbuf_world_range) in
  let param_local_end :=
    Z.min (Range.size gbuf_world_range)
          (param_world_end - Range.start gbuf_world_range) in
  if param_local_start <? param_local_end then
    let param_local_range := Range.init param_local_start param_local_end in
    let param_world_range :=
      Range.normalize param_local_range
        (param_local_start + Range.start gbuf_world_range) in
    let sub_param_start :=
      Z.max 0 (Range.start gbuf_world_range - param_world_start) in
    let sub_param_range := Range.normalize param_local_range sub_param_start in
    dict_set param
      {| gbuf_world_order := param_world_order;
         gbuf_world := param_world_range;
         gbuf_local := param_local_range;
         param := sub_param_range |}
      param_range_map
  else param_range_map.

Definition build_model_gbuf_param_range_map (model : Model) (dt : dtype)
    (gbuf_world_range : Range.t) : res (dict Param ParamRangeMap) :=
  param_world_index_map ← dict_getitem dt (_grad_buffer_param_index_map model);
  Ok (fold_left (param_range_step gbuf_world_range) param_world_index_map []).

(** ** The world partition *)

(** [int(math.ceil(a / b))] for [b <> 0].  The true division is a
    floating-point one; it is exact, and so is this integer form, for
    element counts below 2^53. *)
Definition ceil_div (a b : Z) : Z := - ((- a) / b).

(** The value of [build_model_gbuf_range]. *)
Record GbufRange : Type := mkGbufRange {
  local : Range.t;
  world : Range.t;
  world_all : list Range.t;
  param_map : dict Param ParamRangeMap;
  max_range_size : Z;
}.

(** The loop over [r in range(data_parallel_world_size)]. *)
Definition gbuf_world_all_ranges (gbuf_size max_gbuf_range_size : Z)
    (data_parallel_world_size : Z) : list Range.t :=
  (fun r =>
     let gbuf_world_start := r * max_gbuf_range_size in
     let gbuf_world_end := Z.min gbuf_size (gbuf_world_start + max_gbuf_range_size) in
     Range.init gbuf_world_start gbuf_world_end)
  <$> range data_parallel_world_size.

(** [mpu.get_data_parallel_rank()] and [mpu.get_data_parallel_world_size()]
    are process-wide accessors; they are passed in. *)
Definition build_model_gbuf_range
    (data_parallel_rank data_parallel_world_size : Z)
    (model : Model) (dt : dtype) : res GbufRange :=
  grad_buffer ← dict_getitem dt (_grad_buffers model);
  let gbuf_size := numel grad_buffer in
  if decide (data_parallel_world_size = 0) then Raise ZeroDivisionError else
  let max_gbuf_range_size := ceil_div gbuf_size data_parallel_world_size in
  let all := gbuf_world_all_ranges gbuf_size max_gbuf_range_size
               data_parallel_world_size in
  gbuf_world_range ← list_getitem all data_parallel_rank;
  let gbuf_local_range := Range.normalize gbuf_world_range 0 in
  param_range_map ← build_model_gbuf_param_range_map model dt gbuf_world_range;
  Ok {| local := gbuf_local_range;
        world := gbuf_world_range;
        world_all := all;
        param_map := param_range_map;
        max_range_size := max_gbuf_range_size |}.





(** ** Shards and groups *)

(** [t[start:stop]] on a flat tensor or a list: a negative bound counts
    from the end, and bounds are clamped to the length. *)
Definition py_slice {A : Type} (l : list A) (start stop : Z) : list A :=
  let n := Z.of_nat (length l) in
  let clamp i := if i <? 0 then Z.max 0 (i + n) else Z.min i n in
  take (Z.to_nat (clamp stop - clamp start)) (drop (Z.to_nat (clamp start)) l).

(** The tensors the group builder creates.  A tensor is a Python object;
    here it is named by how it was made: [shard_view p r] is
    [p.view(-1)[r.start:r.end]], a view that shares [p]'s storage, and
    [shard_main p r] is the fresh float32 tensor [view.clone().float()]. *)
Inductive Shard : Type :=
  | shard_view (model_param : Param) (param_range : Range.t)
  | shard_main (model_param : Param) (param_range : Range.t).

#[export] Instance Shard_eq_dec : EqDecision Shard.
Proof. solve_decision. Defined.

(** The model parameter a shard was created from. *)
Definition shard_source (s : Shard) : Param :=
  match s with
  | shard_view p _ | shard_main p _ => p
  end.

(** The contents a shard has when it is created. *)
Definition shard_initial_data (s : Shard) : list scalar :=
  match s with
  | shard_view p r | shard_main p r =>
      py_slice (data p) (Range.start r) (Range.end_ r)
  end.

(** A parameter group of the base optimizer: [{"params": [...], **hyper}]. *)
Record ParamGroup (T : Type) : Type := mkParamGroup {
  params : list T;
  hyper : dict string Z;
}.
Arguments mkParamGroup {T} params hyper.
Arguments params {T} _.
Arguments hyper {T} _.

(** An element of [group_ranges]: [{"params": [...], "orig_group": group}]. *)
Record GroupRange (T : Type) : Type := mkGroupRange {
  gr_params : list Param;
  orig_group : ParamGroup T;
}.
Arguments mkGroupRange {T} gr_params orig_group.
Arguments gr_params {T} _.
Arguments orig_group {T} _.

Definition build_model_gbuf_range_map
    (data_parallel_rank data_parallel_world_size : Z) (model : Model)
  : res (dict dtype GbufRange) :=
  for_each
    (fun acc dt =>
       g ← build_model_gbuf_range data_parallel_rank data_parallel_world_size model dt;
       Ok (dict_set dt g acc))
    (dict_keys (_grad_buffers model)) [].

Definition build_model_param_gbuf_map
    (model_gbuf_ranges : list (dict dtype GbufRange)) : dict Param (nat * dtype) :=
  fold_left
    (fun acc '(model_index, model_gbuf_range_map) =>
       fold_left
         (fun acc '(dt, gbuf_range_map) =>
            fold_left
              (fun acc '(param, _) => dict_set param (model_index, dt) acc)
              (param_map gbuf_range_map) acc)
         model_gbuf_range_map acc)
    (imap pair model_gbuf_ranges) [].

(** The loop of [build_optimizer_group_ranges] over the locally owned
    parameters: append to the group's list and record
    [(group_index, len(group_range["params"]) - 1)]. *)
Definition group_ranges_step (world_param_group_map : dict Param nat)
    (acc : dict Param (nat * nat) * list (list Param)) (param : Param)
  : res (dict Param (nat * nat) * list (list Param)) :=
  let '(local_param_group_map, group_ranges) := acc in
  group_index ← dict_getitem param world_param_group_map;
  group_range ← list_getitem group_ranges (Z.of_nat group_index);
  let group_range := group_range ++ [param] in
  Ok (dict_set param (group_index, (length group_range - 1)%nat) local_param_group_map,
      <[group_index := group_range]> group_ranges).

Definition build_optimizer_group_ranges
    (param_groups : list (ParamGroup Param))
    (model_gbuf_ranges : list (dict dtype GbufRange))
  : res (dict Param (nat * nat) * list (GroupRange Param)) :=
  (* Param group map. *)
  world_param_group_map ←
    for_each
      (fun acc '(group_index, group) =>
         for_each
           (fun acc param =>
              if requires_grad param then Ok (dict_set param group_index acc)
              else Raise AssertionError)
           (params group) acc)
      (imap pair param_groups) [];
  (* Optimizer group ranges. *)
  '(local_param_group_map, group_ranges) ←
    for_each
      (fun acc model_gbuf_range_map =>
         for_each
           (fun acc '(_, gbuf_range_map) =>
              for_each (group_ranges_step world_param_group_map)
                       (dict_keys (param_map gbuf_range_map)) acc)
           model_gbuf_range_map acc)
      model_gbuf_ranges ([], (fun _ => []) <$> param_groups);
  (* Squeeze zero-size group ranges. *)
  let group_ranges :=
    zip_with (fun ps g => mkGroupRange ps g) group_ranges param_groups in
  let group_ranges :=
    filter (fun g => (0 < length (gr_params g))%nat) group_ranges in
  Ok (local_param_group_map, group_ranges).

(** The five lists of one group while [build_model_and_main_param_groups]
    fills them. *)
Record GroupLists : Type := mkGroupLists {
  model_float16_params_this_group : list Param;
  model_fp32_params_this_group : list Param;
  shard_float16_params_this_group : list Shard;
  shard_fp32_params_this_group : list Shard;
  shard_fp32_from_float16_params_this_group : list Shard;
}.

(** The body of the loop over [group_range["params"]].  The marker
    attributes copied onto the shards (tensor-parallel descriptors,
    [shared]) play no part in the index algebra and are left out. *)
Definition main_param_step
    (model_gbuf_ranges : list (dict dtype GbufRange))
    (param_gbuf_map : dict Param (nat * dtype))
    (acc : GroupLists) (model_param : Param) : res GroupLists :=
  if negb (requires_grad model_param) then Raise AssertionError else
  '(model_index, dt) ← dict_getitem model_param param_gbuf_map;
  gbuf_range_map ← list_getitem model_gbuf_ranges (Z.of_nat model_index);
  gbuf_range ← dict_getitem dt gbuf_range_map;
  param_range_map ← dict_getitem model_param (param_map gbuf_range);
  let param_range := param param_range_map in
  (* fp16, bf16 params. *)
  if bool_decide (type_ model_param ∈
                    ["torch.cuda.HalfTensor"; "torch.cuda.BFloat16Tensor"]) then
    let shard_model_param := shard_view model_param param_range in
    let shard_main_param := shard_main model_param param_range in
    Ok {| model_float16_params_this_group :=
            model_float16_params_this_group acc ++ [model_param];
          model_fp32_params_this_group := model_fp32_params_this_group acc;
          shard_float16_params_this_group :=
            shard_float16_params_this_group acc ++ [shard_model_param];
          shard_fp32_params_this_group := shard_fp32_params_this_group acc;
          shard_fp32_from_float16_params_this_group :=
            shard_fp32_from_float16_params_this_group acc ++ [shard_main_param] |}
  (* fp32 params. *)
  else if bool_decide (type_ model_param = "torch.cuda.FloatTensor") then
    let shard_model_param := shard_view model_param param_range in
    Ok {| model_float16_params_this_group := model_float16_params_this_group acc;
          model_fp32_params_this_group :=
            model_fp32_params_this_group acc ++ [model_param];
          shard_float16_params_this_group := shard_float16_params_this_group acc;
          shard_fp32_params_this_group :=
            shard_fp32_params_this_group acc ++ [shard_model_param];
          shard_fp32_from_float16_params_this_group :=
            shard_fp32_from_float16_params_this_group acc |}
  else
    (* [raise TypeError('... Received {}'.format(param.type()))]: the
       message is built first, and it reads [param], a name bound neither
       in this function (the loop variable is [model_param]) nor in the
       module; the lookup raises before [TypeError] is constructed. *)
    Raise (NameError "param").

(** What [build_model_and_main_param_groups] returns, and the group
    ranges whose ["orig_group"]["params"] it has overwritten in place. *)
Record MainParamGroups : Type := mkMainParamGroups {
  model_float16_groups : list (list Param);
  model_fp32_groups : list (list Param);
  shard_float16_groups : list (list Shard);
  shard_fp32_groups : list (list Shard);
  shard_fp32_from_float16_groups : list (list Shard);
  rewritten_group_ranges : list (GroupRange Shard);
}.

Definition build_model_and_main_param_groups
    (model_gbuf_ranges : list (dict dtype GbufRange))
    (param_gbuf_map : dict Param (nat * dtype))
    (opt_group_ranges : list (GroupRange Param)) : res MainParamGroups :=
  for_each
    (fun acc group_range =>
       this ← for_each (main_param_step model_gbuf_ranges param_gbuf_map)
                       (gr_params group_range) (mkGroupLists [] [] [] [] []);
       (* Update optimizer's params. *)
       let orig :=
         mkParamGroup
           (shard_fp32_params_this_group this
              ++ shard_fp32_from_float16_params_this_group this)
           (hyper (orig_group group_range)) in
       Ok {| model_float16_groups :=
               model_float16_groups acc ++ [model_float16_params_this_group this];
             model_fp32_groups :=
               model_fp32_groups acc ++ [model_fp32_params_this_group this];
             shard_float16_groups :=
               shard_float16_groups acc ++ [shard_float16_params_this_group this];
             shard_fp32_groups :=
               shard_fp32_groups acc ++ [shard_fp32_params_this_group this];
             shard_fp32_from_float16_groups :=
               shard_fp32_from_float16_groups acc
                 ++ [shard_fp32_from_float16_params_this_group this];
             rewritten_group_ranges :=
               rewritten_group_ranges acc
                 ++ [mkGroupRange (gr_params group_range) orig] |})
    opt_group_ranges (mkMainParamGroups [] [] [] [] [] []).

(** ** The base optimizer *)

(** The state the base optimizer keeps for one parameter (moments, step
    counter): named vectors. *)
Definition optim_state : Type := dict string (list scalar).

(** The key of an entry of [optimizer.state]: the parameter tensor, or
    the integer a loaded entry had when no parameter carries its index. *)
Inductive state_key : Type :=
  | key_tensor (t : Shard)
  | key_index (i : nat).

#[export] Instance state_key_eq_dec : EqDecision state_key.
Proof. solve_decision. Defined.

Record Optimizer : Type := mkOptimizer {
  param_groups : list (ParamGroup Shard);
  state : dict state_key optim_state;
}.

(** What [optimizer.state_dict()] returns and [optimizer.load_state_dict]
    takes: the groups with their parameters replaced by integers, and the
    state keyed by those integers. *)
Record OptimizerStateDict : Type := mkOptimizerStateDict {
  sd_param_groups : list (ParamGroup nat);
  sd_state : dict nat optim_state;
}.

(** The base optimizer is an external collaborator: the code uses its
    [state_dict()] and [load_state_dict()] and nothing else of them. *)
Class BaseOptimizer : Type := {
  optimizer_state_dict : Optimizer -> res OptimizerStateDict;
  optimizer_load_state_dict : Optimizer -> OptimizerStateDict -> res Optimizer;
}.

(** [torch.optim.Optimizer], the base class of the optimizers the code is
    run with.  [state_dict()] numbers the parameters of the groups from 0
    in the order of the groups; a tensor met again keeps its first number. *)
Definition torch_pack_group
    (acc : dict Shard nat * nat * list (ParamGroup nat))
    (group : ParamGroup Shard) : dict Shard nat * nat * list (ParamGroup nat) :=
  let '(param_mappings, start_index, packed) := acc in
  let numbered := imap (fun i p => (p, (start_index + i)%nat)) (params group) in
  let param_mappings' :=
    fold_left
      (fun m '(p, i) =>
         if dict_get p param_mappings is None then dict_set p i m else m)
      numbered param_mappings in
  (param_mappings',
   (start_index + length (params group))%nat,
   packed ++ [mkParamGroup
                (omap (fun p => dict_get p param_mappings') (params group))
                (hyper group)]).

Definition torch_state_dict (self : Optimizer) : res OptimizerStateDict :=
  let '(param_mappings, _, packed) :=
    fold_left torch_pack_group (param_groups self) ([], 0%nat, []) in
  packed_state ←
    for_each
      (fun acc '(k, v) =>
         match k with
         | key_tensor t => i ← dict_getitem t param_mappings; Ok (dict_set i v acc)
         | key_index i => Ok (dict_set i v acc)
         end)
      (state self) [];
  Ok {| sd_param_groups := packed; sd_state := packed_state |}.

(** [load_state_dict] checks the shape of the groups, maps each saved
    index to the parameter at the same place and takes the saved
    hyper-parameters. *)
Definition torch_load_state_dict (self : Optimizer) (sd : OptimizerStateDict)
  : res Optimizer :=
  let groups := param_groups self in
  let saved_groups := sd_param_groups sd in
  if negb (bool_decide (length groups = length saved_groups)) then Raise ValueError
  else if negb (bool_decide ((length ∘ params) <$> groups
                             = (length ∘ params) <$> saved_groups))
  then Raise ValueError
  else
    let id_map :=
      fold_left (fun m '(i, p) => dict_set i p m)
        (zip (mjoin (params <$> saved_groups)) (mjoin (params <$> groups))) [] in
    let new_state :=
      fold_left
        (fun st '(k, v) =>
           match dict_get k id_map with
           | Some p => dict_set (key_tensor p) v st
           | None => dict_set (key_index k) v st
           end)
        (sd_state sd) [] in
    Ok {| param_groups :=
            zip_with (fun g ng => mkParamGroup (params g) (hyper ng))
                     groups saved_groups;
          state := new_state |}.

Definition torch_optimizer : BaseOptimizer :=
  {| optimizer_state_dict := torch_state_dict;
     optimizer_load_state_dict := torch_load_state_dict |}.

(** ** The distributed optimizer *)

Record DistributedOptimizer : Type := mkDistributedOptimizer {
  model_gbuf_ranges : list (dict dtype GbufRange);
  model_param_gbuf_map : dict Param (nat * dtype);
  model_param_group_index_map : dict Param (nat * nat);
  main_param_groups : MainParamGroups;
  optimizer : Optimizer;
  (** [None], or the state of the loss scaler *)
  grad_scaler : option (dict string Z);
  (** the contents of the float32 tensors the optimizer owns, by tensor;
      the groups above and [optimizer.param_groups] both refer to them *)
  tensor_data : dict Shard (list scalar);
}.

Definition with_optimizer (self : DistributedOptimizer) (o : Optimizer)
  : DistributedOptimizer :=
  {| model_gbuf_ranges := model_gbuf_ranges self;
     model_param_gbuf_map := model_param_gbuf_map self;
     model_param_group_index_map := model_param_group_index_map self;
     main_param_groups := main_param_groups self;
     optimizer := o;
     grad_scaler := grad_scaler self;
     tensor_data := tensor_data self |}.

Definition with_grad_scaler (self : DistributedOptimizer)
    (g : option (dict string Z)) : DistributedOptimizer :=
  {| model_gbuf_ranges := model_gbuf_ranges self;
     model_param_gbuf_map := model_param_gbuf_map self;
     model_param_group_index_map := model_param_group_index_map self;
     main_param_groups := main_param_groups self;
     optimizer := optimizer self;
     grad_scaler := g;
     tensor_data := tensor_data self |}.

Definition with_tensor_data (self : DistributedOptimizer)
    (d : dict Shard (list scalar)) : DistributedOptimizer :=
  {| model_gbuf_ranges := model_gbuf_ranges self;
     model_param_gbuf_map := model_param_gbuf_map self;
     model_param_group_index_map := model_param_group_index_map self;
     main_param_groups := main_param_groups self;
     optimizer := optimizer self;
     grad_scaler := grad_scaler self;
     tensor_data := d |}.

(** The current contents of a tensor: an owned tensor reads the store, a
    view reads the model parameter. *)
Definition tensor_values (self : DistributedOptimizer) (t : Shard) : list scalar :=
  default (shard_initial_data t) (dict_get t (tensor_data self)).

(** [DistributedOptimizer.__init__], from the models, the base
    optimizer's groups (whose state is still empty) and the loss scaler.
    The parameter buffers of the collective driver are left out. *)
Definition init `{BaseOptimizer}
    (data_parallel_rank data_parallel_world_size : Z)
    (models : list Model) (param_groups : list (ParamGroup Param))
    (grad_scaler : option (dict string Z)) : res DistributedOptimizer :=
  (* Model grad buffer ranges. *)
  model_gbuf_ranges ←
    for_each
      (fun acc model =>
         m ← build_model_gbuf_range_map data_parallel_rank data_parallel_world_size model;
         Ok (acc ++ [m]))
      models [];
  let model_param_gbuf_map := build_model_param_gbuf_map model_gbuf_ranges in
  (* Optimizer ranges. *)
  '(model_param_group_index_map, opt_group_ranges) ←
    build_optimizer_group_ranges param_groups model_gbuf_ranges;
  (* Allocate main param shards. *)
  groups ← build_model_and_main_param_groups
             model_gbuf_ranges model_param_gbuf_map opt_group_ranges;
  (* Update optimizer groups. *)
  let optimizer :=
    {| param_groups := orig_group <$> rewritten_group_ranges groups; state := [] |} in
  sd ← optimizer_state_dict optimizer;
  optimizer ← optimizer_load_state_dict optimizer sd;
  Ok {| model_gbuf_ranges := model_gbuf_ranges;
        model_param_gbuf_map := model_param_gbuf_map;
        model_param_group_index_map := model_param_group_index_map;
        main_param_groups := groups;
        optimizer := optimizer;
        grad_scaler := grad_scaler;
        tensor_data :=
          (fun t => (t, shard_initial_data t))
          <$> mjoin (shard_fp32_from_float16_groups groups) |}.

(** ** The checkpoint codec *)

(** One element of [state_dict["optimizer"]["state"]]. *)
Module ShardState.
Record t : Type := mk {
  world_order : Z;
  state_order : nat;
  group_index : nat;
  group_order : nat;
  param_range_map : ParamRangeMap;
  (** ["param"]: the main parameter, a tensor and its contents *)
  param : Shard * list scalar;
  (** ["optim"] *)
  optim : optim_state;
}.
End ShardState.

(** The value of [state_dict()]: ["optimizer"] is the base optimizer's
    state dict with its ["state"] replaced by the shard records. *)
Record Checkpoint : Type := mkCheckpoint {
  ckpt_param_groups : list (ParamGroup nat);
  ckpt_state : list ShardState.t;
  ckpt_grad_scaler : option (dict string Z);
}.

(** The body of the innermost loop of [state_dict]: the record of one
    entry of a buffer's [param_map]. *)
Definition shard_state_dict (self : DistributedOptimizer)
    (default_state_dict : OptimizerStateDict)
    (item : Param * ParamRangeMap) : res ShardState.t :=
  let '(model_param, param_range_map) := item in
  '(group_index, group_order) ←
    dict_getitem model_param (model_param_group_index_map self);
  let world_order := gbuf_world_order param_range_map in
  group ← list_getitem (param_groups (optimizer self)) (Z.of_nat group_index);
  main_param ← list_getitem (params group) (Z.of_nat group_order);
  packed ← list_getitem (sd_param_groups default_state_dict) (Z.of_nat group_index);
  state_order ← list_getitem (params packed) (Z.of_nat group_order);
  (* [optimizer.state] is a [defaultdict(dict)] *)
  let optim_state :=
    default [] (dict_get (key_tensor main_param) (state (optimizer self))) in
  Ok {| ShardState.world_order := world_order;
        ShardState.state_order := state_order;
        ShardState.group_index := group_index;
        ShardState.group_order := group_order;
        ShardState.param_range_map := param_range_map;
        ShardState.param := (main_param, tensor_values self main_param);
        ShardState.optim := optim_state |}.

(** The records of one gradient buffer, in the order of the items of its
    [param_map], appended to [acc]. *)
Definition buffer_shard_state_dicts (self : DistributedOptimizer)
    (default_state_dict : OptimizerStateDict)
    (acc : list ShardState.t) (gbuf_range_map : GbufRange)
  : res (list ShardState.t) :=
  for_each
    (fun acc item =>
       r ← shard_state_dict self default_state_dict item; Ok (acc ++ [r]))
    (param_map gbuf_range_map) acc.

Definition state_dict `{BaseOptimizer} (self : DistributedOptimizer)
  : res Checkpoint :=
  default_state_dict ← optimizer_state_dict (optimizer self);
  (* Shard state dicts. *)
  shard_state_dicts ←
    for_each
      (fun acc gbuf_range_maps =>
         for_each
           (fun acc '(_, gbuf_range_map) =>
              buffer_shard_state_dicts self default_state_dict acc gbuf_range_map)
           gbuf_range_maps acc)
      (model_gbuf_ranges self) [];
  Ok {| ckpt_param_groups := sd_param_groups default_state_dict;
        ckpt_state := shard_state_dicts;
        ckpt_grad_scaler := grad_scaler self |}.

(** [list.sort(key = lambda d : d[0])]: a stable sort.  An element is
    inserted before the first element of the sorted tail whose key is not
    smaller, so equal keys keep their order. *)
Fixpoint insert_by_key {V : Type} (x : nat * V) (l : list (nat * V))
  : list (nat * V) :=
  match l with
  | [] => [x]
  | y :: l' =>
      if decide (x.1 <= y.1)%nat then x :: y :: l' else y :: insert_by_key x l'
  end.

Definition sort_by_key {V : Type} (l : list (nat * V)) : list (nat * V) :=
  foldr insert_by_key [] l.

(** Methods that change the object run in a state monad over it; an
    exception leaves the changes made before it. *)
Definition method (A : Type) : Type :=
  DistributedOptimizer -> res A * DistributedOptimizer.

#[export] Instance method_ret : MRet method := fun _ a self => (Ok a, self).
#[export] Instance method_bind : MBind method := fun _ _ f m self =>
  match m self with
  | (Ok a, self') => f a self'
  | (Raise e, self') => (Raise e, self')
  end.

Definition get_self : method DistributedOptimizer := fun self => (Ok self, self).
Definition put_self (self' : DistributedOptimizer) : method unit :=
  fun _ => (Ok tt, self').
Definition lift {A : Type} (r : res A) : method A := fun self => (r, self).

Fixpoint for_each_method {A S : Type} (body : S -> A -> method S) (xs : list A)
    (acc : S) : method S :=
  match xs with
  | [] => mret acc
  | x :: xs' => acc' ← body acc x; for_each_method body xs' acc'
  end.

(** What [copy_] writes into a flat tensor of [n] elements: the source
    when the sizes agree, its broadcast when it has one element, and
    nothing otherwise. *)
Definition broadcast_to (n : nat) (src : list scalar) : option (list scalar) :=
  if decide (length src = n) then Some src
  else if src is [x] then Some (replicate n x)
  else None.

(** [dst.data.copy_(src)] on flat tensors. *)
Definition copy_ (dst : Shard) (src : list scalar) : method unit := fun self =>
  match broadcast_to (length (tensor_values self dst)) src with
  | Some v => (Ok tt, with_tensor_data self (dict_set dst v (tensor_data self)))
  | None => (Raise RuntimeError, self)
  end.

(** The first loop of [load_state_dict]: collect [(state_order, optim)]
    and set the main parameter of each record. *)
Definition collect_shard (optim_state_dicts : list (nat * optim_state))
    (shard_state_dict : ShardState.t) : method (list (nat * optim_state)) :=
  (* Collect optimizer state. *)
  let optim_state_dicts :=
    optim_state_dicts ++ [(ShardState.state_order shard_state_dict,
                           ShardState.optim shard_state_dict)] in
  (* Set main params. *)
  let group_index := ShardState.group_index shard_state_dict in
  let group_order := ShardState.group_order shard_state_dict in
  self ← get_self;
  group ← lift (list_getitem
                  (shard_fp32_from_float16_groups (main_param_groups self))
                  (Z.of_nat group_index));
  main_param ← lift (list_getitem group (Z.of_nat group_order));
  _ ← copy_ main_param (ShardState.param shard_state_dict).2;
  mret optim_state_dicts.

(** The dictionary [load_state_dict] passes to the base optimizer:
    [{**state_dict["optimizer"], "state": {i:d for i,d in enumerate(...)}}]
    over the [optim] fields sorted by [state_order]. *)
Definition handed_state_dict (state_dict : Checkpoint)
    (optim_state_dicts : list (nat * optim_state)) : OptimizerStateDict :=
  (* Sort by pre-save state order. *)
  let optim_state_dicts := sort_by_key optim_state_dicts in
  let optim_state_dicts := snd <$> optim_state_dicts in
  {| sd_param_groups := ckpt_param_groups state_dict;
     sd_state := imap pair optim_state_dicts |}.

Definition load_state_dict `{BaseOptimizer} (state_dict : Checkpoint)
  : method unit :=
  (* Collect shards & set main params. *)
  optim_state_dicts ← for_each_method collect_shard (ckpt_state state_dict) [];
  (* Optimizer. *)
  self ← get_self;
  optimizer' ← lift (optimizer_load_state_dict (optimizer self)
                       (handed_state_dict state_dict optim_state_dicts));
  _ ← put_self (with_optimizer self optimizer');
  (* Grad scaler. *)
  self ← get_self;
  if grad_scaler self is Some _ then
    saved ← lift (if ckpt_grad_scaler state_dict is Some g then Ok g
                  else Raise KeyError);
    put_self (with_grad_scaler self (Some saved))
  else
    (* a warning is printed *)
    mret tt.

(** What one iteration of [build_model_gbuf_param_range_map] stores for
    an index entry: the three ranges when the parameter meets the local
    shard, nothing otherwise.  [param_range_step_entry] below shows it is
    the loop body. *)
Definition param_range_entry (gbuf_world_range : Range.t) (idx : world_indexes)
  : option ParamRangeMap :=
  let '(param_world_order, param_world_start, param_world_end) := idx in
  let param_local_start :=
    Z.max 0 (param_world_start - Range.start gbuf_world_range) in
  let param_local_end :=
    Z.min (Range.size gbuf_world_range)
          (param_world_end - Range.start gbuf_world_range) in
  if param_local_start <? param_local_end then
    let param_local_range := Range.init param_local_start param_local_end in
    Some {| gbuf_world_order := param_world_order;
            gbuf_world :=
              Range.normalize param_local_range
                (param_local_start + Range.start gbuf_world_range);
            gbuf_local := param_local_range;
            param :=
              Range.normalize param_local_range
                (Z.max 0 (Range.start gbuf_world_range - param_world_start)) |}
  else None.

(** Two half-precision parameters of 3 and 5 elements in a buffer of 8. *)
Definition half_param (id : nat) (n : Z) : Param :=
  {| param_id := id; type_ := "torch.cuda.HalfTensor"; requires_grad := true;
     data := seqZ (Z.of_nat id * 100) n |}.

Definition scenario_A : Model :=
  {| _grad_buffers := [(torch_float, mkMemoryBuffer 8 8)];
     _grad_buffer_param_index_map :=
       [(torch_float, [(half_param 0 3, (0, 0, 3)); (half_param 1 5, (1, 3, 8))])] |}.

(** One parameter of 6 elements at [[2, 8)] of a buffer of 12: with four
    participants it spans the first three shards. *)
Definition spanning_model : Model :=
  {| _grad_buffers := [(torch_float, mkMemoryBuffer 12 12)];
     _grad_buffer_param_index_map :=
       [(torch_float, [(half_param 0 2, (0, 0, 2)); (half_param 1 6, (1, 2, 8));
                       (half_param 2 4, (2, 8, 12))])] |}.

(** ** Concrete buffers used by the examples below *)

(** A float32 gradient buffer of [n] elements, padded to [padded], that
    holds one half-precision parameter filling it. *)
Definition whole_param (n : Z) : Param :=
  {| param_id := 0; type_ := "torch.cuda.HalfTensor"; requires_grad := true;
     data := seqZ 100 n |}.

Definition single_param_model (n padded : Z) : Model :=
  {| _grad_buffers := [(torch_float, mkMemoryBuffer n padded)];
     _grad_buffer_param_index_map :=
       [(torch_float, [(whole_param n, (0, 0, n))])] |}.

(** ** Concrete optimizers used by the examples below *)

Definition float_param (id : nat) (n : Z) : Param :=
  {| param_id := id; type_ := "torch.cuda.FloatTensor"; requires_grad := true;
     data := seqZ (Z.of_nat id * 100) n |}.

Definition double_param (id : nat) (n : Z) : Param :=
  {| param_id := id; type_ := "torch.cuda.DoubleTensor"; requires_grad := true;
     data := seqZ (Z.of_nat id * 100) n |}.

(** A buffer of 8 elements with two parameters of 4 elements. *)
Definition two_param_model (p0 p1 : Param) : Model :=
  {| _grad_buffers := [(torch_float, mkMemoryBuffer 8 8)];
     _grad_buffer_param_index_map :=
       [(torch_float, [(p0, (0, 0, 4)); (p1, (1, 4, 8))])] |}.

(** Scenario C with the low-precision parameter first in the buffer: one
    group that mixes a half-precision and a float32 parameter. *)
Definition mixed_group_optimizer : res DistributedOptimizer :=
  init (H := torch_optimizer) 0 1
    [two_param_model (half_param 0 4) (float_param 1 4)]
    [mkParamGroup [half_param 0 4; float_param 1 4] [("lr", 1)]] None.

(** Two groups of one parameter each, on rank 1 of 2: the rank owns the
    second parameter only, so the first group is dropped. *)
Definition dropped_group_optimizer : res DistributedOptimizer :=
  init (H := torch_optimizer) 1 2
    [two_param_model (half_param 0 4) (half_param 1 4)]
    [mkParamGroup [half_param 0 4] [("weight_decay", 1)];
     mkParamGroup [half_param 1 4] [("weight_decay", 0)]] None.

(** A group with a parameter that is neither half, bfloat16 nor float32. *)
Definition double_optimizer : res DistributedOptimizer :=
  init (H := torch_optimizer) 0 1
    [two_param_model (half_param 0 4) (double_param 1 4)]
    [mkParamGroup [half_param 0 4; double_param 1 4] [("lr", 1)]] None.

(** An index map whose insertion order is not the world order: the
    parameter inserted first has [world_order] 1. *)
Definition unordered_model : Model :=
  {| _grad_buffers := [(torch_float, mkMemoryBuffer 8 8)];
     _grad_buffer_param_index_map :=
       [(torch_float, [(half_param 1 4, (1, 4, 8)); (half_param 0 4, (0, 0, 4))])] |}.

Definition unordered_optimizer : res DistributedOptimizer :=
  init (H := torch_optimizer) 0 1 [unordered_model]
    [mkParamGroup [half_param 0 4; half_param 1 4] [("lr", 1)]] None.

(** The object a successful construction returns; the empty optimizer
    stands in for a failed one. *)
Definition constructed (r : res DistributedOptimizer) : DistributedOptimizer :=
  match r with
  | Ok self => self
  | Raise _ =>
      mkDistributedOptimizer [] [] [] (mkMainParamGroups [] [] [] [] [] [])
        (mkOptimizer [] []) None []
  end.

(** Scenario A on rank 0 of 2: one group with both parameters. *)
Definition scenario_A_rank0 : DistributedOptimizer :=
  constructed
    (init (H := torch_optimizer) 0 2 [scenario_A]
       [mkParamGroup [half_param 0 3; half_param 1 5] [("lr", 1)]] None).

(** The tensor a record addresses:
    [shard_fp32_from_float16_groups[group_index][group_order]]. *)
Definition target_of (self : DistributedOptimizer) (r : ShardState.t)
  : option Shard :=
  group ← shard_fp32_from_float16_groups (main_param_groups self)
            !! ShardState.group_index r;
  group !! ShardState.group_order r.

(** What the first loop of [load_state_dict] collects from a checkpoint. *)
Definition collected (records : list ShardState.t) : list (nat * optim_state) :=
  (fun r => (ShardState.state_order r, ShardState.optim r)) <$> records.

(** The last step of [load_state_dict], after the base optimizer has
    taken its state: the loss scaler. *)
Definition load_grad_scaler (state_dict : Checkpoint) : method unit :=
  self ← get_self;
  if grad_scaler self is Some _ then
    saved ← lift (if ckpt_grad_scaler state_dict is Some g then Ok g
                  else Raise KeyError);
    put_self (with_grad_scaler self (Some saved))
  else mret tt.

(** A checkpoint with the [param_range_map] of every record rewritten. *)
Definition map_range_maps (f : ParamRangeMap -> ParamRangeMap)
    (state_dict : Checkpoint) : Checkpoint :=
  {| ckpt_param_groups := ckpt_param_groups state_dict;
     ckpt_state :=
       (fun r =>
          {| ShardState.world_order := ShardState.world_order r;
             ShardState.state_order := ShardState.state_order r;
             ShardState.group_index := ShardState.group_index r;
             ShardState.group_order := ShardState.group_order r;
             ShardState.param_range_map := f (ShardState.param_range_map r);
             ShardState.param := ShardState.param r;
             ShardState.optim := ShardState.optim r |})
       <$> ckpt_state state_dict;
     ckpt_grad_scaler := ckpt_grad_scaler state_dict |}.

(** Scenario D: a buffer of 16 elements with parameters of 2 and 14
    elements, saved on rank 0 of 4 after training and loaded on rank 0
    of 2 into a fresh optimizer. *)
Definition param_with (id : nat) (values : list scalar) : Param :=
  {| param_id := id; type_ := "torch.cuda.HalfTensor"; requires_grad := true;
     data := values |}.

Definition scenario_D_model (p0 p1 : Param) : Model :=
  {| _grad_buffers := [(torch_float, mkMemoryBuffer 16 16)];
     _grad_buffer_param_index_map :=
       [(torch_float, [(p0, (0, 0, 2)); (p1, (1, 2, 16))])] |}.

Definition scenario_D_saved : DistributedOptimizer :=
  constructed
    (init (H := torch_optimizer) 0 4
       [scenario_D_model (param_with 0 [7; 9]) (param_with 1 (seqZ 20 14))]
       [mkParamGroup [param_with 0 [7; 9]; param_with 1 (seqZ 20 14)] [("lr", 1)]]
       None).

(** The checkpoint a successful [state_dict] returns. *)
Definition saved_checkpoint (r : res Checkpoint) : Checkpoint :=
  match r with
  | Ok ckpt => ckpt
  | Raise _ => mkCheckpoint [] [] None
  end.

Definition scenario_D_checkpoint : Checkpoint :=
  saved_checkpoint (state_dict (H := torch_optimizer) scenario_D_saved).

Definition scenario_D_current : DistributedOptimizer :=
  constructed
    (init (H := torch_optimizer) 0 2
       [scenario_D_model (half_param 0 2) (half_param 1 14)]
       [mkParamGroup [half_param 0 2; half_param 1 14] [("lr", 1)]] None).

(** A base optimizer that behaves like [torch.optim.Optimizer] but
    numbers its parameters 0, 2, 4, ... in its state dict: another stable
    integer keying convention. *)
Definition even_keys_state_dict (self : Optimizer) : res OptimizerStateDict :=
  sd ← torch_state_dict self;
  Ok {| sd_param_groups :=
          (fun g => mkParamGroup (Nat.mul 2 <$> params g) (hyper g))
          <$> sd_param_groups sd;
        sd_state := (fun kv => ((2 * kv.1)%nat, kv.2)) <$> sd_state sd |}.

Definition even_keys_optimizer : BaseOptimizer :=
  {| optimizer_state_dict := even_keys_state_dict;
     optimizer_load_state_dict := torch_load_state_dict |}.

(** Scenario A on rank 0 of 2 over that base optimizer, after a step has
    given each main shard its inner state. *)
Definition even_keys_saved : DistributedOptimizer :=
  let self :=
    constructed
      (init (H := even_keys_optimizer) 0 2 [scenario_A]
         [mkParamGroup [half_param 0 3; half_param 1 5] [("lr", 1)]] None) in
  with_optimizer self
    {| param_groups := param_groups (optimizer self);
       state :=
         [(key_tensor (shard_main (half_param 0 3) (Range.init 0 3)),
           [("exp_avg", [1; 1; 1])]);
          (key_tensor (shard_main (half_param 1 5) (Range.init 0 1)),
           [("exp_avg", [2])])] |}.

Definition even_keys_checkpoint : Checkpoint :=
  saved_checkpoint (state_dict (H := even_keys_optimizer) even_keys_saved).


(** The order [sort_by_key] sorts by. *)
Definition key_le {V : Type} (a b : nat * V) : Prop := (a.1 <= b.1)%nat.

(** ** Buffer views of the collective driver *)

(** An element of [view_items]: [(model_index, dtype, buf, buf_views)].
    A buffer is a flat tensor; a view is given by its contents. *)
Definition ViewItem : Type := nat * dtype * list scalar * list (list scalar).

(** The loop body of [get_model_buffer_dp_views] for one buffer.
    [buf.numel() % W] raises for [W = 0]; when the assertion holds the
    true division is exact. *)
Definition buffer_dp_views (data_parallel_world_size : Z) (model_index : nat)
    (view_items : list ViewItem) (item : dtype * list scalar)
  : res (list ViewItem) :=
  let '(dt, buf) := item in
  let numel := Z.of_nat (length buf) in
  if decide (data_parallel_world_size = 0) then Raise ZeroDivisionError else
  if negb (numel `mod` data_parallel_world_size =? 0) then Raise AssertionError
  else
    let shard_size := numel / data_parallel_world_size in
    let buf_views :=
      (fun r => py_slice buf (r * shard_size) ((r + 1) * shard_size))
      <$> range data_parallel_world_size in
    Ok (view_items ++ [(model_index, dt, buf, buf_views)]).

Definition get_model_buffer_dp_views (data_parallel_world_size : Z)
    (model_buffers : list (dict dtype (list scalar))) : res (list ViewItem) :=
  for_each
    (fun acc '(model_index, buffers) =>
       for_each (buffer_dp_views data_parallel_world_size model_index) buffers acc)
    (imap pair model_buffers) [].

(** The view item of one buffer, and the buffers in the order the two
    loops of [get_model_buffer_dp_views] visit them. *)
Definition view_item (data_parallel_world_size : Z)
    (x : nat * (dtype * list scalar)) : res ViewItem :=
  let '(model_index, (dt, buf)) := x in
  let numel := Z.of_nat (length buf) in
  if decide (data_parallel_world_size = 0) then Raise ZeroDivisionError else
  if negb (numel `mod` data_parallel_world_size =? 0) then Raise AssertionError
  else
    let shard_size := numel / data_parallel_world_size in
    Ok (model_index, dt, buf,
        (fun r => py_slice buf (r * shard_size) ((r + 1) * shard_size))
        <$> range data_parallel_world_size).

Definition flat_buffers (model_buffers : list (dict dtype (list scalar)))
  : list (nat * (dtype * list scalar)) :=
  ib ← imap pair model_buffers; pair ib.1 <$> ib.2.

(** ** Navigation from a model parameter to its ranges *)

(** The chain of lookups that leads from a model parameter to its entry
    of the three-way map:
    [model_index, dtype = model_param_gbuf_map[param]],
    [model_gbuf_ranges[model_index][dtype]["param_map"][param]]. *)
Definition lookup_param_range_map
    (model_gbuf_ranges : list (dict dtype GbufRange))
    (model_param_gbuf_map : dict Param (nat * dtype)) (param : Param)
  : res ParamRangeMap :=
  '(model_index, dt) ← dict_getitem param model_param_gbuf_map;
  gbuf_range_map ← list_getitem model_gbuf_ranges (Z.of_nat model_index);
  gbuf_range ← dict_getitem dt gbuf_range_map;
  dict_getitem param (param_map gbuf_range).

(** [DistributedOptimizer.get_model_param_range_map] *)
Definition get_model_param_range_map (self : DistributedOptimizer)
    (param : Param) : res ParamRangeMap :=
  lookup_param_range_map (model_gbuf_ranges self) (model_param_gbuf_map self) param.

(** The two type tests of the group builder. *)
Definition is_float16 (p : Param) : Prop :=
  type_ p ∈ ["torch.cuda.HalfTensor"; "torch.cuda.BFloat16Tensor"].
Definition is_fp32 (p : Param) : Prop :=
  ~ is_float16 p /\ type_ p = "torch.cuda.FloatTensor".

#[export] Instance is_float16_dec p : Decision (is_float16 p).
Proof. unfold is_float16. apply _. Defined.
#[export] Instance is_fp32_dec p : Decision (is_fp32 p).
Proof. unfold is_fp32. apply _. Defined.

(** The parameters a rank owns a part of, in the order the loops of
    [build_optimizer_group_ranges] and [state_dict] visit them: by
    model, by data type, by place in the [param_map]. *)
Definition owned_entries (model_gbuf_ranges : list (dict dtype GbufRange))
  : list (Param * ParamRangeMap) :=
  gbuf_range_maps ← model_gbuf_ranges;
  dg ← gbuf_range_maps;
  param_map dg.2.

Definition owned_params (model_gbuf_ranges : list (dict dtype GbufRange))
  : list Param := (owned_entries model_gbuf_ranges).*1.

(** [s] is the shard made by [make] from the parameter [p] and the
    [param] range of [p]'s entry of the three-way map. *)
Definition shard_made (make : Param -> Range.t -> Shard)
    (model_gbuf_ranges : list (dict dtype GbufRange))
    (model_param_gbuf_map : dict Param (nat * dtype))
    (p : Param) (s : Shard) : Prop :=
  exists m, lookup_param_range_map model_gbuf_ranges model_param_gbuf_map p = Ok m /\
            s = make p (param m).

(** ** Loading in place *)

(** A record fits the optimizer when the tensor it addresses exists and
    [copy_] accepts the saved contents for it. *)
Definition record_fits (self : DistributedOptimizer) (r : ShardState.t) : Prop :=
  match target_of self r with
  | Some t =>
      is_Some (broadcast_to (length (tensor_values self t)) (ShardState.param r).2)
  | None => False
  end.

#[export] Instance record_fits_dec self r : Decision (record_fits self r).
Proof. unfold record_fits. destruct (target_of self r); apply _. Defined.

(** At a place of the reverse map, [optimizer.param_groups] and
    [shard_fp32_from_float16_groups] hold the same tensor. *)
Definition places_agree (self : DistributedOptimizer)
    (entry : Param * (nat * nat)) : Prop :=
  (group ← param_groups (optimizer self) !! entry.2.1; params group !! entry.2.2)
  = (group ← shard_fp32_from_float16_groups (main_param_groups self) !! entry.2.1;
     group !! entry.2.2).

#[export] Instance places_agree_dec self entry : Decision (places_agree self entry).
Proof. unfold places_agree. apply _. Defined.

(** The checkpoint of scenario A on rank 0 of 2, and the same optimizer
    with a loss scaler. *)
Definition scenario_A_checkpoint : Checkpoint :=
  saved_checkpoint (state_dict (H := torch_optimizer) scenario_A_rank0).

Definition scenario_A_scaled : DistributedOptimizer :=
  with_grad_scaler scenario_A_rank0 (Some [("scale", 1)]).

(** The optimizer a successful base [load_state_dict] returns. *)
Definition saved_optimizer (r : res Optimizer) : Optimizer :=
  match r with
  | Ok o => o
  | Raise _ => mkOptimizer [] []
  end.

(** ** Copying the main shards into the parameter buffers *)

(** [self.param_buffers]: per model, per data type, the flat buffer the
    all-gather works on. *)
Abbreviation ParamBuffers := (list (dict dtype (list scalar))) (only parsing).

Definition buffer_at (param_buffers : ParamBuffers) (model_id : nat) (dt : dtype)
  : option (list scalar) :=
  buffers ← param_buffers !! model_id; dict_get dt buffers.



(** A loop whose body mutates a store in place: an exception stops the
    loop and leaves the store as the iterations before it made it. *)
Fixpoint for_each_in_place {A S : Type} (body : A -> S -> res unit * S)
    (xs : list A) (s : S) : res unit * S :=
  match xs with
  | [] => (Ok tt, s)
  | x :: xs' =>
      match body x s with
      | (Ok _, s') => for_each_in_place body xs' s'
      | (Raise e, s') => (Raise e, s')
      end
  end.




(** The pairs of a main shard and its model parameter, in the order the
    copy visits them. *)
Definition group_pairs (shard_main_groups : list (list Shard))
    (model_groups : list (list Param)) : list (Shard * Param) :=
  gs ← zip shard_main_groups model_groups; zip gs.1 gs.2.

Definition main_model_pairs (self : DistributedOptimizer) : list (Shard * Param) :=
  group_pairs (shard_fp32_from_float16_groups (main_param_groups self))
              (model_float16_groups (main_param_groups self))
  ++ group_pairs (shard_fp32_groups (main_param_groups self))
                 (model_fp32_groups (main_param_groups self)).

(** The stretch of a buffer the copy of one pair writes. *)
Definition copy_target (self : DistributedOptimizer) (pair : Shard * Param)
  : option (nat * dtype * Range.t) :=
  match get_model_param_range_map self pair.2,
        dict_get pair.2 (model_param_gbuf_map self) with
  | Ok m, Some (model_id, dt) => Some (model_id, dt, gbuf_world m)
  | _, _ => None
  end.

(** A pair is ready when its stretch lies inside an existing buffer and
    has the size of the main shard. *)
Definition copy_ready (self : DistributedOptimizer) (param_buffers : ParamBuffers)
    (pair : Shard * Param) : Prop :=
  match copy_target self pair with
  | Some (model_id, dt, w) =>
      match buffer_at param_buffers model_id dt with
      | Some buf =>
          0 <= Range.start w /\ Range.end_ w <= Z.of_nat (length buf) /\
          Range.size w = Range.end_ w - Range.start w /\
          Range.size w = Z.of_nat (length (tensor_values self pair.1))
      | None => False
      end
  | None => False
  end.

#[export] Instance copy_ready_dec self param_buffers pair :
  Decision (copy_ready self param_buffers pair).
Proof.
  unfold copy_ready. destruct (copy_target self pair) as [[[? ?] ?]|]; [|apply _].
  destruct (buffer_at _ _ _); apply _.
Defined.

(** Two stretches do not meet: different buffers, or disjoint ranges. *)
Definition stretches_apart (a b : nat * dtype * Range.t) : Prop :=
  a.1 <> b.1 \/ Range.end_ a.2 <= Range.start b.2
  \/ Range.end_ b.2 <= Range.start a.2.

Fixpoint writes_disjoint (ts : list (nat * dtype * Range.t)) : Prop :=
  match ts with
  | [] => True
  | t :: ts' => Forall (stretches_apart t) ts' /\ writes_disjoint ts'
  end.

#[export] Instance stretches_apart_dec a b : Decision (stretches_apart a b).
Proof. unfold stretches_apart. apply _. Defined.

#[export] Instance writes_disjoint_dec ts : Decision (writes_disjoint ts).
Proof. induction ts; simpl; apply _. Defined.


(** ** The aligned lists of model and main parameters *)

(** [DistributedOptimizer._get_model_and_main_params_data_float16] *)
Definition _get_model_and_main_params_data_float16 (self : DistributedOptimizer)
  : list (list scalar) * list (list scalar) :=
  fold_left
    (fun acc '(model_group, main_group) =>
       fold_left
         (fun '(model_data, main_data) '(model_param, main_param) =>
            (model_data ++ [tensor_values self model_param],
             main_data ++ [tensor_values self main_param]))
         (zip model_group main_group) acc)
    (zip (shard_float16_groups (main_param_groups self))
         (shard_fp32_from_float16_groups (main_param_groups self)))
    ([], []).

(** ** Models as the data-parallel layer builds them *)

(** An index entry fits a buffer of [numel] elements: its range lies
    inside the buffer and has as many elements as the parameter. *)
Definition entry_fits (numel : Z) (entry : Param * world_indexes) : Prop :=
  0 <= entry.2.1.2 /\ entry.2.2 <= numel /\
  entry.2.2 - entry.2.1.2 = Z.of_nat (length (data entry.1)).

Definition entries_disjoint (a b : Param * world_indexes) : Prop :=
  a.2.2 <= b.2.1.2 \/ b.2.2 <= a.2.1.2.

Fixpoint entries_apart (imap : list (Param * world_indexes)) : Prop :=
  match imap with
  | [] => True
  | x :: rest => Forall (entries_disjoint x) rest /\ entries_apart rest
  end.

Definition buffer_well_formed (model : Model) (db : dtype * MemoryBuffer) : Prop :=
  match dict_get db.1 (_grad_buffer_param_index_map model) with
  | Some imap => Forall (entry_fits (numel db.2)) imap /\ entries_apart imap
  | None => True
  end.

(** The gradient buffers are keyed by distinct data types, and the
    parameters of a buffer lie in it side by side. *)
Definition model_well_formed (model : Model) : Prop :=
  NoDup (dict_keys (_grad_buffers model)) /\
  Forall (buffer_well_formed model) (_grad_buffers model).

(** The parameters of a model, buffer by buffer. *)
Definition model_params (model : Model) : list Param :=
  dt ← dict_keys (_grad_buffers model);
  (default [] (dict_get dt (_grad_buffer_param_index_map model))).*1.

(** The parameter buffers as [__init__] shapes them: one per gradient
    buffer, with room for its [numel] elements. *)
Definition buffers_fit (models : list Model) (param_buffers : ParamBuffers) : Prop :=
  Forall2
    (fun model buffers =>
       Forall (fun db : dtype * MemoryBuffer =>
                 match dict_get db.1 buffers with
                 | Some b => numel db.2 <= Z.of_nat (length b)
                 | None => False
                 end)
              (_grad_buffers model))
    models param_buffers.

#[export] Instance entry_fits_dec n e : Decision (entry_fits n e).
Proof. unfold entry_fits. apply _. Defined.
#[export] Instance entries_disjoint_dec a b : Decision (entries_disjoint a b).
Proof. unfold entries_disjoint. apply _. Defined.
#[export] Instance entries_apart_dec imap : Decision (entries_apart imap).
Proof. induction imap; simpl; apply _. Defined.
#[export] Instance buffer_well_formed_dec model db :
  Decision (buffer_well_formed model db).
Proof. unfold buffer_well_formed. destruct (dict_get _ _); apply _. Defined.
#[export] Instance model_well_formed_dec model : Decision (model_well_formed model).
Proof. unfold model_well_formed, dict_keys. apply _. Defined.
#[export] Instance buffers_fit_dec models bufs : Decision (buffers_fit models bufs).
Proof.
  unfold buffers_fit. apply Forall2_dec. intros model buffers.
  apply Forall_dec. intros db. destruct (dict_get _ _); apply _.
Defined.

(** ** Copying the model gradients to the main shards *)

(** The [grad] field of the main shards, by tensor. *)
Abbreviation Grads := (dict Shard (list scalar)) (only parsing).

(** The body of the inner loop of [copy_group_grads].  [main_grad] gives
    the flattened [main_grad] of a model parameter; [.float()] keeps the
    values.  A tensor refuses a [grad] of another size than its own. *)
Definition copy_model_grad (self : DistributedOptimizer)
    (main_grad : Param -> list scalar) (pair : Param * Shard) (grads : Grads)
  : res unit * Grads :=
  let '(model_param, shard_main_param) := pair in
  let assigned : res Grads :=
    param_range_map ← get_model_param_range_map self model_param;
    let param_range := param param_range_map in
    if negb (bool_decide
               (Range.size param_range
                = Z.of_nat (length (tensor_values self shard_main_param))))
    then Raise AssertionError
    else
      let model_grad := main_grad model_param in
      let shard_model_grad :=
        py_slice model_grad (Range.start param_range) (Range.end_ param_range) in
      if negb (bool_decide (length shard_model_grad
                            = length (tensor_values self shard_main_param)))
      then Raise RuntimeError
      else Ok (dict_set shard_main_param shard_model_grad grads) in
  match assigned with
  | Ok grads' => (Ok tt, grads')
  | Raise e => (Raise e, grads)
  end.

Definition copy_group_grads (self : DistributedOptimizer)
    (main_grad : Param -> list scalar)
    (model_groups : list (list Param)) (shard_main_groups : list (list Shard))
  : Grads -> res unit * Grads :=
  for_each_in_place
    (fun '(model_group, shard_main_group) =>
       for_each_in_place (copy_model_grad self main_grad)
                         (zip model_group shard_main_group))
    (zip model_groups shard_main_groups).

(** [DistributedOptimizer._copy_model_grads_to_main_grads] *)
Definition _copy_model_grads_to_main_grads (self : DistributedOptimizer)
    (main_grad : Param -> list scalar) (grads : Grads) : res unit * Grads :=
  (* Copy model groups to shard groups. *)
  match copy_group_grads self main_grad
          (model_float16_groups (main_param_groups self))
          (shard_fp32_from_float16_groups (main_param_groups self)) grads with
  | (Ok _, grads') =>
      copy_group_grads self main_grad
        (model_fp32_groups (main_param_groups self))
        (shard_fp32_groups (main_param_groups self)) grads'
  | (Raise e, grads') => (Raise e, grads')
  end.

(** The gradients of scenario A: each a ramp of the parameter's size. *)
Definition scenario_A_main_grad (p : Param) : list scalar :=
  seqZ 1000 (Z.of_nat (length (data p))).

(** ** The views of the gradient buffers *)

(** [DistributedOptimizer.get_model_grad_buffer_dp_views]: every
    gradient buffer is passed as a dictionary of its own,
    [[{dtype : mem_buffer.data} for model in self.models
      for dtype, mem_buffer in model._grad_buffers.items()]].
    [grad_buffers] holds, per model, the [data] of its [_grad_buffers]. *)
Definition get_model_grad_buffer_dp_views (data_parallel_world_size : Z)
    (grad_buffers : list (dict dtype (list scalar))) : res (list ViewItem) :=
  get_model_buffer_dp_views data_parallel_world_size
    (model ← grad_buffers; (fun db : dtype * list scalar => [db]) <$> model).

(** Two models, the first with two gradient buffers. *)
Definition two_buffer_models : list (dict dtype (list scalar)) :=
  [[(torch_float, [1; 2]); (torch_half, [3; 4])]; [(torch_float, [5; 6])]].

(** * Theorems *)

(** ** Dictionaries *)

Section dict_facts.
Context {K V : Type} `{EqDecision K}.
Implicit Types (d : list (K * V)) (k : K) (v : V).

Lemma dict_set_fresh k v d :
  k ∉ d.*1 -> dict_set k v d = d ++ [(k, v)].
Proof.
  induction d as [|[k' v'] d IH]; csimpl; [done|].
  intros Hk. apply not_elem_of_cons in Hk as [Hne Hk].
  destruct (decide (k = k')); [done|]. by rewrite IH.
Qed.

Lemma dict_get_app_l k d1 d2 v :
  dict_get k d1 = Some v -> dict_get k (d1 ++ d2) = Some v.
Proof.
  induction d1 as [|[k' v'] d1 IH]; csimpl; [done|].
  destruct (decide (k = k')); auto.
Qed.

Lemma dict_get_None k d : dict_get k d = None <-> k ∉ d.*1.
Proof.
  induction d as [|[k' v'] d IH]; csimpl.
  - split; [intros _; apply not_elem_of_nil|done].
  - rewrite not_elem_of_cons. destruct (decide (k = k')); [|tauto].
    split; [done|tauto].
Qed.

Lemma dict_get_elem_of k v d : dict_get k d = Some v -> (k, v) ∈ d.
Proof.
  induction d as [|[k' v'] d IH]; csimpl; [done|].
  destruct (decide (k = k')) as [->|]; intros Hg.
  - injection Hg as ->. left.
  - right. auto.
Qed.

Lemma dict_get_omap {W : Type} (f : V -> option W) k d :
  NoDup d.*1 ->
  dict_get k (omap (fun kv => pair kv.1 <$> f kv.2) d) = dict_get k d ≫= f.
Proof.
  induction d as [|[k' v'] d IH]; csimpl; [done|].
  intros Hnd. apply NoDup_cons in Hnd as [Hk' Hnd].
  specialize (IH Hnd).
  destruct (decide (k = k')) as [->|Hne]; csimpl.
  - destruct (f v') as [w|] eqn:Hf; csimpl.
    + by rewrite decide_True.
    + rewrite IH. apply dict_get_None in Hk'. by rewrite Hk'.
  - destruct (f v') as [w|] eqn:Hf; csimpl; [rewrite decide_False by done|];
      by rewrite IH.
Qed.

Lemma omap_keys_subseteq {W : Type} (f : V -> option W) d k :
  k ∈ (omap (fun kv => pair kv.1 <$> f kv.2) d).*1 -> k ∈ d.*1.
Proof.
  induction d as [|[k' v'] d IH]; csimpl; [done|].
  destruct (f v'); csimpl; rewrite ?elem_of_cons; intuition.
Qed.
End dict_facts.

(** ** Range algebra *)

Lemma Range_init_wf s e :
  Range.size (Range.init s e) = Range.end_ (Range.init s e) - Range.start (Range.init s e).
Proof. reflexivity. Qed.

Lemma Range_normalize_size r o : Range.size (Range.normalize r o) = Range.size r.
Proof. unfold Range.normalize, Range.init; simpl. lia. Qed.

(** C8, as the code has it: [Range(start, end)] is total.  For every pair
    of integers, ordered or not, it returns the range with the given
    end points and [size = end - start] (negative when [end < start]);
    [normalize(origin)] returns [Range(origin, origin + size)], of the
    same size. *)
Theorem Range_init_normalize_total (s e origin : Z) :
  Range.start (Range.init s e) = s /\
  Range.end_ (Range.init s e) = e /\
  Range.size (Range.init s e) = e - s /\
  Range.normalize (Range.init s e) origin = Range.init origin (origin + (e - s)) /\
  Range.size (Range.normalize (Range.init s e) origin) = e - s.
Proof.
  repeat split. apply Range_normalize_size.
Qed.

(** C8 fails as stated: with [end < start] the constructor returns a
    range, of negative size; there is no error. *)
Lemma Range_init_reversed_accepted :
  3 < 5 /\ Range.init 5 3 = Range.mk 5 3 (-2).
Proof. split; [lia|reflexivity]. Qed.

(** ** The world partition *)



Lemma world_all_length N s W :
  length (gbuf_world_all_ranges N s W) = Z.to_nat W.
Proof. unfold gbuf_world_all_ranges, range. by rewrite length_fmap, length_seqZ. Qed.

Lemma world_all_lookup N s W r :
  0 <= r < W ->
  gbuf_world_all_ranges N s W !! Z.to_nat r
  = Some (Range.init (r * s) (Z.min N (r * s + s))).
Proof.
  intros Hr. unfold gbuf_world_all_ranges, range.
  rewrite list_lookup_fmap, lookup_seqZ_lt by lia. simpl.
  by replace (0 + Z.of_nat (Z.to_nat r)) with r by lia.
Qed.

Lemma world_all_lookup_inv N s W (i : nat) R :
  gbuf_world_all_ranges N s W !! i = Some R ->
  0 <= Z.of_nat i < W /\
  R = Range.init (Z.of_nat i * s) (Z.min N (Z.of_nat i * s + s)).
Proof.
  intros Hl. assert (Z.of_nat i < W) as Hi.
  { apply lookup_lt_Some in Hl. rewrite world_all_length in Hl. lia. }
  split; [lia|].
  rewrite <- (Nat2Z.id i), world_all_lookup in Hl by lia. congruence.
Qed.




Lemma list_getitem_lookup {A} (l : list A) (i : Z) x :
  0 <= i -> l !! Z.to_nat i = Some x -> list_getitem l i = Ok x.
Proof.
  intros Hi Hl. unfold list_getitem.
  destruct (i <? 0) eqn:E; [lia|]. rewrite E. by rewrite Hl.
Qed.

Lemma list_getitem_nat {A} (l : list A) (i : nat) :
  list_getitem l (Z.of_nat i)
  = match l !! i with Some x => Ok x | None => Raise IndexError end.
Proof.
  assert ((Z.of_nat i <? 0) = false) as E by (apply Z.ltb_ge; lia).
  unfold list_getitem. rewrite E. cbv zeta. by rewrite E, Nat2Z.id.
Qed.








(** ** The three-way map *)

Lemma param_range_step_entry L acc p idx :
  param_range_step L acc (p, idx)
  = match param_range_entry L idx with
    | Some m => dict_set p m acc
    | None => acc
    end.
Proof.
  destruct idx as [[o ws] we]. unfold param_range_step, param_range_entry.
  by destruct (_ <? _).
Qed.

(** On a dictionary (keys without repetition) the loop is a filter that
    keeps the insertion order. *)
Lemma param_range_fold L (items : list (Param * world_indexes)) acc :
  NoDup items.*1 ->
  (forall k, k ∈ items.*1 -> k ∉ acc.*1) ->
  fold_left (param_range_step L) items acc
  = acc ++ omap (fun kv => pair kv.1 <$> param_range_entry L kv.2) items.
Proof.
  revert acc. induction items as [|[p idx] items IH]; intros acc Hnd Hfresh.
  - csimpl. by rewrite app_nil_r.
  - rewrite fmap_cons in Hnd, Hfresh. apply NoDup_cons in Hnd as [Hp Hnd].
    change (fold_left (param_range_step L) ((p, idx) :: items) acc)
      with (fold_left (param_range_step L) items (param_range_step L acc (p, idx))).
    rewrite param_range_step_entry.
    destruct (param_range_entry L idx) as [m|] eqn:E; csimpl; rewrite E; csimpl.
    + rewrite dict_set_fresh by (apply Hfresh; left).
      rewrite IH; [by rewrite <- app_assoc|done|].
      intros k Hk. rewrite fmap_app, elem_of_app. csimpl.
      rewrite list_elem_of_singleton. intros [Hacc| ->]; [|done].
      by apply (Hfresh k); [right|].
    + apply IH; [done|]. intros k Hk. apply Hfresh. by right.
Qed.

Lemma build_param_range_map_filter model dt L imap :
  dict_get dt (_grad_buffer_param_index_map model) = Some imap ->
  NoDup imap.*1 ->
  build_model_gbuf_param_range_map model dt L
  = Ok (omap (fun kv => pair kv.1 <$> param_range_entry L kv.2) imap).
Proof.
  intros Himap Hnd. unfold build_model_gbuf_param_range_map, dict_getitem.
  rewrite Himap. csimpl. rewrite param_range_fold; [done..|].
  intros k _. apply not_elem_of_nil.
Qed.

Lemma param_range_entry_inv L o ws we m :
  param_range_entry L (o, ws, we) = Some m ->
  let ls := Z.max 0 (ws - Range.start L) in
  let le := Z.min (Range.size L) (we - Range.start L) in
  ls < le /\
  gbuf_world_order m = o /\
  gbuf_local m = Range.init ls le /\
  gbuf_world m = Range.init (ls + Range.start L) (le + Range.start L) /\
  param m = Range.init (Z.max 0 (Range.start L - ws))
                       (Z.max 0 (Range.start L - ws) + (le - ls)).
Proof.
  intros Hm ls le. unfold param_range_entry in Hm. fold ls le in Hm.
  destruct (ls <? le) eqn:E; [|done]. injection Hm as <-.
  apply Z.ltb_lt in E. simpl. repeat split; try done.
  all: unfold Range.normalize, Range.init; simpl; f_equal; lia.
Qed.

(** C2.  Every entry that [build_model_gbuf_param_range_map] keeps for a
    local shard [L] comes from an entry [(order, ws, we)] of the index
    map, and its three ranges have one common, positive size; the world
    range lies inside [L] and the parameter range inside
    [[0, numel(p))] where [numel(p) = we - ws]. *)
Theorem three_way_map_invariants model dt imap L prm p m :
  dict_get dt (_grad_buffer_param_index_map model) = Some imap ->
  NoDup imap.*1 ->
  Range.size L = Range.end_ L - Range.start L ->
  build_model_gbuf_param_range_map model dt L = Ok prm ->
  dict_get p prm = Some m ->
  exists order ws we,
    dict_get p imap = Some (order, ws, we) /\
    gbuf_world_order m = order /\
    Range.size (gbuf_world m) = Range.size (gbuf_local m) /\
    Range.size (gbuf_local m) = Range.size (param m) /\
    0 < Range.size (param m) /\
    Range.subset (gbuf_world m) L /\
    (forall numel_p, we - ws = numel_p ->
       Range.subset (param m) (Range.init 0 numel_p)).
Proof.
  intros Himap Hnd HL Hbuild Hget.
  rewrite (build_param_range_map_filter _ _ _ imap) in Hbuild by done.
  injection Hbuild as <-. rewrite dict_get_omap in Hget by done.
  destruct (dict_get p imap) as [[[o ws] we]|] eqn:Hidx; [|done].
  csimpl in Hget. exists o, ws, we. split; [done|].
  apply param_range_entry_inv in Hget as (Hlt & Ho & Hl & Hw & Hp).
  rewrite Hl, Hw, Hp. unfold Range.subset; simpl.
  repeat split; try done; lia.
Qed.

(** Scenario A on rank 0 of 2 meets the hypotheses for the second
    parameter, whose first element is local. *)
Lemma three_way_map_invariants_witness :
  exists m, dict_get (half_param 1 5)
              [(half_param 0 3, mkParamRangeMap 0 (Range.init 0 3) (Range.init 0 3) (Range.init 0 3));
               (half_param 1 5, m)] = Some m /\
    Range.size (gbuf_world m) = 1 /\ Range.subset (param m) (Range.init 0 5).
Proof.
  exists (mkParamRangeMap 1 (Range.init 3 4) (Range.init 3 4) (Range.init 0 1)).
  split; [reflexivity|].
  destruct (three_way_map_invariants scenario_A torch_float
              [(half_param 0 3, (0, 0, 3)); (half_param 1 5, (1, 3, 8))]
              (Range.init 0 4)
              [(half_param 0 3, mkParamRangeMap 0 (Range.init 0 3) (Range.init 0 3) (Range.init 0 3));
               (half_param 1 5, mkParamRangeMap 1 (Range.init 3 4) (Range.init 3 4) (Range.init 0 1))]
              (half_param 1 5)
              (mkParamRangeMap 1 (Range.init 3 4) (Range.init 3 4) (Range.init 0 1)))
    as (o & ws & we & Hidx & _ & _ & _ & _ & _ & Hsub).
  - reflexivity.
  - apply (bool_decide_unpack _). vm_compute. exact I.
  - reflexivity.
  - reflexivity.
  - reflexivity.
  - split; [reflexivity|]. apply Hsub.
    injection Hidx as _ <- <-. reflexivity.
Defined.

(** Scenario A: rank 0 of 2 owns all of the first parameter and the
    first element of the second; rank 1 owns the last four elements of
    the second. *)
Example scenario_A_param_ranges :
  (g ← build_model_gbuf_range 0 2 scenario_A torch_float;
   Ok ((fun kv => (param_id kv.1, param kv.2)) <$> param_map g))
  = Ok [(0%nat, Range.init 0 3); (1%nat, Range.init 0 1)] /\
  (g ← build_model_gbuf_range 1 2 scenario_A torch_float;
   Ok ((fun kv => (param_id kv.1, param kv.2)) <$> param_map g))
  = Ok [(1%nat, Range.init 1 5)].
Proof. split; reflexivity. Qed.

(** Scenario B: one parameter of 10 elements over three ranks; rank 2
    holds [[8, 10)] of it, at [[0, 2)] of its shard. *)
Example scenario_B_last_rank :
  (g ← build_model_gbuf_range 2 3 (single_param_model 10 12) torch_float;
   Ok (param_map g).*2)
  = Ok [mkParamRangeMap 0 (Range.init 8 10) (Range.init 0 2) (Range.init 8 10)].
Proof. reflexivity. Qed.

(** ** Coverage of a parameter by the participants *)

#[local] Arguments param_range_entry : simpl never.
#[local] Arguments param_range_step : simpl never.




Section coverage.
Context (model : Model) (dt : dtype) (buf : MemoryBuffer)
        (imap : list (Param * world_indexes)) (W : Z) (p : Param)
        (order ws we : Z).
Hypothesis Hbuf : dict_get dt (_grad_buffers model) = Some buf.
Hypothesis Himap : dict_get dt (_grad_buffer_param_index_map model) = Some imap.
Hypothesis Hnodup : NoDup imap.*1.
Hypothesis Hp : dict_get p imap = Some (order, ws, we).
Hypothesis Hrange : 0 <= ws <= we /\ we <= numel buf.
Hypothesis HW : 1 <= W.

Let s := ceil_div (numel buf) W.



End coverage.



(** ** Group construction *)

(** Parameters of the three supported types never reach the error branch
    of the group builder: the loop body fails only on a missing map entry
    or a cleared [requires_grad]. *)
Lemma main_param_step_supported ranges gbuf_map acc p e :
  type_ p ∈ ["torch.cuda.HalfTensor"; "torch.cuda.BFloat16Tensor";
             "torch.cuda.FloatTensor"] ->
  main_param_step ranges gbuf_map acc p = Raise e ->
  e = AssertionError \/ e = KeyError \/ e = IndexError.
Proof.
  intros Hty. unfold main_param_step.
  destruct (requires_grad p); csimpl; [|intros [= <-]; auto].
  unfold dict_getitem, list_getitem.
  repeat (case_match; csimpl; try (intros [= <-]; auto); try done).
  all: repeat match goal with
         | H : bool_decide _ = false |- _ => apply bool_decide_eq_false_1 in H
         end.
  all: rewrite !elem_of_cons, elem_of_nil in *; tauto.
Qed.

(** A locally owned parameter of any other type makes the loop body fail
    with [NameError], whatever the type is; [TypeError] is never raised. *)
Lemma main_param_step_unsupported ranges gbuf_map acc p mi dt gm g m :
  requires_grad p = true ->
  dict_get p gbuf_map = Some (mi, dt) ->
  ranges !! mi = Some gm ->
  dict_get dt gm = Some g ->
  dict_get p (param_map g) = Some m ->
  type_ p ∉ ["torch.cuda.HalfTensor"; "torch.cuda.BFloat16Tensor";
             "torch.cuda.FloatTensor"] ->
  main_param_step ranges gbuf_map acc p = Raise (NameError "param").
Proof.
  intros Hrg Hmap Hgm Hg Hm Hty. unfold main_param_step, dict_getitem.
  rewrite Hrg, Hmap. csimpl.
  rewrite (list_getitem_lookup _ _ gm) by (lia || by rewrite Nat2Z.id).
  csimpl. rewrite Hg. csimpl. rewrite Hm. csimpl.
  rewrite !elem_of_cons, elem_of_nil in Hty.
  rewrite bool_decide_eq_false_2
    by (rewrite !elem_of_cons, elem_of_nil; tauto).
  rewrite bool_decide_eq_false_2 by tauto. done.
Qed.

(** C9 at a failing input: a group that holds a [torch.cuda.DoubleTensor]
    parameter.  Construction fails, but with [NameError] for the unbound
    name [param] of the error message, not with [TypeError] and the
    received type. *)
Theorem unsupported_dtype_raises_name_error :
  double_optimizer = Raise (NameError "param") /\
  forall msg, double_optimizer <> Raise (TypeError msg).
Proof. split; [vm_compute; reflexivity|]. intros msg. vm_compute. discriminate. Qed.

(** C10 at a failing input: a group mixing a half-precision parameter
    (first in the buffer) with a float32 one.  The reverse map sends the
    half-precision parameter to place [(0, 0)], and that place of the
    rewritten group holds the float32 view of the other parameter. *)
Theorem reverse_map_mixed_group :
  exists self main_param,
    mixed_group_optimizer = Ok self /\
    dict_get (half_param 0 4) (model_param_group_index_map self) = Some (0%nat, 0%nat) /\
    params <$> param_groups (optimizer self)
    = [[shard_view (float_param 1 4) (Range.init 0 4);
        shard_main (half_param 0 4) (Range.init 0 4)]] /\
    (param_groups (optimizer self) !! 0%nat ≫= fun g => params g !! 0%nat)
    = Some main_param /\
    shard_source main_param = float_param 1 4 /\
    shard_source main_param <> half_param 0 4.
Proof.
  eexists _, _. split; [vm_compute; reflexivity|].
  repeat split. discriminate.
Qed.

(** A second failing input: on a rank that owns no parameter of
    the first group, the map records group 1 for the owned parameter,
    the base optimizer is left with one group, and [state_dict] fails. *)
Lemma reverse_map_dropped_group :
  exists self,
    dropped_group_optimizer = Ok self /\
    dict_get (half_param 1 4) (model_param_group_index_map self) = Some (1%nat, 0%nat) /\
    length (param_groups (optimizer self)) = 1%nat /\
    state_dict (H := torch_optimizer) self = Raise IndexError.
Proof. eexists. split; [vm_compute; reflexivity|]. repeat split. Qed.

(** ** Checkpoint save *)

Lemma for_each_append {A B : Type} (f : A -> res B) xs acc out :
  for_each (fun acc x => r ← f x; Ok (acc ++ [r])) xs acc = Ok out ->
  exists new, out = acc ++ new /\ Forall2 (fun x r => f x = Ok r) xs new.
Proof.
  revert acc. induction xs as [|x xs IH]; intros acc; csimpl.
  - intros [= <-]. exists []. by rewrite app_nil_r.
  - destruct (f x) as [r|e] eqn:Hf; csimpl; [|done].
    intros (new & -> & Hnew)%IH. exists (r :: new).
    split; [by rewrite <- app_assoc|by constructor].
Qed.

Lemma shard_state_dict_fields self dsd p m r :
  shard_state_dict self dsd (p, m) = Ok r ->
  ShardState.world_order r = gbuf_world_order m /\
  ShardState.param_range_map r = m /\
  dict_get p (model_param_group_index_map self)
  = Some (ShardState.group_index r, ShardState.group_order r).
Proof.
  unfold shard_state_dict, dict_getitem.
  destruct (dict_get p _) as [[gi go]|]; csimpl; [|done].
  rewrite ?list_getitem_nat.
  destruct (param_groups (optimizer self) !! gi) as [group|]; csimpl; [|done].
  rewrite ?list_getitem_nat.
  destruct (params group !! go) as [main_param|]; csimpl; [|done].
  destruct (sd_param_groups dsd !! gi) as [packed|]; csimpl; [|done].
  rewrite ?list_getitem_nat.
  destruct (params packed !! go) as [state_order|]; csimpl; [|done].
  by intros [= <-].
Qed.

Lemma buffer_world_orders self dsd acc g out :
  buffer_shard_state_dicts self dsd acc g = Ok out ->
  exists new, out = acc ++ new /\
    ShardState.world_order <$> new = (gbuf_world_order ∘ snd) <$> param_map g.
Proof.
  intros (new & -> & Hnew)%for_each_append. exists new. split; [done|].
  induction Hnew as [|[p m] r items new Hr _ IH]; csimpl; [done|].
  apply shard_state_dict_fields in Hr as (-> & _). by rewrite IH.
Qed.

Lemma StronglySorted_sublist {A : Type} (R : relation A) l1 l2 :
  sublist l1 l2 -> StronglySorted R l2 -> StronglySorted R l1.
Proof.
  induction 1 as [|x l1 l2 Hsub IH|x l1 l2 Hsub IH]; [done|..].
  - intros [Hall Hs]%StronglySorted_cons. apply StronglySorted_cons.
    split; [|auto]. rewrite Forall_forall in Hall |- *.
    intros y Hy. apply Hall. by eapply elem_of_sublist.
  - intros [_ Hs]%StronglySorted_cons. auto.
Qed.

(** The world orders kept for a shard are those of the index map, in its
    insertion order, with the skipped parameters left out. *)
Lemma retained_world_orders L (items : list (Param * world_indexes)) :
  sublist
    ((gbuf_world_order ∘ snd)
       <$> omap (fun kv => pair kv.1 <$> param_range_entry L kv.2) items)
    ((fun kv => kv.2.1.1) <$> items).
Proof.
  induction items as [|[p [[o ws] we]] items IH]; csimpl; [done|].
  destruct (param_range_entry L (o, ws, we)) as [m|] eqn:E; csimpl.
  - apply param_range_entry_inv in E as (_ & -> & _). by constructor.
  - by constructor.
Qed.

Lemma build_model_gbuf_range_param_map r W model dt g :
  build_model_gbuf_range r W model dt = Ok g ->
  build_model_gbuf_param_range_map model dt (world g) = Ok (param_map g).
Proof.
  unfold build_model_gbuf_range.
  destruct (dict_getitem dt _) as [buf|]; csimpl; [|done].
  destruct (decide (W = 0)); [done|].
  destruct (list_getitem _ r) as [L|]; csimpl; [|done].
  destruct (build_model_gbuf_param_range_map model dt L) as [prm|] eqn:E;
    csimpl; [|done].
  intros [= <-]. exact E.
Qed.

(** C4, as the code has it.  The records [state_dict] emits for a
    gradient buffer carry the world orders of the buffer's [param_map] in
    the order of that dictionary, which is the insertion order of the
    index map with the parameters the rank does not own left out.  The
    sequence is strictly increasing when the world orders of the index
    map increase strictly along its insertion order. *)
Theorem state_dict_world_order
    self dsd r W model dt (items : list (Param * world_indexes)) g records :
  dict_get dt (_grad_buffer_param_index_map model) = Some items ->
  NoDup items.*1 ->
  build_model_gbuf_range r W model dt = Ok g ->
  buffer_shard_state_dicts self dsd [] g = Ok records ->
  ShardState.world_order <$> records = (gbuf_world_order ∘ snd) <$> param_map g /\
  sublist (ShardState.world_order <$> records) ((fun kv => kv.2.1.1) <$> items) /\
  (StronglySorted Z.lt ((fun kv => kv.2.1.1) <$> items) ->
   StronglySorted Z.lt (ShardState.world_order <$> records)).
Proof.
  intros Hitems Hnd Hbuild%build_model_gbuf_range_param_map
         (new & -> & Hnew)%buffer_world_orders.
  rewrite app_nil_l, Hnew.
  rewrite (build_param_range_map_filter _ _ _ items) in Hbuild by done.
  injection Hbuild as <-.
  pose proof (retained_world_orders (world g) items) as Hsub.
  split; [done|]. split; [done|].
  by apply StronglySorted_sublist.
Qed.

Lemma for_each_append_ok {A B : Type} (f : A -> res B) xs acc new :
  Forall2 (fun x r => f x = Ok r) xs new ->
  for_each (fun acc x => r ← f x; Ok (acc ++ [r])) xs acc = Ok (acc ++ new).
Proof.
  intros Hnew. revert acc.
  induction Hnew as [|x r xs new Hx _ IH]; intros acc; csimpl.
  - by rewrite app_nil_r.
  - rewrite Hx. csimpl. rewrite IH. by rewrite <- app_assoc.
Qed.

Lemma buffer_shard_state_dicts_acc self dsd acc g out :
  buffer_shard_state_dicts self dsd acc g = Ok out ->
  exists new, out = acc ++ new /\ buffer_shard_state_dicts self dsd [] g = Ok new.
Proof.
  unfold buffer_shard_state_dicts.
  intros (new & -> & Hnew)%for_each_append. exists new. split; [done|].
  by rewrite (for_each_append_ok _ _ [] new).
Qed.

(** [state_dict] visits the buffers in the order of [model_gbuf_ranges]
    and emits the records of each buffer as one block. *)
Lemma state_dict_blocks `{BaseOptimizer} self ckpt :
  state_dict self = Ok ckpt ->
  exists dsd blocks,
    optimizer_state_dict (optimizer self) = Ok dsd /\
    ckpt_state ckpt = mjoin blocks /\
    Forall2 (fun g rs => buffer_shard_state_dicts self dsd [] g = Ok rs)
            (mjoin ((fun m : list (dtype * GbufRange) => m.*2)
                      <$> model_gbuf_ranges self)) blocks.
Proof.
  unfold state_dict.
  destruct (optimizer_state_dict _) as [dsd|] eqn:Hd; csimpl; [|done].
  destruct (for_each _ _ _) as [recs|] eqn:Hloop; csimpl; [|done].
  intros [= <-]. simpl. exists dsd.
  enough (forall (ranges : list (list (dtype * GbufRange))) acc out,
    for_each
      (fun acc gbuf_range_maps =>
         for_each
           (fun acc '(_, gbuf_range_map) =>
              buffer_shard_state_dicts self dsd acc gbuf_range_map)
           gbuf_range_maps acc) ranges acc = Ok out ->
    exists blocks, out = acc ++ mjoin blocks /\
      Forall2 (fun g rs => buffer_shard_state_dicts self dsd [] g = Ok rs)
              (mjoin ((fun m : list (dtype * GbufRange) => m.*2) <$> ranges))
              blocks) as Hgen.
  { destruct (Hgen _ _ _ Hloop) as (blocks & -> & Hb). by exists blocks. }
  clear. induction ranges as [|m ranges IH]; intros acc out; csimpl.
  - intros [= <-]. exists []. by rewrite app_nil_r.
  - destruct (for_each _ m acc) as [mid|] eqn:Hm; csimpl; [|done].
    intros (blocks2 & -> & Hb2)%IH.
    enough (exists blocks1, mid = acc ++ mjoin blocks1 /\
              Forall2 (fun g rs => buffer_shard_state_dicts self dsd [] g = Ok rs)
                      m.*2 blocks1) as (blocks1 & -> & Hb1).
    { exists (blocks1 ++ blocks2).
      rewrite join_app, app_assoc. split; [done|]. by apply Forall2_app. }
    clear -Hm. revert acc mid Hm.
    induction m as [|[dt g] m IHm]; intros acc mid; csimpl.
    + intros [= <-]. exists []. by rewrite app_nil_r.
    + destruct (buffer_shard_state_dicts self dsd acc g) as [a1|] eqn:Hg;
        csimpl; [|done].
      intros (blocks & -> & Hb)%IHm.
      apply buffer_shard_state_dicts_acc in Hg as (new & -> & Hnew).
      exists (new :: blocks). csimpl. rewrite app_assoc. split; [done|].
      by constructor.
Qed.

(** Scenario A on rank 0 of 2 meets the hypotheses: the two records have
    world orders 0 and 1. *)
Lemma state_dict_world_order_witness :
  exists g records,
    build_model_gbuf_range 0 2 scenario_A torch_float = Ok g /\
    buffer_shard_state_dicts scenario_A_rank0
      (mkOptimizerStateDict [mkParamGroup [0; 1]%nat [("lr", 1)]] []) [] g
    = Ok records /\
    ShardState.world_order <$> records = [0; 1] /\
    StronglySorted Z.lt (ShardState.world_order <$> records).
Proof.
  eexists _, _. split; [vm_compute; reflexivity|].
  split; [vm_compute; reflexivity|].
  split; [reflexivity|].
  eapply (state_dict_world_order scenario_A_rank0
            (mkOptimizerStateDict [mkParamGroup [0; 1]%nat [("lr", 1)]] [])
            0 2 scenario_A torch_float
            [(half_param 0 3, (0, 0, 3)); (half_param 1 5, (1, 3, 8))]).
  - reflexivity.
  - apply (bool_decide_unpack _). vm_compute. exact I.
  - vm_compute. reflexivity.
  - vm_compute. reflexivity.
  - repeat constructor.
Defined.

(** C4 fails as stated: with an index map whose insertion order is not
    the world order, [state_dict] emits the records in insertion order;
    their world orders are 1, 0. *)
Lemma state_dict_unordered_index_map :
  exists self ckpt,
    unordered_optimizer = Ok self /\
    state_dict (H := torch_optimizer) self = Ok ckpt /\
    ShardState.world_order <$> ckpt_state ckpt = [1; 0] /\
    ~ StronglySorted Z.lt (ShardState.world_order <$> ckpt_state ckpt).
Proof.
  eexists _, _. split; [vm_compute; reflexivity|].
  split; [vm_compute; reflexivity|]. split; [reflexivity|].
  simpl. intros [Hall _]%StronglySorted_cons.
  apply Forall_cons in Hall as [Hlt _]. lia.
Qed.

(** ** Checkpoint load *)

Section sort_facts.
Context {V : Type}.
Implicit Types (x : nat * V) (l : list (nat * V)).

Lemma insert_by_key_perm x l : insert_by_key x l ≡ₚ x :: l.
Proof.
  induction l as [|y l IH]; simpl; [done|].
  destruct (decide _); [done|]. rewrite IH. apply Permutation_swap.
Qed.

Lemma sort_by_key_perm l : sort_by_key l ≡ₚ l.
Proof.
  induction l as [|x l IH]; simpl; [done|].
  by rewrite insert_by_key_perm, IH.
Qed.

Lemma insert_by_key_sorted x l :
  StronglySorted key_le l -> StronglySorted key_le (insert_by_key x l).
Proof.
  induction l as [|y l IH]; simpl; intros Hs.
  - by repeat constructor.
  - apply StronglySorted_cons in Hs as [Hall Hs].
    destruct (decide _) as [Hle|Hgt].
    + apply StronglySorted_cons. split.
      * constructor; [done|]. eapply Forall_impl; [exact Hall|].
        unfold key_le. intros z Hz. lia.
      * by apply StronglySorted_cons.
    + apply StronglySorted_cons. split; [|auto].
      rewrite insert_by_key_perm. constructor; [unfold key_le; lia|done].
Qed.

Lemma sort_by_key_sorted l : StronglySorted key_le (sort_by_key l).
Proof.
  induction l as [|x l IH]; simpl; [constructor|].
  by apply insert_by_key_sorted.
Qed.

(** The sort is stable: records with one key keep their order. *)
Lemma sort_by_key_stable (k : nat) l :
  filter (fun x => x.1 = k) (sort_by_key l) = filter (fun x => x.1 = k) l.
Proof.
  induction l as [|x l IH]; simpl; [done|].
  rewrite filter_cons, <- IH. clear IH.
  induction (sort_by_key l) as [|y s IHs]; simpl; [by rewrite filter_cons|].
  destruct (decide (x.1 <= y.1)%nat) as [Hle|Hgt]; [by rewrite filter_cons|].
  rewrite !filter_cons, IHs.
  repeat case_decide; try done. lia.
Qed.

Lemma imap_pair_keys (j : nat) l :
  l.*1 = seq j (length l) ->
  imap (fun i => pair (j + i)%nat) l.*2 = l.
Proof.
  revert j. induction l as [|[k v] l IH]; intros j; csimpl; [done|].
  intros [= -> Hl]. rewrite Nat.add_0_r. f_equal.
  rewrite <- (IH (S j)) at 2 by done.
  apply imap_ext. intros i v' _. simpl. f_equal. lia.
Qed.

(** When the keys are the integers [0 .. n-1] in some order, numbering
    the sorted values from 0 gives every value its own key back. *)
Lemma sorted_keys_renumbered l :
  l.*1 ≡ₚ seq 0 (length l) ->
  imap pair (sort_by_key l).*2 = sort_by_key l /\
  (sort_by_key l).*1 = seq 0 (length l).
Proof.
  intros Hperm.
  assert ((sort_by_key l).*1 = seq 0 (length l)) as Hkeys.
  { apply (StronglySorted_unique le).
    - pose proof (sort_by_key_sorted l) as Hs.
      induction Hs as [|y s Hs IH Hall]; csimpl; constructor; [done|].
      by apply Forall_fmap.
    - clear. generalize 0%nat. induction (length l) as [|n IH]; intros j; simpl.
      + constructor.
      + constructor; [done|]. apply Forall_forall. intros i Hi.
        apply elem_of_seq in Hi. lia.
    - by rewrite sort_by_key_perm. }
  split; [|done].
  apply (imap_pair_keys 0). by rewrite Hkeys, sort_by_key_perm.
Qed.
End sort_facts.

Lemma dict_get_NoDup {K V : Type} `{EqDecision K} (d : list (K * V)) k v :
  NoDup d.*1 -> (k, v) ∈ d -> dict_get k d = Some v.
Proof.
  induction d as [|[k' v'] d IH]; csimpl; [by intros _ ?%elem_of_nil|].
  intros [Hk' Hnd]%NoDup_cons [[= -> ->]|Hin]%elem_of_cons.
  - by rewrite decide_True.
  - rewrite decide_False; [by apply IH|].
    intros ->. apply Hk'. apply list_elem_of_fmap. by exists (k', v).
Qed.

Lemma dict_get_set_eq {K V : Type} `{EqDecision K} (d : list (K * V)) k v :
  dict_get k (dict_set k v d) = Some v.
Proof.
  induction d as [|[k' v'] d IH]; simpl.
  - by rewrite decide_True.
  - destruct (decide (k = k')) as [->|Hne]; simpl.
    + by rewrite decide_True.
    + by rewrite decide_False.
Qed.

Lemma dict_get_set_ne {K V : Type} `{EqDecision K} (d : list (K * V)) k k' v :
  k <> k' -> dict_get k' (dict_set k v d) = dict_get k' d.
Proof.
  intros Hne. induction d as [|[k1 v1] d IH]; simpl.
  - by rewrite decide_False.
  - destruct (decide (k = k1)) as [->|Hne1]; simpl.
    + by rewrite !decide_False.
    + destruct (decide (k' = k1)); auto.
Qed.

Lemma broadcast_to_length n src v : broadcast_to n src = Some v -> length v = n.
Proof.
  unfold broadcast_to. destruct (decide _); [congruence|].
  destruct src as [|x [|]]; try done. intros [= <-]. apply length_replicate.
Qed.

Lemma tensor_values_set_eq self t v :
  tensor_values (with_tensor_data self (dict_set t v (tensor_data self))) t = v.
Proof. unfold tensor_values; simpl. by rewrite dict_get_set_eq. Qed.

Lemma tensor_values_set_ne self t t' v :
  t <> t' ->
  tensor_values (with_tensor_data self (dict_set t v (tensor_data self))) t'
  = tensor_values self t'.
Proof. intros Hne. unfold tensor_values; simpl. by rewrite dict_get_set_ne. Qed.

(** One iteration of the first loop of [load_state_dict]. *)
Lemma collect_shard_step acc r self :
  collect_shard acc r self
  = match target_of self r with
    | None => (Raise IndexError, self)
    | Some t =>
        match broadcast_to (length (tensor_values self t)) (ShardState.param r).2 with
        | Some v =>
            (Ok (acc ++ [(ShardState.state_order r, ShardState.optim r)]),
             with_tensor_data self (dict_set t v (tensor_data self)))
        | None => (Raise RuntimeError, self)
        end
    end.
Proof.
  unfold collect_shard, target_of, mbind, method_bind, get_self, lift, copy_.
  rewrite list_getitem_nat.
  destruct (shard_fp32_from_float16_groups _ !! _) as [group|]; csimpl; [|done].
  rewrite list_getitem_nat.
  destruct (group !! _) as [t|]; csimpl; [|done].
  by destruct (broadcast_to _ _).
Qed.

(** The first loop can fail in two ways only: the addressed tensor does
    not exist, or the saved contents do not fit it. *)
Lemma collect_loop_raises records : forall acc self e self1,
  for_each_method collect_shard records acc self = (Raise e, self1) ->
  e = IndexError \/ e = RuntimeError.
Proof.
  induction records as [|r records IH]; intros acc self e self1; simpl; [done|].
  unfold mbind, method_bind. rewrite collect_shard_step.
  destruct (target_of self r) as [t|]; [|intros [= <- _]; auto].
  destruct (broadcast_to _ _) as [v|]; [|intros [= <- _]; auto].
  apply IH.
Qed.

(** The first loop when it succeeds: it collects the pair of every
    record, changes nothing but the contents of tensors, keeps their
    sizes, leaves the tensors no record addresses alone, and a tensor
    holds what the last record that addresses it has written. *)
Lemma collect_loop_ok records : forall acc self acc' self1,
  for_each_method collect_shard records acc self = (Ok acc', self1) ->
  acc' = acc ++ collected records /\
  self1 = with_tensor_data self (tensor_data self1) /\
  (forall t, length (tensor_values self1 t) = length (tensor_values self t)) /\
  (forall t, (forall r, r ∈ records -> target_of self r <> Some t) ->
             tensor_values self1 t = tensor_values self t) /\
  (forall (i : nat) r, records !! i = Some r ->
     exists t, target_of self r = Some t /\
       ((forall (j : nat) r', (i < j)%nat -> records !! j = Some r' ->
                              target_of self r' <> Some t) ->
        broadcast_to (length (tensor_values self t)) (ShardState.param r).2
        = Some (tensor_values self1 t))).
Proof.
  induction records as [|r records IH]; intros acc self acc' self1; simpl.
  - intros [= <- <-]. rewrite app_nil_r.
    repeat split; try done. by destruct self.
  - unfold mbind, method_bind. rewrite collect_shard_step.
    destruct (target_of self r) as [t|] eqn:Ht; [|done].
    destruct (broadcast_to _ _) as [v|] eqn:Hv; [|done].
    set (self0 := with_tensor_data self (dict_set t v (tensor_data self))).
    intros (-> & Hself & Hlen & Hkeep & Hlast)%IH.
    assert (forall r', target_of self0 r' = target_of self r') as Htarget by done.
    assert (forall t', length (tensor_values self0 t') = length (tensor_values self t'))
      as Hlen0.
    { intros t'. destruct (decide (t = t')) as [<-|Hne].
      - unfold self0. rewrite tensor_values_set_eq.
        by apply broadcast_to_length in Hv.
      - unfold self0. by rewrite tensor_values_set_ne. }
    split; [by rewrite <- app_assoc|]. split; [by rewrite Hself|].
    split; [intros t'; by rewrite Hlen, Hlen0|]. split.
    + intros t' Hnone. rewrite Hkeep.
      * unfold self0. rewrite tensor_values_set_ne; [done|].
        intros ->. by apply (Hnone r); [left|].
      * intros r' Hr'. rewrite Htarget. apply Hnone. by right.
    + intros [|i] r0 Hr0; simpl in Hr0.
      * injection Hr0 as <-. exists t. split; [done|]. intros Hlater.
        rewrite Hv. f_equal. rewrite Hkeep.
        -- unfold self0. by rewrite tensor_values_set_eq.
        -- intros r' [j Hj]%list_elem_of_lookup. rewrite Htarget.
           apply (Hlater (S j)); [lia|done].
      * destruct (Hlast i r0 Hr0) as (t0 & Ht0 & Hw). exists t0.
        rewrite Htarget in Ht0. split; [done|]. intros Hlater.
        rewrite <- Hlen0. apply Hw. intros j r' Hij Hj. rewrite Htarget.
        apply (Hlater (S j)); [lia|done].
Qed.

(** [load_state_dict] in three steps: the loop over the records, the
    call of the base optimizer, the loss scaler. *)
Lemma load_state_dict_steps `{BaseOptimizer} ckpt self :
  load_state_dict ckpt self
  = match for_each_method collect_shard (ckpt_state ckpt) [] self with
    | (Raise e, self1) => (Raise e, self1)
    | (Ok acc, self1) =>
        match optimizer_load_state_dict (optimizer self1)
                (handed_state_dict ckpt acc) with
        | Raise e => (Raise e, self1)
        | Ok optimizer' => load_grad_scaler ckpt (with_optimizer self1 optimizer')
        end
    end.
Proof.
  unfold load_state_dict, mbind, method_bind.
  destruct (for_each_method _ _ _ _) as [[acc|e] self1]; [|done].
  unfold get_self, lift.
  by destruct (optimizer_load_state_dict _ _).
Qed.

(** C5, as the code has it.  When the loop over the records succeeds,
    [load_state_dict] has copied the saved main parameter of each record
    into [shard_fp32_from_float16_groups[group_index][group_order]] (the
    last record that addresses a tensor decides its contents), and it
    hands the base optimizer the saved groups together with the [optim]
    fields sorted by [state_order], stably, and numbered 0, 1, 2, ... in
    that order.  The numbers are the saved state orders exactly when
    these are the integers [0 .. n-1] in some order. *)
Theorem load_state_dict_rekeys `{BaseOptimizer} ckpt self acc self1 :
  for_each_method collect_shard (ckpt_state ckpt) [] self = (Ok acc, self1) ->
  let handed := handed_state_dict ckpt acc in
  (forall (i : nat) r, ckpt_state ckpt !! i = Some r ->
     exists t, target_of self r = Some t /\
       ((forall (j : nat) r', (i < j)%nat -> ckpt_state ckpt !! j = Some r' ->
                              target_of self r' <> Some t) ->
        broadcast_to (length (tensor_values self t)) (ShardState.param r).2
        = Some (tensor_values self1 t))) /\
  load_state_dict ckpt self
  = match optimizer_load_state_dict (optimizer self1) handed with
    | Raise e => (Raise e, self1)
    | Ok optimizer' => load_grad_scaler ckpt (with_optimizer self1 optimizer')
    end /\
  sd_param_groups handed = ckpt_param_groups ckpt /\
  (exists sorted,
     sorted ≡ₚ collected (ckpt_state ckpt) /\
     StronglySorted key_le sorted /\
     (forall k, filter (fun x => x.1 = k) sorted
                = filter (fun x => x.1 = k) (collected (ckpt_state ckpt))) /\
     sd_state handed = imap pair sorted.*2) /\
  (ShardState.state_order <$> ckpt_state ckpt
     ≡ₚ seq 0 (length (ckpt_state ckpt)) ->
   forall r, r ∈ ckpt_state ckpt ->
     dict_get (ShardState.state_order r) (sd_state handed)
     = Some (ShardState.optim r)).
Proof.
  intros Hloop handed.
  destruct (collect_loop_ok _ _ _ _ _ Hloop) as (Hacc & _ & _ & _ & Hcopy).
  rewrite app_nil_l in Hacc. subst acc.
  split; [exact Hcopy|]. split.
  { rewrite load_state_dict_steps, Hloop. done. }
  split; [done|]. split.
  { exists (sort_by_key (collected (ckpt_state ckpt))).
    split; [apply sort_by_key_perm|]. split; [apply sort_by_key_sorted|].
    split; [intros k; apply sort_by_key_stable|done]. }
  intros Hperm r Hr. unfold handed, handed_state_dict. simpl.
  assert ((collected (ckpt_state ckpt)).*1
          ≡ₚ seq 0 (length (collected (ckpt_state ckpt)))) as Hkeys.
  { unfold collected. rewrite <- list_fmap_compose, length_fmap. exact Hperm. }
  destruct (sorted_keys_renumbered _ Hkeys) as [-> Hsorted].
  apply dict_get_NoDup.
  - rewrite Hsorted. apply NoDup_seq.
  - rewrite sort_by_key_perm. unfold collected.
    apply list_elem_of_fmap. by exists r.
Qed.

(** The loop succeeds when the checkpoint of scenario A, saved over the
    base optimizer that numbers its parameters 0 and 2, is loaded back;
    the base optimizer then receives the saved group descriptor. *)
Lemma load_state_dict_rekeys_witness :
  exists acc self1,
    for_each_method collect_shard (ckpt_state even_keys_checkpoint) []
      even_keys_saved = (Ok acc, self1) /\
    sd_param_groups (handed_state_dict even_keys_checkpoint acc)
    = [mkParamGroup [0; 2]%nat [("lr", 1)]].
Proof.
  eexists _, _. split; [vm_compute; reflexivity|].
  eapply (load_state_dict_rekeys (H := even_keys_optimizer) even_keys_checkpoint
            even_keys_saved).
  vm_compute. reflexivity.
Defined.

(** C5 fails as stated.  Over a base optimizer that numbers its
    parameters 0 and 2, [state_dict] saves the state orders 0 and 2, and
    [load_state_dict] hands the base optimizer a state keyed 0 and 1: the
    inner state saved under 2 arrives under 1 and nothing arrives under
    2, so after the load the second main shard has lost its state. *)
Lemma load_state_dict_renumbers :
  exists ckpt acc self1 r self2,
    state_dict (H := even_keys_optimizer) even_keys_saved = Ok ckpt /\
    ShardState.state_order <$> ckpt_state ckpt = [0; 2]%nat /\
    for_each_method collect_shard (ckpt_state ckpt) [] even_keys_saved
    = (Ok acc, self1) /\
    ckpt_state ckpt !! 1%nat = Some r /\
    ShardState.state_order r = 2%nat /\
    ShardState.optim r = [("exp_avg", [2])] /\
    sd_state (handed_state_dict ckpt acc)
    = [(0%nat, [("exp_avg", [1; 1; 1])]); (1%nat, [("exp_avg", [2])])] /\
    dict_get (ShardState.state_order r) (sd_state (handed_state_dict ckpt acc))
    = None /\
    load_state_dict (H := even_keys_optimizer) ckpt even_keys_saved
    = (Ok tt, self2) /\
    dict_get (key_tensor (shard_main (half_param 1 5) (Range.init 0 1)))
             (state (optimizer even_keys_saved)) = Some [("exp_avg", [2])] /\
    dict_get (key_tensor (shard_main (half_param 1 5) (Range.init 0 1)))
             (state (optimizer self2)) = None.
Proof.
  eexists _, _, _, _, _. split; [vm_compute; reflexivity|].
  split; [reflexivity|]. split; [vm_compute; reflexivity|].
  split; [reflexivity|]. split; [reflexivity|]. split; [reflexivity|].
  split; [reflexivity|]. split; [reflexivity|].
  split; [vm_compute; reflexivity|]. split; reflexivity.
Qed.

Lemma collect_loop_range_maps f records : forall acc self,
  for_each_method collect_shard
    (ckpt_state (map_range_maps f (mkCheckpoint [] records None))) acc self
  = for_each_method collect_shard records acc self.
Proof.
  induction records as [|r records IH]; intros acc self; simpl; [done|].
  unfold mbind, method_bind. rewrite !collect_shard_step.
  unfold target_of; simpl.
  destruct (_ ≫= _) as [t|]; [|done].
  destruct (broadcast_to _ _) as [v|]; [|done].
  apply IH.
Qed.

(** C6, as the code has it.  [load_state_dict] does not look at the
    [param_range_map] of the records: whatever these fields hold, the
    outcome and the resulting optimizer are the same. *)
Theorem load_state_dict_ignores_range_maps `{BaseOptimizer}
    (f : ParamRangeMap -> ParamRangeMap) ckpt self :
  load_state_dict (map_range_maps f ckpt) self = load_state_dict ckpt self.
Proof.
  rewrite !load_state_dict_steps.
  change (ckpt_state (map_range_maps f ckpt))
    with (ckpt_state (map_range_maps f (mkCheckpoint [] (ckpt_state ckpt) None))).
  by rewrite collect_loop_range_maps.
Qed.

(** When [load_state_dict] fails in its loop, the error is the
    [IndexError] of a missing tensor or the [RuntimeError] of a copy
    between tensors of different sizes, and the tensors written before
    stay written. *)
Lemma load_state_dict_loop_failure `{BaseOptimizer} ckpt self e self1 :
  for_each_method collect_shard (ckpt_state ckpt) [] self = (Raise e, self1) ->
  load_state_dict ckpt self = (Raise e, self1) /\
  (e = IndexError \/ e = RuntimeError).
Proof.
  intros Hloop. rewrite load_state_dict_steps, Hloop.
  split; [done|]. by eapply collect_loop_raises.
Qed.

(** C6 fails as stated, scenario D: a checkpoint saved on rank 0 of 4 is
    loaded on rank 0 of 2.  The record of the second parameter disagrees
    with the current partition; the load fails with the [RuntimeError] of
    the copy, after the main shard of the first parameter has been
    overwritten with the saved values. *)
Lemma load_state_dict_scenario_D :
  exists self' r m,
    load_state_dict (H := torch_optimizer) scenario_D_checkpoint scenario_D_current
    = (Raise RuntimeError, self') /\
    ckpt_state scenario_D_checkpoint !! 1%nat = Some r /\
    (gbuf_range_map ← model_gbuf_ranges scenario_D_current !! 0%nat;
     g ← dict_get torch_float gbuf_range_map;
     dict_get (half_param 1 14) (param_map g))
    = Some m /\
    gbuf_world (ShardState.param_range_map r) = Range.init 2 4 /\
    gbuf_world m = Range.init 2 8 /\
    tensor_values scenario_D_current
      (shard_main (half_param 0 2) (Range.init 0 2)) = [0; 1] /\
    tensor_values self' (shard_main (half_param 0 2) (Range.init 0 2)) = [7; 9].
Proof.
  eexists _, _, _. split; [vm_compute; reflexivity|].
  split; [vm_compute; reflexivity|]. split; [vm_compute; reflexivity|].
  repeat split.
Qed.

(** * Further properties of the code *)

(** ** The three-way map: which parameters are kept, and where *)

(** Looking a parameter up in the map built for a shard is looking it up
    in the index map and computing its entry. *)
Lemma param_range_map_lookup model dt items L prm p :
  dict_get dt (_grad_buffer_param_index_map model) = Some items ->
  NoDup items.*1 ->
  build_model_gbuf_param_range_map model dt L = Ok prm ->
  dict_get p prm = dict_get p items ≫= param_range_entry L.
Proof.
  intros Hitems Hnd Hbuild.
  rewrite (build_param_range_map_filter _ _ _ items) in Hbuild by done.
  injection Hbuild as <-. by apply dict_get_omap.
Qed.

Lemma param_range_entry_Some L o ws we :
  Range.size L = Range.end_ L - Range.start L ->
  Z.max ws (Range.start L) < Z.min we (Range.end_ L) ->
  param_range_entry L (o, ws, we)
  = Some {| gbuf_world_order := o;
            gbuf_world := Range.init (Z.max ws (Range.start L))
                                     (Z.min we (Range.end_ L));
            gbuf_local := Range.init (Z.max ws (Range.start L) - Range.start L)
                                     (Z.min we (Range.end_ L) - Range.start L);
            param := Range.init (Z.max ws (Range.start L) - ws)
                                (Z.min we (Range.end_ L) - ws) |}.
Proof.
  intros HL Hlt. unfold param_range_entry.
  destruct (_ <? _) eqn:E; [|apply Z.ltb_ge in E; lia].
  unfold Range.normalize, Range.init; simpl. do 2 f_equal; f_equal; lia.
Qed.

Lemma param_range_entry_None L o ws we :
  Range.size L = Range.end_ L - Range.start L ->
  Z.min we (Range.end_ L) <= Z.max ws (Range.start L) ->
  param_range_entry L (o, ws, we) = None.
Proof.
  intros HL Hle. unfold param_range_entry.
  destruct (_ <? _) eqn:E; [apply Z.ltb_lt in E; lia|done].
Qed.

(** X1.  The entry kept for a parameter is the intersection of the
    parameter's world range [[ws, we)] with the shard [L], written in
    three coordinate systems: as it is ([gbuf_world]), shifted by the
    start of the shard ([gbuf_local], which lies inside
    [[0, L.size)]), and shifted by the start of the parameter ([param]). *)
Theorem three_way_entry_is_intersection model dt items L prm p order ws we m :
  dict_get dt (_grad_buffer_param_index_map model) = Some items ->
  NoDup items.*1 ->
  Range.size L = Range.end_ L - Range.start L ->
  build_model_gbuf_param_range_map model dt L = Ok prm ->
  dict_get p items = Some (order, ws, we) ->
  dict_get p prm = Some m ->
  let a := Z.max ws (Range.start L) in
  let b := Z.min we (Range.end_ L) in
  a < b /\
  gbuf_world m = Range.init a b /\
  gbuf_local m = Range.init (a - Range.start L) (b - Range.start L) /\
  param m = Range.init (a - ws) (b - ws) /\
  Range.subset (gbuf_local m) (Range.normalize L 0).
Proof.
  intros Hitems Hnd HL Hbuild Hp Hm a b.
  rewrite (param_range_map_lookup _ _ items L prm) in Hm by done.
  rewrite Hp in Hm. csimpl in Hm.
  destruct (decide (a < b)) as [Hlt|Hge].
  - rewrite param_range_entry_Some in Hm by done. injection Hm as <-. simpl.
    fold a b. repeat split; try done; unfold Range.subset; simpl; lia.
  - rewrite param_range_entry_None in Hm by (fold a b; lia). done.
Qed.

(** Scenario A on rank 1 of 2: the second parameter, at [[3, 8)], meets
    the shard [[4, 8)] in [[4, 8)], which is [[1, 5)] of the parameter. *)
Lemma three_way_entry_is_intersection_witness :
  exists m,
    (g ← build_model_gbuf_range 1 2 scenario_A torch_float;
     Ok (dict_get (half_param 1 5) (param_map g))) = Ok (Some m) /\
    gbuf_world m = Range.init 4 8 /\ param m = Range.init 1 5.
Proof.
  exists (mkParamRangeMap 1 (Range.init 4 8) (Range.init 0 4) (Range.init 1 5)).
  split; [reflexivity|].
  destruct (three_way_entry_is_intersection scenario_A torch_float
              [(half_param 0 3, (0, 0, 3)); (half_param 1 5, (1, 3, 8))]
              (Range.init 4 8)
              [(half_param 1 5,
                mkParamRangeMap 1 (Range.init 4 8) (Range.init 0 4) (Range.init 1 5))]
              (half_param 1 5) 1 3 8
              (mkParamRangeMap 1 (Range.init 4 8) (Range.init 0 4) (Range.init 1 5)))
    as (_ & Hw & _ & Hp & _).
  - reflexivity.
  - apply (bool_decide_unpack _). vm_compute. exact I.
  - reflexivity.
  - reflexivity.
  - reflexivity.
  - reflexivity.
  - split; [exact Hw|exact Hp].
Defined.

(** X2.  A parameter is kept for a shard exactly when its world range
    meets the shard; a parameter outside the index map, or whose range
    misses the shard, has no entry. *)
Theorem param_kept_iff_overlap model dt items L prm p :
  dict_get dt (_grad_buffer_param_index_map model) = Some items ->
  NoDup items.*1 ->
  Range.size L = Range.end_ L - Range.start L ->
  build_model_gbuf_param_range_map model dt L = Ok prm ->
  is_Some (dict_get p prm) <->
  exists order ws we,
    dict_get p items = Some (order, ws, we) /\
    Z.max ws (Range.start L) < Z.min we (Range.end_ L).
Proof.
  intros Hitems Hnd HL Hbuild.
  rewrite (param_range_map_lookup _ _ items L prm) by done.
  destruct (dict_get p items) as [[[o ws] we]|] eqn:Hp; csimpl.
  - destruct (decide (Z.max ws (Range.start L) < Z.min we (Range.end_ L)))
      as [Hlt|Hge].
    + rewrite param_range_entry_Some by done. split; [|by eexists].
      intros _. by exists o, ws, we.
    + rewrite param_range_entry_None by lia. split.
      * by intros [? ?].
      * intros (o' & ws' & we' & [= <- <- <-] & Hlt). lia.
  - split; [by intros [? ?]|]. by intros (? & ? & ? & ? & _).
Qed.

(** Scenario A on rank 1 of 2: the first parameter, at [[0, 3)], misses
    the shard [[4, 8)] and has no entry. *)
Lemma param_kept_iff_overlap_witness :
  (g ← build_model_gbuf_range 1 2 scenario_A torch_float;
   Ok (dict_get (half_param 0 3) (param_map g))) = Ok None /\
  ~ is_Some (dict_get (half_param 0 3)
               [(half_param 1 5,
                 mkParamRangeMap 1 (Range.init 4 8) (Range.init 0 4) (Range.init 1 5))]).
Proof.
  split; [reflexivity|].
  intros Hsome.
  apply (param_kept_iff_overlap scenario_A torch_float
           [(half_param 0 3, (0, 0, 3)); (half_param 1 5, (1, 3, 8))]
           (Range.init 4 8)) in Hsome.
  - destruct Hsome as (o & ws & we & Hp & Hlt).
    vm_compute in Hp. injection Hp as <- <- <-. simpl in Hlt. lia.
  - reflexivity.
  - apply (bool_decide_unpack _). vm_compute. exact I.
  - reflexivity.
  - reflexivity.
Defined.

(** X3.  A parameter that lies entirely inside the shard is kept whole:
    its [param] range is [[0, numel)], its [gbuf_world] range is its own
    world range, and its [gbuf_local] range is that range counted from
    the start of the shard. *)
Theorem param_inside_shard_kept_whole model dt items L prm p order ws we :
  dict_get dt (_grad_buffer_param_index_map model) = Some items ->
  NoDup items.*1 ->
  Range.size L = Range.end_ L - Range.start L ->
  build_model_gbuf_param_range_map model dt L = Ok prm ->
  dict_get p items = Some (order, ws, we) ->
  Range.start L <= ws -> ws < we -> we <= Range.end_ L ->
  dict_get p prm
  = Some {| gbuf_world_order := order;
            gbuf_world := Range.init ws we;
            gbuf_local := Range.init (ws - Range.start L) (we - Range.start L);
            param := Range.init 0 (we - ws) |}.
Proof.
  intros Hitems Hnd HL Hbuild Hp H1 H2 H3.
  rewrite (param_range_map_lookup _ _ items L prm) by done.
  rewrite Hp. csimpl. rewrite param_range_entry_Some by (done || lia).
  do 2 f_equal; f_equal; lia.
Qed.

(** Scenario A on rank 0 of 2: the first parameter, at [[0, 3)], lies
    inside the shard [[0, 4)]. *)
Lemma param_inside_shard_kept_whole_witness :
  dict_get (half_param 0 3)
    [(half_param 0 3, mkParamRangeMap 0 (Range.init 0 3) (Range.init 0 3) (Range.init 0 3));
     (half_param 1 5, mkParamRangeMap 1 (Range.init 3 4) (Range.init 3 4) (Range.init 0 1))]
  = Some (mkParamRangeMap 0 (Range.init 0 3) (Range.init 0 3) (Range.init 0 3)).
Proof.
  apply (param_inside_shard_kept_whole scenario_A torch_float
           [(half_param 0 3, (0, 0, 3)); (half_param 1 5, (1, 3, 8))]
           (Range.init 0 4) _ (half_param 0 3) 0 0 3).
  - reflexivity.
  - apply (bool_decide_unpack _). vm_compute. exact I.
  - reflexivity.
  - reflexivity.
  - reflexivity.
  - simpl. lia.
  - lia.
  - simpl. lia.
Defined.

(** The keys kept for a shard are keys of the index map, in its order. *)
Lemma retained_keys_sublist L (items : list (Param * world_indexes)) :
  sublist (omap (fun kv => pair kv.1 <$> param_range_entry L kv.2) items).*1
          items.*1.
Proof.
  induction items as [|[p idx] items IH]; csimpl; [done|].
  destruct (param_range_entry L idx); csimpl; by constructor.
Qed.

(** X4.  The map built for a shard lists the kept parameters in the
    insertion order of the index map, each one once. *)
Theorem param_map_keeps_order model dt items L prm :
  dict_get dt (_grad_buffer_param_index_map model) = Some items ->
  NoDup items.*1 ->
  build_model_gbuf_param_range_map model dt L = Ok prm ->
  sublist prm.*1 items.*1 /\ NoDup prm.*1.
Proof.
  intros Hitems Hnd Hbuild.
  rewrite (build_param_range_map_filter _ _ _ items) in Hbuild by done.
  injection Hbuild as <-.
  pose proof (retained_keys_sublist L items) as Hsub.
  split; [done|]. by eapply sublist_NoDup.
Qed.

(** The spanning model on rank 1 of 4 keeps its second parameter only. *)
Lemma param_map_keeps_order_witness :
  sublist [half_param 1 6] [half_param 0 2; half_param 1 6; half_param 2 4].
Proof.
  apply (param_map_keeps_order spanning_model torch_float
           [(half_param 0 2, (0, 0, 2)); (half_param 1 6, (1, 2, 8));
            (half_param 2 4, (2, 8, 12))]
           (Range.init 3 6)
           [(half_param 1 6,
             mkParamRangeMap 1 (Range.init 3 6) (Range.init 0 3) (Range.init 1 4))]).
  - reflexivity.
  - apply (bool_decide_unpack _). vm_compute. exact I.
  - reflexivity.
Defined.

(** ** Errors of the partitioner *)



(** Closes the cases of an outcome table: each side of each
    equivalence is a conjunction or disjunction of equations and bounds. *)
Ltac outcome_cases :=
  unfold is_Some; repeat split; intros;
  repeat match goal with
         | H : _ /\ _ |- _ => destruct H
         | H : exists _, _ |- _ => destruct H
         | H : _ \/ _ |- _ => destruct H
         end;
  simplify_eq; try lia; try done; eauto 6.


(** ** Buffer views *)

Lemma py_slice_in_range {A} (l : list A) (a b : Z) :
  0 <= a <= b -> b <= Z.of_nat (length l) ->
  py_slice l a b = take (Z.to_nat (b - a)) (drop (Z.to_nat a) l).
Proof.
  intros Hab Hb. unfold py_slice.
  assert ((a <? 0) = false) as -> by (apply Z.ltb_ge; lia).
  assert ((b <? 0) = false) as -> by (apply Z.ltb_ge; lia).
  by rewrite !Z.min_l by lia.
Qed.


Lemma for_each_app {A S} (body : S -> A -> res S) xs ys acc :
  for_each body (xs ++ ys) acc = for_each body xs acc ≫= for_each body ys.
Proof.
  revert acc. induction xs as [|x xs IH]; intros acc; csimpl; [done|].
  destruct (body acc x); csimpl; [apply IH|done].
Qed.

Lemma for_each_ext {A S} (body body' : S -> A -> res S) xs acc :
  (forall acc x, body acc x = body' acc x) ->
  for_each body xs acc = for_each body' xs acc.
Proof.
  intros Hext. revert acc. induction xs as [|x xs IH]; intros acc; csimpl; [done|].
  rewrite Hext. destruct (body' acc x); csimpl; [apply IH|done].
Qed.

(** Two nested loops over an enumerated list of lists are one loop over
    the pairs of index and element. *)
Lemma for_each_nested {A B S} (g : nat -> S -> B -> res S)
    (l : list (nat * list B)) (acc : S) (_ : A) :
  for_each (fun acc '(i, bs) => for_each (g i) bs acc) l acc
  = for_each (fun acc ib => g ib.1 acc ib.2) (ib ← l; pair ib.1 <$> ib.2) acc.
Proof.
  revert acc. induction l as [|[i bs] l IH]; intros acc; csimpl; [done|].
  rewrite for_each_app.
  assert (for_each (fun acc ib => g ib.1 acc ib.2) (pair i <$> bs) acc
          = for_each (g i) bs acc) as ->.
  { clear. revert acc. induction bs as [|b bs IHb]; intros acc; csimpl; [done|].
    destruct (g i acc b); csimpl; [apply IHb|done]. }
  destruct (for_each (g i) bs acc); csimpl; [apply IH|done].
Qed.

Lemma get_model_buffer_dp_views_flat W model_buffers :
  get_model_buffer_dp_views W model_buffers
  = for_each (fun acc x => r ← view_item W x; Ok (acc ++ [r]))
             (flat_buffers model_buffers) [].
Proof.
  unfold get_model_buffer_dp_views, flat_buffers.
  rewrite (for_each_nested (buffer_dp_views W) _ _ tt).
  apply for_each_ext. intros acc [i [dt buf]].
  unfold buffer_dp_views, view_item; simpl.
  destruct (decide (W = 0)); [done|]. by destruct (negb _).
Qed.


Lemma view_item_outcome W x :
  match view_item W x with
  | Ok item => W <> 0 /\ Z.of_nat (length x.2.2) `mod` W = 0 /\
               item.1 = (x.1, x.2.1, x.2.2)
  | Raise e => (e = ZeroDivisionError /\ W = 0) \/
               (e = AssertionError /\ W <> 0 /\
                Z.of_nat (length x.2.2) `mod` W <> 0)
  end.
Proof.
  destruct x as [i [dt buf]]. unfold view_item; simpl.
  destruct (decide (W = 0)); [auto|].
  destruct (_ =? 0) eqn:E; simpl.
  - apply Z.eqb_eq in E. auto.
  - apply Z.eqb_neq in E. auto.
Qed.



Lemma view_items_outcome W (xs : list (nat * (dtype * list scalar))) :
  forall acc,
  let bufs := (fun x : nat * (dtype * list scalar) => x.2.2) <$> xs in
  let run := for_each (fun acc x => r ← view_item W x; Ok (acc ++ [r])) xs acc in
  ((exists items, run = Ok items) <->
   Forall (fun buf => W <> 0 /\ Z.of_nat (length buf) `mod` W = 0) bufs) /\
  (run = Raise ZeroDivisionError <-> W = 0 /\ bufs <> []) /\
  (run = Raise AssertionError <->
   W <> 0 /\ Exists (fun buf => Z.of_nat (length buf) `mod` W <> 0) bufs).
Proof.
  induction xs as [|x xs IH]; intros acc; csimpl.
  - rewrite Exists_nil. outcome_cases.
  - pose proof (view_item_outcome W x) as Hout.
    rewrite Forall_cons, Exists_cons.
    destruct (view_item W x) as [item|e]; csimpl.
    + destruct Hout as (HW & Hmod & _).
      destruct (IH (acc ++ [item])) as (IH1 & IH2 & IH3).
      rewrite IH1, IH2, IH3. clear IH IH1 IH2 IH3.
      split; [tauto|]. split; [|tauto].
      split; intros [-> _]; done.
    + destruct Hout as [[-> ->]|(-> & HW & Hmod)].
      * split; [outcome_cases|]. split; outcome_cases.
      * split; [outcome_cases|]. split; [outcome_cases|].
        split; [auto|done].
Qed.

(** X7.  [get_model_buffer_dp_views] succeeds exactly when the world
    size is not 0 and divides the size of every buffer (or there is no
    buffer at all).  With a buffer to look at it raises
    [ZeroDivisionError] for a world size 0, and [AssertionError] when
    the world size is not 0 and some buffer's size is not a multiple of
    it. *)
Theorem buffer_dp_views_outcome W model_buffers :
  let bufs := (fun x : nat * (dtype * list scalar) => x.2.2)
                <$> flat_buffers model_buffers in
  ((exists items, get_model_buffer_dp_views W model_buffers = Ok items) <->
   Forall (fun buf => W <> 0 /\ Z.of_nat (length buf) `mod` W = 0) bufs) /\
  (get_model_buffer_dp_views W model_buffers = Raise ZeroDivisionError <->
   W = 0 /\ bufs <> []) /\
  (get_model_buffer_dp_views W model_buffers = Raise AssertionError <->
   W <> 0 /\ Exists (fun buf => Z.of_nat (length buf) `mod` W <> 0) bufs).
Proof.
  intros bufs. rewrite get_model_buffer_dp_views_flat.
  apply view_items_outcome.
Qed.

(** What a successful [build_model_gbuf_range] has computed. *)
Lemma build_model_gbuf_range_inv r W model dt g :
  build_model_gbuf_range r W model dt = Ok g ->
  exists buf,
    dict_get dt (_grad_buffers model) = Some buf /\
    W <> 0 /\
    max_range_size g = ceil_div (numel buf) W /\
    world_all g = gbuf_world_all_ranges (numel buf) (max_range_size g) W /\
    list_getitem (world_all g) r = Ok (world g) /\
    local g = Range.normalize (world g) 0 /\
    build_model_gbuf_param_range_map model dt (world g) = Ok (param_map g).
Proof.
  unfold build_model_gbuf_range, dict_getitem.
  destruct (dict_get dt (_grad_buffers model)) as [buf|]; csimpl; [|done].
  destruct (decide (W = 0)); [done|].
  destruct (list_getitem _ r) as [L|] eqn:HL; csimpl; [|done].
  destruct (build_model_gbuf_param_range_map model dt L) as [prm|] eqn:E;
    csimpl; [|done].
  intros [= <-]. exists buf. simpl. by repeat split.
Qed.




(** ** The optimizer group ranges *)

Lemma for_each_bind {A B S} (body : S -> B -> res S) (f : A -> list B)
    (l : list A) (acc : S) :
  for_each (fun acc x => for_each body (f x) acc) l acc
  = for_each body (l ≫= f) acc.
Proof.
  revert acc. induction l as [|x l IH]; intros acc; csimpl; [done|].
  rewrite for_each_app.
  destruct (for_each body (f x) acc); csimpl; [apply IH|done].
Qed.

(** The loop of [build_optimizer_group_ranges] over the parameters of
    one base-optimizer group. *)
Lemma world_param_group_inner (gi : nat) (ps : list Param) :
  forall acc : list (Param * nat),
  match for_each
          (fun acc param =>
             if requires_grad param then Ok (dict_set param gi acc)
             else Raise AssertionError) ps acc with
  | Ok w =>
      Forall (fun p => requires_grad p = true) ps /\
      (forall p, dict_get p w = None <-> dict_get p acc = None /\ p ∉ ps) /\
      (forall p g, dict_get p w = Some g ->
                   (g = gi /\ p ∈ ps) \/ dict_get p acc = Some g)
  | Raise e =>
      e = AssertionError /\ Exists (fun p => requires_grad p = false) ps
  end.
Proof.
  induction ps as [|q ps IH]; intros acc; csimpl.
  - split; [done|]. split; [|auto].
    intros p. split; [intros ->; split; [done|apply not_elem_of_nil]|tauto].
  - destruct (requires_grad q) eqn:Hq; csimpl.
    + specialize (IH (dict_set q gi acc)).
      destruct (for_each _ ps _) as [w|e].
      * destruct IH as (Hall & Hnone & Hsome). split; [by constructor|]. split.
        -- intros p. rewrite Hnone, not_elem_of_cons.
           destruct (decide (q = p)) as [->|Hne].
           ++ rewrite dict_get_set_eq. split; [by intros [? _]|tauto].
           ++ rewrite dict_get_set_ne by done. split; [|tauto].
              intros [? ?]. repeat split; auto.
        -- intros p g [[-> Hin]|Hacc]%Hsome; [left; split; [done|by right]|].
           destruct (decide (q = p)) as [->|Hne].
           ++ rewrite dict_get_set_eq in Hacc. injection Hacc as <-.
              left. split; [done|left].
           ++ rewrite dict_get_set_ne in Hacc by done. by right.
      * destruct IH as [-> Hex]. split; [done|by right].
    + split; [done|]. by left.
Qed.

(** The dictionary [world_param_group_map]: it is built when every
    parameter of every group requires a gradient, and then it sends a
    parameter to a group that holds it and knows no other parameter. *)
Lemma world_param_group_map_spec (l : list (nat * ParamGroup Param)) :
  forall acc : list (Param * nat),
  match for_each
          (fun acc '(group_index, group) =>
             for_each
               (fun acc param =>
                  if requires_grad param then Ok (dict_set param group_index acc)
                  else Raise AssertionError)
               (params group) acc) l acc with
  | Ok w =>
      Forall (fun ig => Forall (fun p => requires_grad p = true) (params ig.2)) l /\
      (forall p, dict_get p w = None <->
                 dict_get p acc = None /\ forall ig, ig ∈ l -> p ∉ params ig.2) /\
      (forall p gi, dict_get p w = Some gi ->
                    (exists g, (gi, g) ∈ l /\ p ∈ params g) \/ dict_get p acc = Some gi)
  | Raise e =>
      e = AssertionError /\
      Exists (fun ig => Exists (fun p => requires_grad p = false) (params ig.2)) l
  end.
Proof.
  induction l as [|[gi g] l IH]; intros acc; csimpl.
  - split; [done|]. split; [|auto].
    intros p. split; [intros ->; split; [done|by intros ? ?%elem_of_nil]|tauto].
  - pose proof (world_param_group_inner gi (params g) acc) as Hin.
    destruct (for_each _ (params g) acc) as [w1|e]; csimpl.
    + destruct Hin as (Hall1 & Hnone1 & Hsome1).
      specialize (IH w1). destruct (for_each _ l w1) as [w|e].
      * destruct IH as (Hall & Hnone & Hsome). split; [by constructor|]. split.
        -- intros p. rewrite Hnone, Hnone1. split.
           ++ intros [[? ?] Hl]. split; [done|].
              intros ig [->|?]%elem_of_cons; [done|by apply Hl].
           ++ intros [? Hl]. split; [split; [done|]|].
              ** apply (Hl (gi, g)). left.
              ** intros ig ?. apply Hl. by right.
        -- intros p gi' [(g' & Hg' & Hp)|Hw1]%Hsome.
           ++ left. exists g'. split; [by right|done].
           ++ apply Hsome1 in Hw1 as [[-> Hp]|Hacc]; [|by right].
              left. exists g. split; [left|done].
      * destruct IH as [-> Hex]. split; [done|by right].
    + destruct Hin as [-> Hex]. split; [done|by left].
Qed.

Lemma group_ranges_step_ok wmap lmap lists p gi l :
  dict_get p wmap = Some gi -> lists !! gi = Some l ->
  group_ranges_step wmap (lmap, lists) p
  = Ok (dict_set p (gi, length l) lmap, <[gi := l ++ [p]]> lists).
Proof.
  intros Hw Hl. unfold group_ranges_step, dict_getitem. rewrite Hw. csimpl.
  rewrite list_getitem_nat, Hl. csimpl. rewrite length_app. simpl.
  by replace (length l + 1 - 1)%nat with (length l) by lia.
Qed.

Section group_ranges_loop.
Context (wmap : list (Param * nat)) (n : nat).
Hypothesis Hbound : forall p gi, dict_get p wmap = Some gi -> (gi < n)%nat.

(** The loop over the owned parameters: every list gains the owned
    parameters of its group, in the order they are visited, and the
    recorded pair is a place that holds the parameter. *)
Lemma group_ranges_loop (ps : list Param) : forall lmap lists,
  length lists = n ->
  (forall p gi pos, dict_get p lmap = Some (gi, pos) ->
     exists l, lists !! gi = Some l /\ l !! pos = Some p) ->
  match for_each (group_ranges_step wmap) ps (lmap, lists) with
  | Ok (lmap', lists') =>
      Forall (fun p => is_Some (dict_get p wmap)) ps /\
      length lists' = n /\
      (forall i l, lists !! i = Some l ->
         lists' !! i
         = Some (l ++ filter (fun p => dict_get p wmap = Some i) ps)) /\
      (forall p gi pos, dict_get p lmap' = Some (gi, pos) ->
         exists l, lists' !! gi = Some l /\ l !! pos = Some p) /\
      (forall p, is_Some (dict_get p lmap') <->
                 is_Some (dict_get p lmap) \/ p ∈ ps)
  | Raise e => e = KeyError /\ Exists (fun p => dict_get p wmap = None) ps
  end.
Proof using Hbound.
  induction ps as [|q ps IH]; intros lmap lists Hlen Hpos; cbn [for_each].
  - split; [done|]. split; [done|]. split.
    { intros i l ->. by rewrite filter_nil, app_nil_r. }
    split; [done|]. intros p. rewrite elem_of_nil. tauto.
  - destruct (dict_get q wmap) as [gi|] eqn:Hq.
    2:{ unfold group_ranges_step, dict_getitem. rewrite Hq. csimpl.
        split; [done|]. by left. }
    destruct (lists !! gi) as [l|] eqn:Hl.
    2:{ apply lookup_ge_None in Hl. apply Hbound in Hq. lia. }
    rewrite (group_ranges_step_ok _ _ _ _ gi l) by done. csimpl.
    specialize (IH (dict_set q (gi, length l) lmap) (<[gi := l ++ [q]]> lists)).
    destruct (for_each _ ps _) as [[lmap' lists']|e].
    + destruct IH as (Hall & Hlen' & Hlists & Hpos' & Hdom).
      { by rewrite length_insert. }
      { intros p gi' pos. destruct (decide (q = p)) as [->|Hne].
        - rewrite dict_get_set_eq. intros [= <- <-].
          exists (l ++ [p]). rewrite list_lookup_insert_eq
            by (apply lookup_lt_Some in Hl; done).
          split; [done|]. by rewrite lookup_app_r, Nat.sub_diag.
        - rewrite dict_get_set_ne by done.
          intros (l' & Hl' & Hp)%Hpos.
          destruct (decide (gi = gi')) as [<-|Hgi].
          + exists (l ++ [q]). rewrite list_lookup_insert_eq
              by (apply lookup_lt_Some in Hl; done).
            split; [done|]. rewrite Hl in Hl'. injection Hl' as <-.
            by apply lookup_app_l_Some.
          + exists l'. by rewrite list_lookup_insert_ne. }
      split; [constructor; [by eexists|done]|]. split; [done|]. split.
      { intros i l0 Hl0. destruct (decide (gi = i)) as [<-|Hne].
        - rewrite Hl in Hl0. injection Hl0 as <-.
          rewrite (Hlists gi (l ++ [q])); last first.
          { apply list_lookup_insert_eq. by apply lookup_lt_Some in Hl. }
          rewrite filter_cons_True by done. by rewrite <- app_assoc.
        - rewrite (Hlists i l0) by by rewrite list_lookup_insert_ne.
          rewrite filter_cons_False; [done|]. congruence. }
      split; [done|].
      intros p. rewrite Hdom, elem_of_cons.
      destruct (decide (q = p)) as [->|Hne].
      * rewrite dict_get_set_eq. split; [auto|]. intros _. left. by eexists.
      * rewrite dict_get_set_ne by done. split; [tauto|].
        intros [?|[?|?]]; [by left|done|by right].
    + destruct IH as [-> Hex]; [by rewrite length_insert| |].
      { intros p gi' pos. destruct (decide (q = p)) as [->|Hne].
        - rewrite dict_get_set_eq. intros [= <- <-].
          exists (l ++ [p]). rewrite list_lookup_insert_eq
            by (apply lookup_lt_Some in Hl; done).
          split; [done|]. by rewrite lookup_app_r, Nat.sub_diag.
        - rewrite dict_get_set_ne by done.
          intros (l' & Hl' & Hp)%Hpos.
          destruct (decide (gi = gi')) as [<-|Hgi].
          + exists (l ++ [q]). rewrite list_lookup_insert_eq
              by (apply lookup_lt_Some in Hl; done).
            split; [done|]. rewrite Hl in Hl'. injection Hl' as <-.
            by apply lookup_app_l_Some.
          + exists l'. by rewrite list_lookup_insert_ne. }
      split; [done|]. by right.
Qed.
End group_ranges_loop.

Lemma fmap_bind_list {A B C} (f : B -> C) (g : A -> list B) (l : list A) :
  f <$> (l ≫= g) = l ≫= (fun x => f <$> g x).
Proof.
  induction l as [|x l IH]; csimpl; [done|]. by rewrite fmap_app, IH.
Qed.

Lemma bind_ext_list {A B} (f g : A -> list B) (l : list A) :
  (forall x, f x = g x) -> l ≫= f = l ≫= g.
Proof. intros Hext. induction l as [|x l IH]; csimpl; [done|]. by rewrite Hext, IH. Qed.

(** The three nested loops of [build_optimizer_group_ranges] over the
    owned parameters are one loop over [owned_params]. *)
Lemma owned_params_loop {S} (body : S -> Param -> res S)
    (ranges : list (list (dtype * GbufRange))) (acc : S) :
  for_each
    (fun acc model_gbuf_range_map =>
       for_each
         (fun acc '(_, gbuf_range_map) =>
            for_each body (dict_keys (param_map gbuf_range_map)) acc)
         model_gbuf_range_map acc)
    ranges acc
  = for_each body (owned_params ranges) acc.
Proof.
  unfold owned_params, owned_entries. rewrite fmap_bind_list.
  rewrite <- for_each_bind. apply for_each_ext. intros acc' gm.
  rewrite fmap_bind_list, <- for_each_bind.
  apply for_each_ext. by intros acc'' [dt g].
Qed.

Lemma elem_of_imap_pair {A} (l : list A) (i : nat) (x : A) :
  (i, x) ∈ imap pair l <-> l !! i = Some x.
Proof.
  rewrite elem_of_lookup_imap. split.
  - by intros (j & y & [= -> ->] & Hj).
  - intros Hi. by exists i, x.
Qed.

Lemma NoDup_join_lookup {A} (ls : list (list A)) (i j : nat) l l' (x : A) :
  NoDup (mjoin ls) -> ls !! i = Some l -> ls !! j = Some l' ->
  x ∈ l -> x ∈ l' -> i = j.
Proof.
  revert i j. induction ls as [|l0 ls IH]; intros i j Hnd Hi Hj Hx Hx'; [done|].
  csimpl in Hnd. apply NoDup_app in Hnd as (Hnd0 & Hdisj & Hnd).
  assert (forall k lk, ls !! k = Some lk -> x ∈ lk -> x ∈ mjoin ls) as Hin.
  { intros k lk Hk Hxk. apply list_elem_of_join. exists lk.
    split; [done|by eapply list_elem_of_lookup_2]. }
  destruct i as [|i], j as [|j]; simpl in Hi, Hj.
  - done.
  - injection Hi as <-. destruct (Hdisj x Hx). by eapply Hin.
  - injection Hj as <-. destruct (Hdisj x Hx'). by eapply Hin.
  - f_equal. by eapply IH.
Qed.

Lemma filter_length_eq {A} (P : A -> Prop) `{forall x, Decision (P x)} (l : list A) :
  length (filter P l) = length l -> filter P l = l.
Proof.
  induction l as [|x l IH]; [done|]. rewrite filter_cons.
  destruct (decide (P x)); simpl.
  - intros [= Hlen]. by rewrite IH.
  - intros Hlen. pose proof (length_filter P l). lia.
Qed.

(** [build_optimizer_group_ranges] step by step: the dictionary from
    parameters to groups, the loop over the owned parameters, the
    squeeze. *)
Lemma build_optimizer_group_ranges_steps param_groups ranges :
  build_optimizer_group_ranges param_groups ranges
  = (wmap ←
       for_each
         (fun acc '(group_index, group) =>
            for_each
              (fun acc param =>
                 if requires_grad param then Ok (dict_set param group_index acc)
                 else Raise AssertionError)
              (params group) acc)
         (imap pair param_groups) [];
     '(lmap, lists) ←
       for_each (group_ranges_step wmap) (owned_params ranges)
                ([], (fun _ => []) <$> param_groups);
     Ok (lmap,
         filter (fun g => (0 < length (gr_params g))%nat)
                (zip_with (fun ps g => mkGroupRange ps g) lists param_groups))).
Proof.
  unfold build_optimizer_group_ranges.
  destruct (for_each _ (imap pair param_groups) []) as [wmap|]; csimpl; [|done].
  by rewrite owned_params_loop.
Qed.

Lemma elem_of_group_params (param_groups : list (ParamGroup Param)) p :
  p ∈ mjoin (params <$> param_groups)
  <-> exists gi g, param_groups !! gi = Some g /\ p ∈ params g.
Proof.
  rewrite list_elem_of_join. split.
  - intros (l & Hp & (g & -> & [gi Hg]%list_elem_of_lookup)%list_elem_of_fmap).
    by exists gi, g.
  - intros (gi & g & Hg & Hp). exists (params g). split; [done|].
    apply list_elem_of_fmap. exists g. split; [done|].
    by eapply list_elem_of_lookup_2.
Qed.

(** What a successful [build_optimizer_group_ranges] has computed. *)
Lemma build_optimizer_group_ranges_inv param_groups ranges lmap grs :
  build_optimizer_group_ranges param_groups ranges = Ok (lmap, grs) ->
  exists (wmap : list (Param * nat)) (lists : list (list Param)),
    Forall (fun p => requires_grad p = true) (mjoin (params <$> param_groups)) /\
    (forall p, dict_get p wmap = None <-> p ∉ mjoin (params <$> param_groups)) /\
    (forall p gi, dict_get p wmap = Some gi ->
       exists g, param_groups !! gi = Some g /\ p ∈ params g) /\
    Forall (fun p => is_Some (dict_get p wmap)) (owned_params ranges) /\
    length lists = length param_groups /\
    (forall i, (i < length param_groups)%nat ->
       lists !! i
       = Some (filter (fun p => dict_get p wmap = Some i) (owned_params ranges))) /\
    (forall p gi pos, dict_get p lmap = Some (gi, pos) ->
       exists l, lists !! gi = Some l /\ l !! pos = Some p) /\
    (forall p, is_Some (dict_get p lmap) <-> p ∈ owned_params ranges) /\
    grs = filter (fun g => (0 < length (gr_params g))%nat)
                 (zip_with (fun ps g => mkGroupRange ps g) lists param_groups).
Proof.
  rewrite build_optimizer_group_ranges_steps.
  pose proof (world_param_group_map_spec (imap pair param_groups) []) as Hw.
  destruct (for_each _ (imap pair param_groups) []) as [wmap|]; csimpl; [|done].
  destruct Hw as (Hall & Hnone & Hsome).
  assert (forall p gi, dict_get p wmap = Some gi ->
            exists g, param_groups !! gi = Some g /\ p ∈ params g) as Hsome'.
  { intros p gi [(g & Hg%elem_of_imap_pair & Hp)|?]%Hsome; [|done]. by exists g. }
  assert (forall p gi, dict_get p wmap = Some gi -> (gi < length param_groups)%nat)
    as Hbound.
  { intros p gi (g & Hg & _)%Hsome'. by apply lookup_lt_Some in Hg. }
  pose proof (group_ranges_loop wmap (length param_groups) Hbound
                (owned_params ranges) [] ((fun _ => []) <$> param_groups)) as Hloop.
  destruct (for_each _ (owned_params ranges) _) as [[lmap' lists]|]; csimpl; [|done].
  intros [= -> <-].
  destruct Hloop as (Hown & Hlen & Hlists & Hpos & Hdom);
    [by rewrite length_fmap|done|].
  exists wmap, lists. split.
  { apply Forall_forall. intros p (gi & g & Hg & Hp)%elem_of_group_params.
    rewrite Forall_forall in Hall.
    specialize (Hall (gi, g) (proj2 (elem_of_imap_pair _ _ _) Hg)).
    rewrite Forall_forall in Hall. by apply Hall. }
  split.
  { intros p. rewrite Hnone, elem_of_group_params. split.
    - intros [_ Hno] (gi & g & Hg & Hp).
      by apply (Hno (gi, g)); [apply elem_of_imap_pair|].
    - intros Hno. split; [done|]. intros [gi g] Hg%elem_of_imap_pair Hp.
      apply Hno. by exists gi, g. }
  split; [done|]. split; [done|]. split; [done|]. split.
  { intros i Hi. rewrite (Hlists i []); [done|].
    rewrite list_lookup_fmap.
    destruct (param_groups !! i) eqn:E; [done|].
    apply lookup_ge_None in E. lia. }
  split; [done|]. split; [|done].
  intros p. rewrite Hdom. split; [intros [[? ?]|?]; done|auto].
Qed.

Lemma Forall_Exists_false {A} (P Q : A -> Prop) (l : list A) :
  (forall x, P x -> Q x -> False) -> Forall P l -> Exists Q l -> False.
Proof.
  intros HPQ Hall Hex. rewrite Forall_forall in Hall.
  apply Exists_exists in Hex as (x & Hx & HQ). eauto.
Qed.

(** X9.  [build_optimizer_group_ranges] succeeds exactly when every
    parameter of the base optimizer's groups requires a gradient and
    every parameter the rank owns a part of belongs to a group.  It
    raises [AssertionError] when some group parameter does not require a
    gradient, and otherwise [KeyError] when an owned parameter is in no
    group. *)
Theorem build_optimizer_group_ranges_outcome param_groups ranges :
  let all := mjoin (params <$> param_groups) in
  let owned := owned_params ranges in
  ((exists out, build_optimizer_group_ranges param_groups ranges = Ok out) <->
   Forall (fun p => requires_grad p = true) all /\
   Forall (fun p => p ∈ all) owned) /\
  (build_optimizer_group_ranges param_groups ranges = Raise AssertionError <->
   Exists (fun p => requires_grad p = false) all) /\
  (build_optimizer_group_ranges param_groups ranges = Raise KeyError <->
   Forall (fun p => requires_grad p = true) all /\
   Exists (fun p => p ∉ all) owned).
Proof.
  intros all owned. rewrite build_optimizer_group_ranges_steps.
  pose proof (world_param_group_map_spec (imap pair param_groups) []) as Hw.
  destruct (for_each _ (imap pair param_groups) []) as [wmap|e]; csimpl.
  - destruct Hw as (Hall & Hnone & Hsome).
    assert (Forall (fun p => requires_grad p = true) all) as Hreq.
    { apply Forall_forall. intros p (gi & g & Hg & Hp)%elem_of_group_params.
      rewrite Forall_forall in Hall.
      specialize (Hall (gi, g) (proj2 (elem_of_imap_pair _ _ _) Hg)).
      rewrite Forall_forall in Hall. by apply Hall. }
    assert (forall p, dict_get p wmap = None <-> p ∉ all) as Hnone'.
    { intros p. unfold all. rewrite Hnone, elem_of_group_params. split.
      - intros [_ Hno] (gi & g & Hg & Hp).
        by apply (Hno (gi, g)); [apply elem_of_imap_pair|].
      - intros Hno. split; [done|]. intros [gi g] Hg%elem_of_imap_pair Hp.
        apply Hno. by exists gi, g. }
    assert (forall p gi, dict_get p wmap = Some gi -> (gi < length param_groups)%nat)
      as Hbound.
    { intros p gi [(g & Hg%elem_of_imap_pair & _)|?]%Hsome; [|done].
      by apply lookup_lt_Some in Hg. }
    pose proof (group_ranges_loop wmap (length param_groups) Hbound
                  owned [] ((fun _ => []) <$> param_groups)) as Hloop.
    fold owned. destruct (for_each _ owned _) as [[lmap lists]|e]; csimpl.
    + destruct Hloop as (Hown & _); [by rewrite length_fmap|done|].
      assert (Forall (fun p => p ∈ all) owned) as Hin.
      { eapply Forall_impl; [exact Hown|]. simpl. intros p [gi Hgi].
        destruct (decide (p ∈ all)) as [?|Hno]; [done|].
        apply Hnone' in Hno. congruence. }
      split; [split; [done|by eexists]|]. split.
      * split; [done|]. intros Hex. exfalso.
        eapply (Forall_Exists_false _ _ all); [|exact Hreq|exact Hex].
        simpl. congruence.
      * split; [done|]. intros [_ Hex]. exfalso.
        eapply (Forall_Exists_false _ _ owned); [|exact Hin|exact Hex].
        simpl. tauto.
    + destruct Hloop as [-> Hex]; [by rewrite length_fmap|done|].
      assert (Exists (fun p => p ∉ all) owned) as Hex'.
      { eapply Exists_impl; [exact Hex|]. simpl. intros p. apply Hnone'. }
      split; [|split].
      * split; [by intros [? ?]|]. intros [_ Hin]. exfalso.
        eapply (Forall_Exists_false _ _ owned); [|exact Hin|exact Hex'].
        simpl. tauto.
      * split; [done|]. intros Hex2. exfalso.
        eapply (Forall_Exists_false _ _ all); [|exact Hreq|exact Hex2].
        simpl. congruence.
      * split; [done|]. done.
  - destruct Hw as [-> Hex].
    assert (Exists (fun p => requires_grad p = false) all) as Hex'.
    { apply Exists_exists in Hex as ([gi g] & Hg%elem_of_imap_pair & Hp).
      apply Exists_exists in Hp as (p & Hp & Hreq). apply Exists_exists.
      exists p. split; [|done]. apply elem_of_group_params. by exists gi, g. }
    split; [|split].
    + split; [by intros [? ?]|]. intros [Hreq _]. exfalso.
      eapply (Forall_Exists_false _ _ all); [|exact Hreq|exact Hex'].
      simpl. congruence.
    + done.
    + split; [done|]. intros [Hreq _]. exfalso.
      eapply (Forall_Exists_false _ _ all); [|exact Hreq|exact Hex'].
      simpl. congruence.
Qed.

(** With groups that share no parameter, the lists of the loop are the
    owned parameters of each group, in the order they are visited. *)
Lemma build_optimizer_group_ranges_lists param_groups ranges lmap grs :
  NoDup (mjoin (params <$> param_groups)) ->
  build_optimizer_group_ranges param_groups ranges = Ok (lmap, grs) ->
  let unsqueezed :=
    (fun g => mkGroupRange
                (filter (fun p => p ∈ params g) (owned_params ranges)) g)
    <$> param_groups in
  grs = filter (fun g => (0 < length (gr_params g))%nat) unsqueezed /\
  (forall p, is_Some (dict_get p lmap) <-> p ∈ owned_params ranges) /\
  (forall p gi pos, dict_get p lmap = Some (gi, pos) ->
     exists gr, unsqueezed !! gi = Some gr /\ gr_params gr !! pos = Some p).
Proof.
  intros Hnd (wmap & lists & _ & Hnone & Hsome & _ & Hlen & Hlists & Hpos & Hdom & ->)
         %build_optimizer_group_ranges_inv unsqueezed.
  assert (forall i g, param_groups !! i = Some g ->
            lists !! i
            = Some (filter (fun p => p ∈ params g) (owned_params ranges))) as Hl.
  { intros i g Hg. rewrite Hlists by by apply lookup_lt_Some in Hg.
    f_equal. apply list_filter_iff. intros p. split.
    - intros (g' & Hg' & Hp)%Hsome. congruence.
    - intros Hp. destruct (dict_get p wmap) as [j|] eqn:Hj.
      + destruct (Hsome _ _ Hj) as (g' & Hg' & Hp'). f_equal.
        apply (NoDup_join_lookup (params <$> param_groups) j i
                 (params g') (params g) p); try done.
        * by rewrite list_lookup_fmap, Hg'.
        * by rewrite list_lookup_fmap, Hg.
      + apply Hnone in Hj. destruct Hj.
        apply elem_of_group_params. by exists i, g. }
  assert (zip_with (fun ps g => mkGroupRange ps g) lists param_groups = unsqueezed)
    as Hzip.
  { apply list_eq. intros i. unfold unsqueezed.
    rewrite lookup_zip_with, list_lookup_fmap.
    destruct (param_groups !! i) as [g|] eqn:Hg; csimpl.
    - by rewrite (Hl i g).
    - by destruct (lists !! i). }
  split; [by rewrite Hzip|]. split; [done|].
  intros p gi pos (l & Hgi & Hp)%Hpos.
  assert (is_Some (param_groups !! gi)) as [g Hg].
  { apply lookup_lt_is_Some. rewrite <- Hlen. by apply lookup_lt_Some in Hgi. }
  exists (mkGroupRange l g). split; [|done].
  unfold unsqueezed. rewrite list_lookup_fmap, Hg. csimpl.
  rewrite (Hl gi g Hg) in Hgi. by injection Hgi as <-.
Qed.

(** X10.  When the base optimizer's groups share no parameter,
    [build_optimizer_group_ranges] gives every group the parameters of
    the group that the rank owns a part of, in the order the buffers
    list them, keeps the group itself as [orig_group], and drops the
    groups left without a parameter; the reverse map has an entry for
    exactly the owned parameters. *)
Theorem group_ranges_closed_form param_groups ranges lmap grs :
  NoDup (mjoin (params <$> param_groups)) ->
  build_optimizer_group_ranges param_groups ranges = Ok (lmap, grs) ->
  grs = filter (fun g => (0 < length (gr_params g))%nat)
          ((fun g => mkGroupRange
                       (filter (fun p => p ∈ params g) (owned_params ranges)) g)
           <$> param_groups) /\
  (forall p, is_Some (dict_get p lmap) <-> p ∈ owned_params ranges).
Proof.
  intros Hnd Hb.
  destruct (build_optimizer_group_ranges_lists _ _ _ _ Hnd Hb) as (H1 & H2 & _).
  by split.
Qed.

(** X11.  The pair [(group_index, position)] recorded for an owned
    parameter names a group that holds the parameter and the place of
    the parameter among the owned parameters of that group.  When no
    group has been dropped, it is the place of the parameter in the
    returned group ranges. *)
Theorem local_param_group_map_position param_groups ranges lmap grs p gi pos :
  NoDup (mjoin (params <$> param_groups)) ->
  build_optimizer_group_ranges param_groups ranges = Ok (lmap, grs) ->
  dict_get p lmap = Some (gi, pos) ->
  exists g,
    param_groups !! gi = Some g /\ p ∈ params g /\
    filter (fun q => q ∈ params g) (owned_params ranges) !! pos = Some p /\
    mkGroupRange (filter (fun q => q ∈ params g) (owned_params ranges)) g ∈ grs /\
    (length grs = length param_groups ->
     exists gr, grs !! gi = Some gr /\ orig_group gr = g /\
                gr_params gr !! pos = Some p).
Proof.
  intros Hnd Hb Hp.
  destruct (build_optimizer_group_ranges_lists _ _ _ _ Hnd Hb) as (Hgrs & _ & Hpos).
  destruct (Hpos _ _ _ Hp) as (gr & Hgr & Hat).
  rewrite list_lookup_fmap in Hgr.
  destruct (param_groups !! gi) as [g|] eqn:Hg; [|done].
  csimpl in Hgr. injection Hgr as <-. simpl in Hat.
  exists g. split; [done|].
  assert (p ∈ filter (fun q => q ∈ params g) (owned_params ranges)) as Hin
    by by eapply list_elem_of_lookup_2.
  split; [by apply list_elem_of_filter in Hin as [? _]|]. split; [done|].
  set (unsq := (fun g => mkGroupRange
                  (filter (fun p => p ∈ params g) (owned_params ranges)) g)
               <$> param_groups) in *.
  assert (unsq !! gi
          = Some (mkGroupRange
                    (filter (fun q => q ∈ params g) (owned_params ranges)) g))
    as Hunsq by (unfold unsq; by rewrite list_lookup_fmap, Hg).
  split.
  - rewrite Hgrs. apply list_elem_of_filter. split.
    + simpl. apply lookup_lt_Some in Hat. lia.
    + by eapply list_elem_of_lookup_2.
  - intros Hlen. rewrite Hgrs in Hlen |- *.
    rewrite filter_length_eq by (unfold unsq in *; by rewrite Hlen, length_fmap).
    eexists. split; [exact Hunsq|]. by split.
Qed.

(** Two groups of one parameter each on rank 1 of 2: the rank owns the
    second parameter only, and the first group is dropped. *)
Lemma group_ranges_closed_form_witness :
  exists lmap grs,
    build_optimizer_group_ranges
      [mkParamGroup [half_param 0 4] [("weight_decay", 1)];
       mkParamGroup [half_param 1 4] [("weight_decay", 0)]]
      (model_gbuf_ranges (constructed dropped_group_optimizer))
    = Ok (lmap, grs) /\
    grs = [mkGroupRange [half_param 1 4]
             (mkParamGroup [half_param 1 4] [("weight_decay", 0)])] /\
    (forall p, is_Some (dict_get p lmap) <->
               p ∈ owned_params (model_gbuf_ranges (constructed dropped_group_optimizer))).
Proof.
  eexists _, _. split; [vm_compute; reflexivity|]. split; [reflexivity|].
  eapply (group_ranges_closed_form
            [mkParamGroup [half_param 0 4] [("weight_decay", 1)];
             mkParamGroup [half_param 1 4] [("weight_decay", 0)]]).
  - apply (bool_decide_unpack _). vm_compute. exact I.
  - vm_compute. reflexivity.
Defined.

(** Scenario A on rank 0 of 2: the second parameter is recorded at place
    1 of group 0, where the group range holds it. *)
Lemma local_param_group_map_position_witness :
  exists lmap grs gr,
    build_optimizer_group_ranges
      [mkParamGroup [half_param 0 3; half_param 1 5] [("lr", 1)]]
      (model_gbuf_ranges scenario_A_rank0) = Ok (lmap, grs) /\
    dict_get (half_param 1 5) lmap = Some (0%nat, 1%nat) /\
    grs !! 0%nat = Some gr /\ gr_params gr !! 1%nat = Some (half_param 1 5).
Proof.
  destruct (local_param_group_map_position
              [mkParamGroup [half_param 0 3; half_param 1 5] [("lr", 1)]]
              (model_gbuf_ranges scenario_A_rank0)
              [(half_param 0 3, (0, 0)%nat); (half_param 1 5, (0, 1)%nat)]
              [mkGroupRange [half_param 0 3; half_param 1 5]
                 (mkParamGroup [half_param 0 3; half_param 1 5] [("lr", 1)])]
              (half_param 1 5) 0%nat 1%nat)
    as (g & _ & _ & _ & _ & Hgr).
  - apply (bool_decide_unpack _). vm_compute. exact I.
  - vm_compute. reflexivity.
  - reflexivity.
  - destruct (Hgr eq_refl) as (gr & Hgr0 & _ & Hat).
    eexists _, _, gr. split; [vm_compute; reflexivity|].
    split; [reflexivity|]. split; [exact Hgr0|exact Hat].
Defined.

(** ** The main parameter groups *)

(** The loop body of the group builder: the lookups are those of
    [get_model_param_range_map]. *)
Lemma main_param_step_lookup ranges gmap acc p :
  main_param_step ranges gmap acc p
  = if negb (requires_grad p) then Raise AssertionError else
    m ← lookup_param_range_map ranges gmap p;
    if decide (is_float16 p) then
      Ok {| model_float16_params_this_group :=
              model_float16_params_this_group acc ++ [p];
            model_fp32_params_this_group := model_fp32_params_this_group acc;
            shard_float16_params_this_group :=
              shard_float16_params_this_group acc ++ [shard_view p (param m)];
            shard_fp32_params_this_group := shard_fp32_params_this_group acc;
            shard_fp32_from_float16_params_this_group :=
              shard_fp32_from_float16_params_this_group acc
                ++ [shard_main p (param m)] |}
    else if decide (is_fp32 p) then
      Ok {| model_float16_params_this_group := model_float16_params_this_group acc;
            model_fp32_params_this_group :=
              model_fp32_params_this_group acc ++ [p];
            shard_float16_params_this_group := shard_float16_params_this_group acc;
            shard_fp32_params_this_group :=
              shard_fp32_params_this_group acc ++ [shard_view p (param m)];
            shard_fp32_from_float16_params_this_group :=
              shard_fp32_from_float16_params_this_group acc |}
    else Raise (NameError "param").
Proof.
  unfold main_param_step, lookup_param_range_map.
  destruct (negb (requires_grad p)); [done|].
  destruct (dict_getitem p gmap) as [[mi dt]|]; csimpl; [|done].
  destruct (list_getitem ranges (Z.of_nat mi)) as [gm|]; csimpl; [|done].
  destruct (dict_getitem dt gm) as [g|]; csimpl; [|done].
  destruct (dict_getitem p (param_map g)) as [m|]; csimpl; [|done].
  unfold is_fp32. destruct (decide (is_float16 p)) as [H16|H16].
  - by rewrite bool_decide_eq_true_2.
  - rewrite bool_decide_eq_false_2 by done.
    destruct (decide (type_ p = "torch.cuda.FloatTensor")) as [H32|H32].
    + rewrite bool_decide_eq_true_2 by done. by rewrite decide_True.
    + rewrite bool_decide_eq_false_2 by done. by rewrite decide_False by tauto.
Qed.

(** The loop over the parameters of one group range. *)
Lemma main_param_loop ranges gmap (ps : list Param) : forall acc this,
  for_each (main_param_step ranges gmap) ps acc = Ok this ->
  Forall (fun p => requires_grad p = true /\ (is_float16 p \/ is_fp32 p)) ps /\
  exists v16 v32 m16,
    model_float16_params_this_group this
    = model_float16_params_this_group acc ++ filter is_float16 ps /\
    model_fp32_params_this_group this
    = model_fp32_params_this_group acc ++ filter is_fp32 ps /\
    shard_float16_params_this_group this
    = shard_float16_params_this_group acc ++ v16 /\
    shard_fp32_params_this_group this
    = shard_fp32_params_this_group acc ++ v32 /\
    shard_fp32_from_float16_params_this_group this
    = shard_fp32_from_float16_params_this_group acc ++ m16 /\
    Forall2 (shard_made shard_view ranges gmap) (filter is_float16 ps) v16 /\
    Forall2 (shard_made shard_view ranges gmap) (filter is_fp32 ps) v32 /\
    Forall2 (shard_made shard_main ranges gmap) (filter is_float16 ps) m16.
Proof.
  induction ps as [|p ps IH]; intros acc this; cbn [for_each].
  - intros [= <-]. split; [done|]. exists [], [], [].
    rewrite !app_nil_r. by repeat split.
  - rewrite main_param_step_lookup.
    destruct (requires_grad p) eqn:Hreq; csimpl; [|done].
    destruct (lookup_param_range_map ranges gmap p) as [m|] eqn:Hm; csimpl; [|done].
    destruct (decide (is_float16 p)) as [H16|H16]; csimpl.
    + intros (Hall & v16 & v32 & m16 & E1 & E2 & E3 & E4 & E5 & F1 & F2 & F3)%IH.
      simpl in *. split; [constructor; auto|].
      exists (shard_view p (param m) :: v16), v32, (shard_main p (param m) :: m16).
      rewrite filter_cons_True by done.
      rewrite filter_cons_False by (unfold is_fp32; tauto).
      rewrite E1, E2, E3, E4, E5, <- !app_assoc.
      repeat split; try done; constructor; try done; by exists m.
    + destruct (decide (is_fp32 p)) as [H32|H32]; csimpl; [|done].
      intros (Hall & v16 & v32 & m16 & E1 & E2 & E3 & E4 & E5 & F1 & F2 & F3)%IH.
      simpl in *. split; [constructor; auto|].
      exists v16, (shard_view p (param m) :: v32), m16.
      rewrite filter_cons_False by done. rewrite filter_cons_True by done.
      rewrite E1, E2, E3, E4, E5, <- !app_assoc.
      repeat split; try done. constructor; [by exists m|done].
Qed.

(** The loop over the group ranges: one block of lists per group. *)
Lemma main_groups_loop ranges gmap (grs : list (GroupRange Param)) :
  forall acc G,
  for_each
    (fun acc group_range =>
       this ← for_each (main_param_step ranges gmap)
                       (gr_params group_range) (mkGroupLists [] [] [] [] []);
       let orig :=
         mkParamGroup
           (shard_fp32_params_this_group this
              ++ shard_fp32_from_float16_params_this_group this)
           (hyper (orig_group group_range)) in
       Ok {| model_float16_groups :=
               model_float16_groups acc ++ [model_float16_params_this_group this];
             model_fp32_groups :=
               model_fp32_groups acc ++ [model_fp32_params_this_group this];
             shard_float16_groups :=
               shard_float16_groups acc ++ [shard_float16_params_this_group this];
             shard_fp32_groups :=
               shard_fp32_groups acc ++ [shard_fp32_params_this_group this];
             shard_fp32_from_float16_groups :=
               shard_fp32_from_float16_groups acc
                 ++ [shard_fp32_from_float16_params_this_group this];
             rewritten_group_ranges :=
               rewritten_group_ranges acc
                 ++ [mkGroupRange (gr_params group_range) orig] |})
    grs acc = Ok G ->
  exists thises : list GroupLists,
    Forall2 (fun gr this =>
               for_each (main_param_step ranges gmap) (gr_params gr)
                        (mkGroupLists [] [] [] [] []) = Ok this) grs thises /\
    model_float16_groups G
    = model_float16_groups acc ++ (model_float16_params_this_group <$> thises) /\
    model_fp32_groups G
    = model_fp32_groups acc ++ (model_fp32_params_this_group <$> thises) /\
    shard_float16_groups G
    = shard_float16_groups acc ++ (shard_float16_params_this_group <$> thises) /\
    shard_fp32_groups G
    = shard_fp32_groups acc ++ (shard_fp32_params_this_group <$> thises) /\
    shard_fp32_from_float16_groups G
    = shard_fp32_from_float16_groups acc
      ++ (shard_fp32_from_float16_params_this_group <$> thises) /\
    rewritten_group_ranges G
    = rewritten_group_ranges acc
      ++ zip_with
           (fun gr this =>
              mkGroupRange (gr_params gr)
                (mkParamGroup
                   (shard_fp32_params_this_group this
                      ++ shard_fp32_from_float16_params_this_group this)
                   (hyper (orig_group gr))))
           grs thises.
Proof.
  induction grs as [|gr grs IH]; intros acc G; cbn [for_each].
  - intros [= <-]. exists []. csimpl. rewrite !app_nil_r. by repeat split.
  - destruct (for_each (main_param_step ranges gmap) (gr_params gr) _)
      as [this|] eqn:Hthis; csimpl; [|done].
    intros (thises & HF & E1 & E2 & E3 & E4 & E5 & E6)%IH. simpl in *.
    exists (this :: thises). csimpl.
    rewrite E1, E2, E3, E4, E5, E6, <- !app_assoc.
    repeat split; try done. by constructor.
Qed.

(** X12.  When [build_model_and_main_param_groups] succeeds, the lists of
    group [k] are aligned with the parameters of the [k]-th group range:
    the low-precision parameters, in order, with one view and one
    float32 main shard each, and the float32 parameters, in order, with
    one view each, every shard cut at the [param] range of its
    parameter.  The base optimizer's group keeps its hyper-parameters
    and gets the float32 views followed by the main shards. *)
Theorem main_param_groups_aligned ranges gmap grs G k gr :
  build_model_and_main_param_groups ranges gmap grs = Ok G ->
  grs !! k = Some gr ->
  let ps := gr_params gr in
  Forall (fun p => requires_grad p = true /\ (is_float16 p \/ is_fp32 p)) ps /\
  exists v16 v32 m16,
    model_float16_groups G !! k = Some (filter is_float16 ps) /\
    model_fp32_groups G !! k = Some (filter is_fp32 ps) /\
    shard_float16_groups G !! k = Some v16 /\
    shard_fp32_groups G !! k = Some v32 /\
    shard_fp32_from_float16_groups G !! k = Some m16 /\
    Forall2 (shard_made shard_view ranges gmap) (filter is_float16 ps) v16 /\
    Forall2 (shard_made shard_view ranges gmap) (filter is_fp32 ps) v32 /\
    Forall2 (shard_made shard_main ranges gmap) (filter is_float16 ps) m16 /\
    rewritten_group_ranges G !! k
    = Some (mkGroupRange ps (mkParamGroup (v32 ++ m16) (hyper (orig_group gr)))).
Proof.
  intros (thises & HF & E1 & E2 & E3 & E4 & E5 & E6)%main_groups_loop Hk ps.
  simpl in *.
  destruct (Forall2_lookup_l _ _ _ _ _ HF Hk) as (this & Hthis & Hloop).
  apply main_param_loop in Hloop
    as (Hall & v16 & v32 & m16 & L1 & L2 & L3 & L4 & L5 & F1 & F2 & F3).
  simpl in *. split; [done|]. exists v16, v32, m16.
  rewrite E1, E2, E3, E4, E5, E6, !list_lookup_fmap, Hthis. csimpl.
  rewrite L1, L2, L3, L4, L5. repeat split; try done.
  rewrite lookup_zip_with, Hk, Hthis. csimpl. by rewrite L4, L5.
Qed.

(** The mixed group of scenario C: the half-precision parameter gets a
    view and a main shard, the float32 parameter a view, and the view
    of the float32 parameter comes first in the rewritten group. *)
Lemma main_param_groups_aligned_witness :
  let self := constructed mixed_group_optimizer in
  exists v32 m16,
    shard_fp32_groups (main_param_groups self) !! 0%nat = Some v32 /\
    shard_fp32_from_float16_groups (main_param_groups self) !! 0%nat = Some m16 /\
    Forall2 (shard_made shard_view (model_gbuf_ranges self) (model_param_gbuf_map self))
            [float_param 1 4] v32 /\
    Forall2 (shard_made shard_main (model_gbuf_ranges self) (model_param_gbuf_map self))
            [half_param 0 4] m16.
Proof.
  intros self.
  destruct (main_param_groups_aligned
              (model_gbuf_ranges self) (model_param_gbuf_map self)
              [mkGroupRange [half_param 0 4; float_param 1 4]
                 (mkParamGroup [half_param 0 4; float_param 1 4] [("lr", 1)])]
              (main_param_groups self) 0
              (mkGroupRange [half_param 0 4; float_param 1 4]
                 (mkParamGroup [half_param 0 4; float_param 1 4] [("lr", 1)])))
    as (_ & v16 & v32 & m16 & _ & _ & _ & H32 & Hm & _ & F32 & Fm & _).
  - vm_compute. reflexivity.
  - reflexivity.
  - exists v32, m16. split; [exact H32|]. split; [exact Hm|].
    split; [exact F32|exact Fm].
Defined.

(** X13.  Reverse-map consistency where it holds.  When the groups
    share no parameter, no group is dropped and every owned parameter
    is low-precision, the pair [(group_index, position)] recorded for a
    parameter addresses, in [model_float16_groups], the parameter
    itself; in [shard_float16_groups], its view; and both in
    [shard_fp32_from_float16_groups] and in the rewritten base-optimizer
    group, its float32 main shard. *)
Theorem reverse_map_addresses_main_shard
    param_groups ranges gmap lmap grs G p gi pos :
  NoDup (mjoin (params <$> param_groups)) ->
  build_optimizer_group_ranges param_groups ranges = Ok (lmap, grs) ->
  build_model_and_main_param_groups ranges gmap grs = Ok G ->
  length grs = length param_groups ->
  Forall is_float16 (owned_params ranges) ->
  dict_get p lmap = Some (gi, pos) ->
  exists m,
    lookup_param_range_map ranges gmap p = Ok m /\
    (l ← model_float16_groups G !! gi; l !! pos) = Some p /\
    (l ← shard_float16_groups G !! gi; l !! pos) = Some (shard_view p (param m)) /\
    (l ← shard_fp32_from_float16_groups G !! gi; l !! pos)
    = Some (shard_main p (param m)) /\
    (gr ← rewritten_group_ranges G !! gi; params (orig_group gr) !! pos)
    = Some (shard_main p (param m)).
Proof.
  intros Hnd Hb HG Hlen H16 Hp.
  destruct (build_optimizer_group_ranges_lists _ _ _ _ Hnd Hb) as (Hgrs & _ & Hpos).
  destruct (Hpos _ _ _ Hp) as (gr & Hgr & Hat).
  rewrite Hgrs in Hlen.
  rewrite filter_length_eq in Hgrs by by rewrite Hlen, length_fmap.
  rewrite <- Hgrs in Hgr.
  assert (Forall is_float16 (gr_params gr)) as Hgr16.
  { rewrite Hgrs, list_lookup_fmap in Hgr.
    destruct (param_groups !! gi) as [g|]; [|done].
    csimpl in Hgr. injection Hgr as <-. simpl.
    rewrite Forall_forall in H16 |- *.
    intros q [? ?]%list_elem_of_filter. by apply H16. }
  assert (filter is_float16 (gr_params gr) = gr_params gr) as Hf16.
  { clear -Hgr16. induction Hgr16 as [|q l Hq _ IH]; [done|].
    by rewrite filter_cons_True, IH. }
  assert (filter is_fp32 (gr_params gr) = []) as Hf32.
  { clear -Hgr16. induction Hgr16 as [|q l Hq _ IH]; [done|].
    rewrite filter_cons_False; [done|]. unfold is_fp32. tauto. }
  pose proof (main_groups_loop _ _ _ _ _ HG)
    as (thises & HF & E1 & E2 & E3 & E4 & E5 & E6). simpl in *.
  destruct (Forall2_lookup_l _ _ _ _ _ HF Hgr) as (this & Hthis & Hloop).
  apply main_param_loop in Hloop
    as (_ & v16 & v32 & m16 & L1 & L2 & L3 & L4 & L5 & F1 & F2 & F3).
  simpl in *. rewrite Hf16 in *. rewrite Hf32 in *.
  apply Forall2_nil_inv_l in F2 as ->.
  destruct (Forall2_lookup_l _ _ _ _ _ F1 Hat) as (s16 & Hs16 & m & Hm & ->).
  destruct (Forall2_lookup_l _ _ _ _ _ F3 Hat) as (sm & Hsm & m' & Hm' & ->).
  rewrite Hm in Hm'. injection Hm' as <-.
  exists m. split; [done|].
  rewrite E1, E3, E5, E6, !list_lookup_fmap, lookup_zip_with, Hgr, Hthis.
  csimpl. rewrite L1, L3, L4, L5. by repeat split.
Qed.

(** Scenario A on rank 0 of 2: the pair recorded for the second
    parameter addresses its main shard. *)
Lemma reverse_map_addresses_main_shard_witness :
  let self := scenario_A_rank0 in
  dict_get (half_param 1 5) (model_param_group_index_map self) = Some (0, 1)%nat /\
  exists m,
    (l ← shard_fp32_from_float16_groups (main_param_groups self) !! 0%nat;
     l !! 1%nat) = Some (shard_main (half_param 1 5) (param m)).
Proof.
  intros self. split; [reflexivity|].
  destruct (reverse_map_addresses_main_shard
              [mkParamGroup [half_param 0 3; half_param 1 5] [("lr", 1)]]
              (model_gbuf_ranges self) (model_param_gbuf_map self)
              (model_param_group_index_map self)
              [mkGroupRange [half_param 0 3; half_param 1 5]
                 (mkParamGroup [half_param 0 3; half_param 1 5] [("lr", 1)])]
              (main_param_groups self) (half_param 1 5) 0 1)
    as (m & _ & _ & _ & Hm & _).
  - apply (bool_decide_unpack _). vm_compute. exact I.
  - vm_compute. reflexivity.
  - vm_compute. reflexivity.
  - reflexivity.
  - apply (bool_decide_unpack _). vm_compute. exact I.
  - reflexivity.
  - by exists m.
Defined.

(** ** From a parameter to its buffer and its ranges *)

Lemma fold_left_bind_list {A B S} (f : S -> B -> S) (g : A -> list B)
    (l : list A) (acc : S) :
  fold_left (fun acc x => fold_left f (g x) acc) l acc = fold_left f (l ≫= g) acc.
Proof.
  revert acc. induction l as [|x l IH]; intros acc; csimpl; [done|].
  by rewrite fold_left_app, IH.
Qed.

Lemma fold_left_ext_list {A S} (f f' : S -> A -> S) (l : list A) (acc : S) :
  (forall acc x, f acc x = f' acc x) -> fold_left f l acc = fold_left f' l acc.
Proof.
  intros Hext. revert acc. induction l as [|x l IH]; intros acc; simpl; [done|].
  by rewrite Hext, IH.
Qed.

(** A dictionary filled by successive assignments knows the assigned
    keys, and a value it returns was there before or was assigned. *)
Lemma fold_dict_set_spec {K V} `{EqDecision K} (xs : list (K * V)) : forall acc q,
  let r := fold_left (fun acc x => dict_set x.1 x.2 acc) xs acc in
  (forall w, dict_get q r = Some w -> dict_get q acc = Some w \/ (q, w) ∈ xs) /\
  (is_Some (dict_get q r) <-> is_Some (dict_get q acc) \/ q ∈ xs.*1).
Proof.
  induction xs as [|[k v] xs IH]; intros acc q; simpl.
  - split; [auto|]. rewrite elem_of_nil. tauto.
  - destruct (IH (dict_set k v acc) q) as [H1 H2]. split.
    + intros w [Hacc|Hin]%H1; [|right; by right].
      destruct (decide (k = q)) as [->|Hne].
      * rewrite dict_get_set_eq in Hacc. injection Hacc as <-. right. left.
      * rewrite dict_get_set_ne in Hacc by done. by left.
    + rewrite H2. csimpl. rewrite elem_of_cons.
      destruct (decide (k = q)) as [->|Hne].
      * rewrite dict_get_set_eq. split; [auto|]. intros _. left. by eexists.
      * rewrite dict_get_set_ne by done. split; [tauto|].
        intros [?|[?|?]]; [by left|congruence|by right].
Qed.

(** The assignments of [build_model_param_gbuf_map], in order. *)
Lemma build_model_param_gbuf_map_flat ranges :
  build_model_param_gbuf_map ranges
  = fold_left (fun acc x => dict_set x.1 x.2 acc)
      (im ← imap pair ranges;
       dg ← im.2;
       (fun pm : Param * ParamRangeMap => (pm.1, (im.1, dg.1))) <$> param_map dg.2)
      [].
Proof.
  unfold build_model_param_gbuf_map.
  rewrite <- fold_left_bind_list. apply fold_left_ext_list. intros acc [mi gm].
  simpl. rewrite <- fold_left_bind_list. apply fold_left_ext_list.
  intros acc' [dt g]. simpl.
  generalize (param_map g). clear. intros l. revert acc'.
  induction l as [|[p m] l IH]; intros acc'; csimpl; [done|]. apply IH.
Qed.

Lemma owned_entries_elem ranges p m :
  (p, m) ∈ owned_entries ranges
  <-> exists mi gm dt g, ranges !! mi = Some gm /\ (dt, g) ∈ gm /\
                         (p, m) ∈ param_map g.
Proof.
  unfold owned_entries. rewrite list_elem_of_bind. split.
  - intros (gm & (dg & Hpm & Hdg)%list_elem_of_bind & [mi Hgm]%list_elem_of_lookup).
    destruct dg as [dt g]. by exists mi, gm, dt, g.
  - intros (mi & gm & dt & g & Hgm & Hdg & Hpm). exists gm. split.
    + apply list_elem_of_bind. by exists (dt, g).
    + by eapply list_elem_of_lookup_2.
Qed.

(** What [build_model_param_gbuf_map] knows: the owned parameters, each
    with a buffer whose [param_map] lists it. *)
Lemma build_model_param_gbuf_map_spec ranges p :
  (forall mi dt, dict_get p (build_model_param_gbuf_map ranges) = Some (mi, dt) ->
     exists gm g, ranges !! mi = Some gm /\ (dt, g) ∈ gm /\ p ∈ (param_map g).*1) /\
  (is_Some (dict_get p (build_model_param_gbuf_map ranges))
   <-> p ∈ owned_params ranges).
Proof.
  rewrite build_model_param_gbuf_map_flat.
  set (flat := _ ≫= _).
  destruct (fold_dict_set_spec flat [] p) as [H1 H2]. split.
  - intros mi dt [?|Hin]%H1; [done|]. unfold flat in Hin.
    apply list_elem_of_bind in Hin as ([mi' gm] & Hin & Hgm%elem_of_imap_pair).
    apply list_elem_of_bind in Hin as ([dt' g] & Hin & Hdg).
    apply list_elem_of_fmap in Hin as ([p' m] & [= -> -> ->] & Hpm).
    exists gm, g. repeat split; try done.
    apply list_elem_of_fmap. by exists (p', m).
  - rewrite H2. simpl. split.
    + intros [[? ?]|Hin]; [done|]. unfold flat in Hin.
      apply list_elem_of_fmap in Hin as ([p' [mi dt]] & -> & Hin).
      apply list_elem_of_bind in Hin as ([mi' gm] & Hin & Hgm%elem_of_imap_pair).
      apply list_elem_of_bind in Hin as ([dt' g] & Hin & Hdg).
      apply list_elem_of_fmap in Hin as ([p m] & [= -> -> ->] & Hpm).
      apply list_elem_of_fmap. exists (p, m). split; [done|].
      apply owned_entries_elem. by exists mi', gm, dt', g.
    + intros ([p' m] & -> & (mi & gm & dt & g & Hgm & Hdg & Hpm)%owned_entries_elem)
             %list_elem_of_fmap.
      right. apply list_elem_of_fmap. exists (p', (mi, dt)). split; [done|].
      unfold flat. apply list_elem_of_bind. exists (mi, gm).
      split; [|by apply elem_of_imap_pair].
      apply list_elem_of_bind. exists (dt, g). split; [|done].
      apply list_elem_of_fmap. by exists (p', m).
Qed.

Lemma dict_get_is_Some {K V} `{EqDecision K} (d : list (K * V)) k :
  k ∈ d.*1 -> exists v, dict_get k d = Some v /\ (k, v) ∈ d.
Proof.
  intros Hk. destruct (dict_get k d) as [v|] eqn:E.
  - exists v. split; [done|by apply dict_get_elem_of].
  - by apply dict_get_None in E.
Qed.

(** X14.  [get_model_param_range_map] on an optimizer whose reverse map
    is the one [build_model_param_gbuf_map] builds: for a parameter the
    rank owns a part of it returns an entry of the three-way map kept
    for that parameter, and for any other parameter it raises
    [KeyError]. *)
Theorem get_model_param_range_map_owned self p :
  model_param_gbuf_map self = build_model_param_gbuf_map (model_gbuf_ranges self) ->
  Forall (fun gm : list (dtype * GbufRange) => NoDup gm.*1) (model_gbuf_ranges self) ->
  (p ∈ owned_params (model_gbuf_ranges self) ->
   exists m, get_model_param_range_map self p = Ok m /\
             (p, m) ∈ owned_entries (model_gbuf_ranges self)) /\
  (p ∉ owned_params (model_gbuf_ranges self) ->
   get_model_param_range_map self p = Raise KeyError).
Proof.
  intros Hmap Hnd. unfold get_model_param_range_map, lookup_param_range_map.
  rewrite Hmap. set (ranges := model_gbuf_ranges self) in *.
  destruct (build_model_param_gbuf_map_spec ranges p) as [Hsome Hdom].
  unfold dict_getitem.
  destruct (dict_get p (build_model_param_gbuf_map ranges)) as [[mi dt]|] eqn:Hp;
    csimpl.
  - split; [|intros Hno; destruct Hno; apply Hdom; by eexists].
    intros _. destruct (Hsome _ _ eq_refl) as (gm & g & Hgm & Hdg & Hpg).
    rewrite list_getitem_nat, Hgm. csimpl.
    assert (dict_get dt gm = Some g) as ->.
    { apply dict_get_NoDup; [|done]. rewrite Forall_forall in Hnd.
      apply Hnd. by eapply list_elem_of_lookup_2. }
    csimpl. destruct (dict_get_is_Some _ _ Hpg) as (m & -> & Hin).
    exists m. split; [done|]. apply owned_entries_elem. by exists mi, gm, dt, g.
  - split; [|done]. intros [? ?]%Hdom. done.
Qed.

(** Scenario A on rank 0 of 2: the second parameter is owned, and its
    entry is returned. *)
Lemma get_model_param_range_map_owned_witness :
  exists m, get_model_param_range_map scenario_A_rank0 (half_param 1 5) = Ok m /\
            param m = Range.init 0 1.
Proof.
  destruct (get_model_param_range_map_owned scenario_A_rank0 (half_param 1 5))
    as [Hown _].
  - vm_compute. reflexivity.
  - apply (bool_decide_unpack _). vm_compute. exact I.
  - destruct Hown as (m & Hm & _).
    + apply (bool_decide_unpack _). vm_compute. exact I.
    + exists m. split; [exact Hm|].
      vm_compute in Hm. injection Hm as <-. reflexivity.
Defined.

(** ** What a checkpoint holds *)

(** All the fields of the record [state_dict] builds for one entry. *)
Lemma shard_state_dict_inv self dsd p m r :
  shard_state_dict self dsd (p, m) = Ok r ->
  exists group main_param packed,
    dict_get p (model_param_group_index_map self)
    = Some (ShardState.group_index r, ShardState.group_order r) /\
    param_groups (optimizer self) !! ShardState.group_index r = Some group /\
    params group !! ShardState.group_order r = Some main_param /\
    sd_param_groups dsd !! ShardState.group_index r = Some packed /\
    params packed !! ShardState.group_order r = Some (ShardState.state_order r) /\
    ShardState.world_order r = gbuf_world_order m /\
    ShardState.param_range_map r = m /\
    ShardState.param r = (main_param, tensor_values self main_param) /\
    ShardState.optim r
    = default [] (dict_get (key_tensor main_param) (state (optimizer self))).
Proof.
  unfold shard_state_dict, dict_getitem.
  destruct (dict_get p _) as [[gi go]|]; csimpl; [|done].
  rewrite ?list_getitem_nat.
  destruct (param_groups (optimizer self) !! gi) as [group|] eqn:Hg; csimpl; [|done].
  rewrite ?list_getitem_nat.
  destruct (params group !! go) as [main_param|] eqn:Hm; csimpl; [|done].
  destruct (sd_param_groups dsd !! gi) as [packed|] eqn:Hp; csimpl; [|done].
  rewrite ?list_getitem_nat.
  destruct (params packed !! go) as [state_order|] eqn:Hs; csimpl; [|done].
  intros [= <-]. simpl. exists group, main_param, packed. by repeat split.
Qed.

Lemma Forall2_join_blocks {A B} (R : A -> B -> Prop) xss yss :
  Forall2 (Forall2 R) xss yss -> Forall2 R (mjoin xss) (mjoin yss).
Proof.
  induction 1 as [|xs ys xss yss Hxy _ IH]; csimpl; [constructor|].
  by apply Forall2_app.
Qed.

Lemma owned_entries_join (ranges : list (list (dtype * GbufRange))) :
  owned_entries ranges
  = mjoin (param_map <$> mjoin ((fun m : list (dtype * GbufRange) => m.*2)
                                  <$> ranges)).
Proof.
  unfold owned_entries.
  induction ranges as [|gm ranges IH]; csimpl; [done|].
  rewrite fmap_app, join_app, IH. f_equal.
  clear. induction gm as [|[dt g] gm IH]; csimpl; [done|]. by rewrite IH.
Qed.

(** The records of a checkpoint, entry by entry. *)
Lemma state_dict_entries `{BaseOptimizer} self ckpt :
  state_dict self = Ok ckpt ->
  exists dsd,
    optimizer_state_dict (optimizer self) = Ok dsd /\
    ckpt_param_groups ckpt = sd_param_groups dsd /\
    ckpt_grad_scaler ckpt = grad_scaler self /\
    Forall2 (fun entry r => shard_state_dict self dsd entry = Ok r)
      (owned_entries (model_gbuf_ranges self)) (ckpt_state ckpt).
Proof.
  intros Hsd.
  destruct (state_dict_blocks _ _ Hsd) as (dsd & blocks & Hd & Hstate & Hblocks).
  exists dsd. split; [done|].
  unfold state_dict in Hsd. rewrite Hd in Hsd. csimpl in Hsd.
  destruct (for_each _ _ _) as [recs|]; csimpl in Hsd; [|done].
  injection Hsd as <-. simpl in *. split; [done|]. split; [done|].
  rewrite Hstate, owned_entries_join. apply Forall2_join_blocks.
  apply Forall2_fmap_l.
  eapply Forall2_impl; [exact Hblocks|]. simpl.
  intros g rs (new & -> & Hnew)%for_each_append.
  by rewrite app_nil_l.
Qed.

(** X15.  A checkpoint that [state_dict] returns holds one record per
    entry of the three-way maps, in the order of the models, data types
    and entries.  The record of a parameter carries the parameter's
    entry and world order, the pair the reverse map has for the
    parameter, and the tensor, the key and the inner state the base
    optimizer has at that pair.  The group descriptors are the base
    optimizer's, and the loss scaler's state is saved as it is. *)
Theorem state_dict_records `{BaseOptimizer} self ckpt :
  state_dict self = Ok ckpt ->
  exists dsd,
    optimizer_state_dict (optimizer self) = Ok dsd /\
    ckpt_param_groups ckpt = sd_param_groups dsd /\
    ckpt_grad_scaler ckpt = grad_scaler self /\
    Forall2
      (fun (entry : Param * ParamRangeMap) r =>
         exists group main_param packed,
           dict_get entry.1 (model_param_group_index_map self)
           = Some (ShardState.group_index r, ShardState.group_order r) /\
           param_groups (optimizer self) !! ShardState.group_index r = Some group /\
           params group !! ShardState.group_order r = Some main_param /\
           sd_param_groups dsd !! ShardState.group_index r = Some packed /\
           params packed !! ShardState.group_order r
           = Some (ShardState.state_order r) /\
           ShardState.world_order r = gbuf_world_order entry.2 /\
           ShardState.param_range_map r = entry.2 /\
           ShardState.param r = (main_param, tensor_values self main_param) /\
           ShardState.optim r
           = default [] (dict_get (key_tensor main_param) (state (optimizer self))))
      (owned_entries (model_gbuf_ranges self)) (ckpt_state ckpt).
Proof.
  intros (dsd & Hd & Hgroups & Hscaler & Hrecords)%state_dict_entries.
  exists dsd. repeat (split; [done|]).
  eapply Forall2_impl; [exact Hrecords|]. simpl.
  intros [p m] r. apply shard_state_dict_inv.
Qed.

(** Scenario A saved on rank 0 of 2: two records, for the two entries. *)
Lemma state_dict_records_witness :
  exists ckpt,
    state_dict (H := torch_optimizer) scenario_A_rank0 = Ok ckpt /\
    length (ckpt_state ckpt) = 2%nat /\
    ckpt_grad_scaler ckpt = None.
Proof.
  eexists. split; [vm_compute; reflexivity|]. split; [reflexivity|].
  destruct (state_dict_records (H := torch_optimizer) scenario_A_rank0
              (saved_checkpoint (state_dict (H := torch_optimizer) scenario_A_rank0)))
    as (dsd & _ & _ & Hscaler & _).
  - vm_compute. reflexivity.
  - exact Hscaler.
Defined.

(** ** What [load_state_dict] changes *)

(** The first loop, whatever its outcome: it changes nothing but the
    contents of tensors, keeps their sizes and leaves the tensors no
    record addresses alone. *)
Lemma collect_loop_frame records : forall acc self,
  let self1 := (for_each_method collect_shard records acc self).2 in
  self1 = with_tensor_data self (tensor_data self1) /\
  (forall t, length (tensor_values self1 t) = length (tensor_values self t)) /\
  (forall t, (forall r, r ∈ records -> target_of self r <> Some t) ->
             tensor_values self1 t = tensor_values self t).
Proof.
  induction records as [|r records IH]; intros acc self; simpl.
  - repeat split; try done. by destruct self.
  - unfold mbind, method_bind. rewrite collect_shard_step.
    destruct (target_of self r) as [t|] eqn:Ht;
      [|simpl; repeat split; try done; by destruct self].
    destruct (broadcast_to _ _) as [v|] eqn:Hv;
      [|simpl; repeat split; try done; by destruct self].
    set (self0 := with_tensor_data self (dict_set t v (tensor_data self))).
    specialize (IH (acc ++ [(ShardState.state_order r, ShardState.optim r)]) self0).
    simpl in IH.
    destruct (for_each_method _ _ _ _) as [[acc'|e] self1]; simpl in *.
    all: destruct IH as (Hself & Hlen & Hkeep).
    all: assert (forall t', length (tensor_values self0 t')
                            = length (tensor_values self t')) as Hlen0
      by (intros t'; destruct (decide (t = t')) as [<-|Hne]; unfold self0;
          [rewrite tensor_values_set_eq; by apply broadcast_to_length in Hv
          |by rewrite tensor_values_set_ne]).
    all: split; [by rewrite Hself|].
    all: split; [intros t'; by rewrite Hlen, Hlen0|].
    all: intros t' Hnone; rewrite Hkeep;
      [unfold self0; rewrite tensor_values_set_ne; [done|];
       intros ->; by apply (Hnone r); [left|]
      |intros r' Hr'; change (target_of self0 r') with (target_of self r');
       apply Hnone; by right].
Qed.

(** The base optimizer and the loss scaler are loaded after the loop and
    do not touch the tensors. *)
Lemma load_state_dict_after_loop `{BaseOptimizer} ckpt self :
  let self1 := (for_each_method collect_shard (ckpt_state ckpt) [] self).2 in
  let self' := (load_state_dict ckpt self).2 in
  model_gbuf_ranges self' = model_gbuf_ranges self1 /\
  model_param_gbuf_map self' = model_param_gbuf_map self1 /\
  model_param_group_index_map self' = model_param_group_index_map self1 /\
  main_param_groups self' = main_param_groups self1 /\
  tensor_data self' = tensor_data self1.
Proof.
  simpl. rewrite load_state_dict_steps.
  destruct (for_each_method _ _ _ _) as [[acc|e] self1]; simpl; [|done].
  destruct (optimizer_load_state_dict _ _) as [o|e]; simpl; [|done].
  unfold load_grad_scaler, mbind, method_bind, get_self, lift, put_self; simpl.
  destruct (grad_scaler self1); simpl; [|done].
  by destruct (ckpt_grad_scaler ckpt).
Qed.

(** X16.  Whether it returns or raises, [load_state_dict] leaves the
    three-way maps, the two reverse maps and the five lists of groups as
    they were, keeps the number of elements of every tensor, and leaves
    the contents of every tensor that no record of the checkpoint
    addresses unchanged. *)
Theorem load_state_dict_frame `{BaseOptimizer} ckpt self :
  let self' := (load_state_dict ckpt self).2 in
  model_gbuf_ranges self' = model_gbuf_ranges self /\
  model_param_gbuf_map self' = model_param_gbuf_map self /\
  model_param_group_index_map self' = model_param_group_index_map self /\
  main_param_groups self' = main_param_groups self /\
  (forall t, length (tensor_values self' t) = length (tensor_values self t)) /\
  (forall t, (forall r, r ∈ ckpt_state ckpt -> target_of self r <> Some t) ->
             tensor_values self' t = tensor_values self t).
Proof.
  simpl.
  destruct (load_state_dict_after_loop ckpt self) as (H1 & H2 & H3 & H4 & H5).
  destruct (collect_loop_frame (ckpt_state ckpt) [] self) as (Hself & Hlen & Hkeep).
  simpl in *.
  rewrite H1, H2, H3, H4.
  set (self1 := (for_each_method collect_shard (ckpt_state ckpt) [] self).2) in *.
  assert (forall t, tensor_values (load_state_dict ckpt self).2 t
                    = tensor_values self1 t) as Hsame
    by (intros t; unfold tensor_values; by rewrite H5).
  rewrite Hself. simpl.
  repeat (split; [done|]). split.
  - intros t. rewrite Hsame. apply Hlen.
  - intros t Hnone. rewrite Hsame. by apply Hkeep.
Qed.

(** The first loop succeeds exactly when every record fits the tensor it
    addresses, as the tensors are before the call. *)
Lemma collect_loop_succeeds records : forall acc self,
  (exists self1, for_each_method collect_shard records acc self
                 = (Ok (acc ++ collected records), self1))
  <-> Forall (record_fits self) records.
Proof.
  induction records as [|r records IH]; intros acc self.
  - simpl. rewrite app_nil_r. split; [constructor|]. intros _. by eexists.
  - cbn [for_each_method].
    unfold mbind, method_bind. rewrite collect_shard_step, Forall_cons.
    unfold record_fits at 1.
    destruct (target_of self r) as [t|] eqn:Ht;
      [|split; [by intros [? ?]|by intros [[] _]]].
    destruct (broadcast_to _ _) as [v|] eqn:Hv;
      [|split; [by intros [? ?]|by intros [[? ?] _]]].
    set (self0 := with_tensor_data self (dict_set t v (tensor_data self))).
    replace (acc ++ collected (r :: records))
      with ((acc ++ [(ShardState.state_order r, ShardState.optim r)])
              ++ collected records) by by rewrite <- app_assoc.
    rewrite IH.
    assert (forall r', record_fits self0 r' <-> record_fits self r') as Hfits.
    { intros r'. unfold record_fits.
      change (target_of self0 r') with (target_of self r').
      destruct (target_of self r') as [t'|]; [|done].
      destruct (decide (t = t')) as [<-|Hne]; unfold self0.
      - rewrite tensor_values_set_eq. by rewrite (broadcast_to_length _ _ _ Hv).
      - by rewrite tensor_values_set_ne. }
    rewrite (Forall_iff _ _ _ Hfits). split; [by split|by intros [_ ?]].
Qed.

(** X17.  [load_state_dict] returns exactly when every record addresses
    a tensor of [shard_fp32_from_float16_groups] whose size the saved
    contents have or broadcast to, the base optimizer accepts the
    collected states with the saved groups, and the checkpoint has a loss
    scaler state whenever the optimizer has a loss scaler. *)
Theorem load_state_dict_succeeds_iff `{BaseOptimizer} ckpt self :
  (exists self', load_state_dict ckpt self = (Ok tt, self'))
  <-> Forall (record_fits self) (ckpt_state ckpt) /\
      (exists o, optimizer_load_state_dict (optimizer self)
                   (handed_state_dict ckpt (collected (ckpt_state ckpt))) = Ok o) /\
      (is_Some (grad_scaler self) -> is_Some (ckpt_grad_scaler ckpt)).
Proof.
  rewrite load_state_dict_steps, <- (collect_loop_succeeds _ [] self).
  pose proof (collect_loop_frame (ckpt_state ckpt) [] self) as (Hself & _).
  simpl in Hself.
  destruct (for_each_method _ _ _ _) as [[acc|e] self1] eqn:Hloop; simpl in *.
  - apply collect_loop_ok in Hloop as (-> & _). simpl.
    assert (optimizer self1 = optimizer self) as -> by by rewrite Hself.
    assert (grad_scaler self1 = grad_scaler self) as Hscaler by by rewrite Hself.
    destruct (optimizer_load_state_dict _ _) as [o|e]; simpl.
    + unfold load_grad_scaler, mbind, method_bind, get_self, lift, put_self; simpl.
      rewrite Hscaler.
      destruct (grad_scaler self) as [s|]; simpl.
      * destruct (ckpt_grad_scaler ckpt) as [g|]; simpl.
        -- split; [intros _|intros _; by eexists].
           split; [by eexists|]. split; [by eexists|done].
        -- split; [by intros [? ?]|]. intros (_ & _ & Hs).
           destruct Hs as [? ?]; [by eexists|done].
      * split; [intros _|intros _; by eexists].
        split; [by eexists|]. split; [by eexists|]. by intros [? ?].
    + split; [by intros [? ?]|]. by intros (_ & [? ?] & _).
  - split; [by intros [? ?]|]. by intros ([? ?] & _).
Qed.

(** X18.  The loss scaler is read last.  When the optimizer has a loss
    scaler and the checkpoint has no state for it, [load_state_dict]
    raises [KeyError] after the records have been copied into the main
    shards and the base optimizer has loaded its state: both changes
    stay. *)
Theorem load_state_dict_missing_scaler `{BaseOptimizer} ckpt self o s :
  Forall (record_fits self) (ckpt_state ckpt) ->
  optimizer_load_state_dict (optimizer self)
    (handed_state_dict ckpt (collected (ckpt_state ckpt))) = Ok o ->
  grad_scaler self = Some s ->
  ckpt_grad_scaler ckpt = None ->
  exists self1,
    for_each_method collect_shard (ckpt_state ckpt) [] self
    = (Ok (collected (ckpt_state ckpt)), self1) /\
    load_state_dict ckpt self = (Raise KeyError, with_optimizer self1 o).
Proof.
  intros [self1 Hloop]%(collect_loop_succeeds _ [] self) Hbase Hs Hnone.
  exists self1. split; [done|].
  rewrite load_state_dict_steps, Hloop.
  pose proof (collect_loop_frame (ckpt_state ckpt) [] self) as (Hself & _).
  rewrite Hloop in Hself. simpl in Hself.
  assert (optimizer self1 = optimizer self) as -> by by rewrite Hself.
  assert (grad_scaler self1 = grad_scaler self) as Hscaler by by rewrite Hself.
  simpl. rewrite Hbase.
  unfold load_grad_scaler, mbind, method_bind, get_self, lift, put_self; simpl.
  by rewrite Hscaler, Hs, Hnone.
Qed.

(** Scenario A with a loss scaler, loading a checkpoint saved without
    one: the call raises after the optimizer state is replaced. *)
Lemma load_state_dict_missing_scaler_witness :
  exists self1,
    for_each_method collect_shard (ckpt_state scenario_A_checkpoint) []
      scenario_A_scaled
    = (Ok (collected (ckpt_state scenario_A_checkpoint)), self1) /\
    load_state_dict (H := torch_optimizer) scenario_A_checkpoint scenario_A_scaled
    = (Raise KeyError,
       with_optimizer self1
         (saved_optimizer
            (torch_load_state_dict (optimizer scenario_A_scaled)
               (handed_state_dict scenario_A_checkpoint
                  (collected (ckpt_state scenario_A_checkpoint)))))).
Proof.
  apply (load_state_dict_missing_scaler (H := torch_optimizer)
           scenario_A_checkpoint scenario_A_scaled _ [("scale", 1)]).
  - apply (bool_decide_unpack _). vm_compute. exact I.
  - vm_compute. reflexivity.
  - reflexivity.
  - reflexivity.
Defined.

(** The loop when every record carries the contents its tensor already
    has: it succeeds and no tensor changes. *)
Lemma collect_loop_same_contents records : forall acc self,
  Forall (fun r => exists t, target_of self r = Some t /\
                             (ShardState.param r).2 = tensor_values self t)
         records ->
  exists self1,
    for_each_method collect_shard records acc self
    = (Ok (acc ++ collected records), self1) /\
    forall t, tensor_values self1 t = tensor_values self t.
Proof.
  induction records as [|r records IH]; intros acc self; simpl.
  - intros _. rewrite app_nil_r. by eexists.
  - intros [(t & Ht & Hv) Hrest]%Forall_cons.
    unfold mbind, method_bind. rewrite collect_shard_step, Ht.
    unfold broadcast_to. rewrite decide_True by by rewrite Hv.
    set (self0 := with_tensor_data self _).
    assert (forall t', tensor_values self0 t' = tensor_values self t') as Hsame.
    { intros t'. destruct (decide (t = t')) as [<-|Hne]; unfold self0.
      - by rewrite tensor_values_set_eq.
      - by rewrite tensor_values_set_ne. }
    destruct (IH (acc ++ [(ShardState.state_order r, ShardState.optim r)]) self0)
      as (self1 & Hloop & Hfinal).
    { eapply Forall_impl; [exact Hrest|]. simpl.
      intros r' (t' & Ht' & Hv'). exists t'. by rewrite Hsame. }
    exists self1. rewrite Hloop, <- app_assoc. split; [done|].
    intros t'. by rewrite Hfinal.
Qed.

(** X19.  Saving and loading in place.  When the tensor the base
    optimizer has at every place of the reverse map is the tensor
    [shard_fp32_from_float16_groups] has there, loading the checkpoint
    [state_dict] has just returned finds a fitting tensor for every
    record and changes the contents of no tensor. *)
Theorem state_dict_load_keeps_tensors `{BaseOptimizer} self ckpt :
  state_dict self = Ok ckpt ->
  Forall (places_agree self) (model_param_group_index_map self) ->
  Forall (record_fits self) (ckpt_state ckpt) /\
  forall t, tensor_values (load_state_dict ckpt self).2 t = tensor_values self t.
Proof.
  intros (dsd & _ & _ & _ & Hrecords)%state_dict_entries Hplaces.
  assert (Forall (fun r => exists t, target_of self r = Some t /\
                                     (ShardState.param r).2 = tensor_values self t)
                 (ckpt_state ckpt)) as Hsame.
  { apply Forall_forall. intros r [i Hi]%list_elem_of_lookup.
    destruct (Forall2_lookup_r _ _ _ _ _ Hrecords Hi) as ([p m] & _ & Hr).
    apply shard_state_dict_inv in Hr
      as (group & main_param & _ & Hmap & Hg & Hm & _ & _ & _ & _ & Hparam & _).
    apply dict_get_elem_of in Hmap.
    rewrite Forall_forall in Hplaces. specialize (Hplaces _ Hmap).
    unfold places_agree in Hplaces. simpl in Hplaces.
    rewrite Hg in Hplaces. csimpl in Hplaces. rewrite Hm in Hplaces.
    exists main_param. split; [done|]. by rewrite Hparam. }
  destruct (collect_loop_same_contents _ [] self Hsame) as (self1 & Hloop & Hfinal).
  split.
  - apply (collect_loop_succeeds _ [] self). by exists self1.
  - intros t.
    destruct (load_state_dict_after_loop ckpt self) as (_ & _ & _ & _ & Hdata).
    simpl in Hdata. rewrite Hloop in Hdata. simpl in Hdata.
    rewrite <- Hfinal. unfold tensor_values. by rewrite Hdata.
Qed.

(** Scenario A on rank 0 of 2, saved and loaded in place. *)
Lemma state_dict_load_keeps_tensors_witness :
  Forall (record_fits scenario_A_rank0) (ckpt_state scenario_A_checkpoint) /\
  forall t,
    tensor_values
      (load_state_dict (H := torch_optimizer) scenario_A_checkpoint
         scenario_A_rank0).2 t
    = tensor_values scenario_A_rank0 t.
Proof.
  apply (state_dict_load_keeps_tensors (H := torch_optimizer)).
  - vm_compute. reflexivity.
  - apply (bool_decide_unpack _). vm_compute. exact I.
Defined.

(** ** The copy of the main shards into the parameter buffers *)

Lemma for_each_in_place_app {A S} (body : A -> S -> res unit * S) xs ys : forall s,
  for_each_in_place body (xs ++ ys) s
  = match for_each_in_place body xs s with
    | (Ok _, s') => for_each_in_place body ys s'
    | (Raise e, s') => (Raise e, s')
    end.
Proof.
  induction xs as [|x xs IH]; intros s; simpl.
  - done.
  - destruct (body x s) as [[[]|e] s']; [apply IH|done].
Qed.















(** ** The optimizer right after construction *)

(** What a successful [__init__] has computed. *)
Lemma init_inv `{BaseOptimizer} r W models groups scaler self :
  init r W models groups scaler = Ok self ->
  exists grs,
    Forall2 (fun model gm => build_model_gbuf_range_map r W model = Ok gm)
            models (model_gbuf_ranges self) /\
    model_param_gbuf_map self = build_model_param_gbuf_map (model_gbuf_ranges self) /\
    build_optimizer_group_ranges groups (model_gbuf_ranges self)
    = Ok (model_param_group_index_map self, grs) /\
    build_model_and_main_param_groups (model_gbuf_ranges self)
      (model_param_gbuf_map self) grs = Ok (main_param_groups self) /\
    grad_scaler self = scaler /\
    tensor_data self
    = (fun t => (t, shard_initial_data t))
      <$> mjoin (shard_fp32_from_float16_groups (main_param_groups self)).
Proof.
  unfold init.
  destruct (for_each _ models []) as [ranges|] eqn:Hranges; csimpl; [|done].
  apply for_each_append in Hranges as (new & -> & Hnew). rewrite app_nil_l.
  destruct (build_optimizer_group_ranges groups new) as [[lmap grs]|] eqn:Hgr;
    csimpl; [|done].
  destruct (build_model_and_main_param_groups _ _ grs) as [G|] eqn:HG; csimpl; [|done].
  destruct (optimizer_state_dict _) as [sd|]; csimpl; [|done].
  destruct (optimizer_load_state_dict _ _) as [o|]; csimpl; [|done].
  intros [= <-]. simpl. exists grs. by repeat split.
Qed.

(** After a successful group builder, all five lists at once. *)
Lemma main_groups_aligned_all ranges gmap grs G :
  build_model_and_main_param_groups ranges gmap grs = Ok G ->
  Forall (fun gr => Forall (fun p => requires_grad p = true /\
                                     (is_float16 p \/ is_fp32 p)) (gr_params gr))
         grs /\
  model_float16_groups G = (fun gr => filter is_float16 (gr_params gr)) <$> grs /\
  model_fp32_groups G = (fun gr => filter is_fp32 (gr_params gr)) <$> grs /\
  Forall2 (Forall2 (shard_made shard_view ranges gmap))
          (model_float16_groups G) (shard_float16_groups G) /\
  Forall2 (Forall2 (shard_made shard_view ranges gmap))
          (model_fp32_groups G) (shard_fp32_groups G) /\
  Forall2 (Forall2 (shard_made shard_main ranges gmap))
          (model_float16_groups G) (shard_fp32_from_float16_groups G).
Proof.
  intros (thises & HF & E1 & E2 & E3 & E4 & E5 & _)%main_groups_loop.
  simpl in *. rewrite E1, E2, E3, E4, E5. clear E1 E2 E3 E4 E5.
  induction HF as [|gr this grs thises Hloop _ IH]; csimpl.
  - repeat split; constructor.
  - apply main_param_loop in Hloop
      as (Hall & v16 & v32 & m16 & L1 & L2 & L3 & L4 & L5 & F1 & F2 & F3).
    simpl in *. destruct IH as (I0 & I1 & I2 & I3 & I4 & I5).
    rewrite L1, L2, L3, L4, L5, I1, I2 in *.
    repeat split; try done; by constructor.
Qed.

Lemma tensor_values_initial self (l : list Shard) t :
  tensor_data self = (fun t => (t, shard_initial_data t)) <$> l ->
  tensor_values self t = shard_initial_data t.
Proof.
  intros Hdata. unfold tensor_values. rewrite Hdata. clear.
  induction l as [|t' l IH]; csimpl; [done|].
  by destruct (decide (t = t')) as [->|].
Qed.

Lemma zip_groups_fst {A B} (R : A -> B -> Prop) (xss : list (list A)) yss :
  Forall2 (Forall2 R) xss yss ->
  (gs ← zip xss yss; zip gs.1 gs.2).*1 = mjoin xss /\
  (gs ← zip xss yss; zip gs.1 gs.2).*2 = mjoin yss.
Proof.
  induction 1 as [|xs ys xss yss Hxy _ [IH1 IH2]]; csimpl; [done|].
  rewrite !fmap_app, IH1, IH2.
  apply Forall2_length in Hxy.
  rewrite fst_zip, snd_zip by lia. done.
Qed.

Lemma get_data_flat self :
  _get_model_and_main_params_data_float16 self
  = (let pairs :=
       gs ← zip (shard_float16_groups (main_param_groups self))
                (shard_fp32_from_float16_groups (main_param_groups self));
       zip gs.1 gs.2 in
     (tensor_values self <$> pairs.*1, tensor_values self <$> pairs.*2)).
Proof.
  unfold _get_model_and_main_params_data_float16. cbv zeta.
  generalize (zip (shard_float16_groups (main_param_groups self))
                  (shard_fp32_from_float16_groups (main_param_groups self))).
  intros l.
  assert (forall acc : list (list scalar) * list (list scalar),
    fold_left
      (fun acc '(model_group, main_group) =>
         fold_left
           (fun '(model_data, main_data) '(model_param, main_param) =>
              (model_data ++ [tensor_values self model_param],
               main_data ++ [tensor_values self main_param]))
           (zip model_group main_group) acc)
      l acc
    = (acc.1 ++ (tensor_values self <$> (gs ← l; zip gs.1 gs.2).*1),
       acc.2 ++ (tensor_values self <$> (gs ← l; zip gs.1 gs.2).*2))) as Hgen.
  { induction l as [|[vg mg] l IH]; intros [a b]; csimpl.
    - by rewrite !app_nil_r.
    - rewrite IH. clear IH. simpl.
      generalize (zip vg mg). intros ps. rewrite !fmap_app.
      revert a b. induction ps as [|[v m] ps IHp]; intros a b; csimpl.
      + done.
      + rewrite IHp. by rewrite <- !app_assoc. }
  by rewrite Hgen.
Qed.

Lemma Forall2_same_source {A B C D} (P : A -> B -> Prop) (Q : A -> C -> Prop)
    (f : B -> D) (g : C -> D) xs ys zs :
  Forall2 P xs ys -> Forall2 Q xs zs ->
  (forall x y z, P x y -> Q x z -> f y = g z) ->
  f <$> ys = g <$> zs.
Proof.
  intros HP. revert zs. induction HP as [|x y xs ys Hxy _ IH]; intros zs HQ Hfg.
  - by apply Forall2_nil_inv_l in HQ as ->.
  - apply Forall2_cons_inv_l in HQ as (z & zs' & Hxz & HQ & ->). csimpl.
    f_equal; [by eapply Hfg|by apply IH].
Qed.

(** X21.  Right after construction the two lists that
    [_get_model_and_main_params_data_float16] returns are equal: they
    hold, for every low-precision parameter of the groups in order, the
    slice of the parameter at its [param] range, once as the view and
    once as the float32 main shard cloned from it. *)
Theorem fresh_main_params_equal_model_params `{BaseOptimizer}
    r W models groups scaler self :
  init r W models groups scaler = Ok self ->
  let '(model_data, main_data) := _get_model_and_main_params_data_float16 self in
  model_data = main_data /\
  Forall2 (fun p d => exists m,
             get_model_param_range_map self p = Ok m /\
             d = py_slice (data p) (Range.start (param m)) (Range.end_ (param m)))
          (mjoin (model_float16_groups (main_param_groups self))) main_data.
Proof.
  intros (grs & _ & Hgmap & _ & HG & _ & Hdata)%init_inv.
  apply main_groups_aligned_all in HG as (_ & _ & _ & Fv & _ & Fm).
  rewrite get_data_flat. cbv zeta.
  assert (Forall2 (Forall2 (fun (_ _ : Shard) => True))
            (shard_float16_groups (main_param_groups self))
            (shard_fp32_from_float16_groups (main_param_groups self))) as Hzip.
  { clear -Fv Fm.
    assert (forall (xss : list (list Param)) (yss zss : list (list Shard))
                   (P Q : Param -> Shard -> Prop),
              Forall2 (Forall2 P) xss yss -> Forall2 (Forall2 Q) xss zss ->
              Forall2 (Forall2 (fun _ _ => True)) yss zss) as Hgen.
    { intros xss yss zss P Q HP. revert zss.
      induction HP as [|xs ys xss yss Hxy _ IH]; intros zss HQ.
      - apply Forall2_nil_inv_l in HQ as ->. constructor.
      - apply Forall2_cons_inv_l in HQ as (zs & zss' & Hxz & HQ & ->).
        constructor; [|by apply IH].
        apply Forall2_same_length.
        apply Forall2_length in Hxy, Hxz. lia. }
    by eapply Hgen. }
  destruct (zip_groups_fst _ _ _ Hzip) as [-> ->].
  apply Forall2_join_blocks in Fv, Fm.
  split.
  - eapply Forall2_same_source; [exact Fv|exact Fm|].
    intros p v m (mv & Hv & ->) (mm & Hm & ->).
    rewrite !(tensor_values_initial _ _ _ Hdata). simpl. congruence.
  - apply Forall2_fmap_r. eapply Forall2_impl; [exact Fm|]. simpl.
    intros p t (m & Hm & ->). exists m. split; [exact Hm|].
    by rewrite (tensor_values_initial _ _ _ Hdata).
Qed.

(** Scenario A on rank 0 of 2: both lists hold the first parameter and
    the first element of the second. *)
Lemma fresh_main_params_equal_model_params_witness :
  (_get_model_and_main_params_data_float16 scenario_A_rank0).1
  = (_get_model_and_main_params_data_float16 scenario_A_rank0).2.
Proof.
  pose proof (fresh_main_params_equal_model_params (H := torch_optimizer)
                0 2 [scenario_A]
                [mkParamGroup [half_param 0 3; half_param 1 5] [("lr", 1)]] None
                scenario_A_rank0) as Hfresh.
  destruct (_get_model_and_main_params_data_float16 scenario_A_rank0)
    as [model_data main_data].
  simpl. apply Hfresh. vm_compute. reflexivity.
Defined.

(** ** From construction to the first copy *)

Lemma dict_set_keys {K V} `{EqDecision K} (d : list (K * V)) k v :
  k ∈ d.*1 -> (dict_set k v d).*1 = d.*1.
Proof.
  induction d as [|[k' v'] d IH]; csimpl; [by intros ?%elem_of_nil|].
  intros Hk. destruct (decide (k = k')) as [->|Hne]; csimpl; [done|].
  f_equal. apply IH. apply elem_of_cons in Hk as [?|?]; done.
Qed.

(** The map of one model, data type by data type. *)
Lemma gbuf_range_map_loop r W model : forall keys acc gm,
  for_each
    (fun acc dt => g ← build_model_gbuf_range r W model dt; Ok (dict_set dt g acc))
    keys acc = Ok gm ->
  NoDup keys -> (forall k, k ∈ keys -> k ∉ acc.*1) ->
  exists new,
    gm = acc ++ new /\
    Forall2 (fun dt (e : dtype * GbufRange) =>
               e.1 = dt /\ build_model_gbuf_range r W model dt = Ok e.2) keys new.
Proof.
  induction keys as [|k keys IH]; intros acc gm; cbn [for_each].
  - intros [= <-] _ _. exists []. by rewrite app_nil_r.
  - destruct (build_model_gbuf_range r W model k) as [g|] eqn:Hg; csimpl; [|done].
    intros Hloop [Hk Hnd]%NoDup_cons Hfresh.
    rewrite dict_set_fresh in Hloop by (apply Hfresh; left).
    apply IH in Hloop as (new & -> & Hnew); [|done|].
    + exists ((k, g) :: new). split; [by rewrite <- app_assoc|].
      by constructor.
    + intros k' Hk'. rewrite fmap_app, elem_of_app. csimpl.
      intros [Hin|Hin%list_elem_of_singleton].
      * apply (Hfresh k'); [by right|done].
      * by subst.
Qed.

Lemma build_model_gbuf_range_map_inv r W model gm :
  build_model_gbuf_range_map r W model = Ok gm ->
  NoDup (dict_keys (_grad_buffers model)) ->
  Forall2 (fun dt (e : dtype * GbufRange) =>
             e.1 = dt /\ build_model_gbuf_range r W model dt = Ok e.2)
          (dict_keys (_grad_buffers model)) gm.
Proof.
  intros Hloop Hnd. apply gbuf_range_map_loop in Hloop as (new & -> & Hnew);
    [done|done|].
  intros k _. apply not_elem_of_nil.
Qed.

Lemma gbuf_range_map_keys r W model gm :
  Forall2 (fun dt (e : dtype * GbufRange) =>
             e.1 = dt /\ build_model_gbuf_range r W model dt = Ok e.2)
          (dict_keys (_grad_buffers model)) gm ->
  gm.*1 = dict_keys (_grad_buffers model).
Proof.
  generalize (dict_keys (_grad_buffers model)). intros keys.
  induction 1 as [|dt [dt' g] keys gm [Hdt _] _ IH]; csimpl; [done|].
  simpl in Hdt. by rewrite Hdt, IH.
Qed.

(** The world range of a built map has the size of its bounds. *)
Lemma build_model_gbuf_range_world_wf r W model dt g :
  build_model_gbuf_range r W model dt = Ok g ->
  Range.size (world g) = Range.end_ (world g) - Range.start (world g).
Proof.
  intros (buf & _ & _ & _ & Hall & Hget & _)%build_model_gbuf_range_inv.
  rewrite Hall in Hget. unfold list_getitem in Hget.
  destruct (_ <? 0); [done|].
  destruct (_ !! _) as [R|] eqn:HR; [|done]. injection Hget as <-.
  by apply world_all_lookup_inv in HR as [_ ->].
Qed.

(** An entry of the three-way map, from the index entry it comes from. *)
Lemma entry_ranges L o ws we m :
  Range.size L = Range.end_ L - Range.start L ->
  param_range_entry L (o, ws, we) = Some m ->
  let a := Z.max ws (Range.start L) in
  let b := Z.min we (Range.end_ L) in
  a < b /\ gbuf_world m = Range.init a b /\ param m = Range.init (a - ws) (b - ws).
Proof.
  intros HL Hm a b.
  destruct (decide (a < b)) as [Hlt|Hge].
  - rewrite (param_range_entry_Some L o) in Hm by done. injection Hm as <-. by simpl.
  - rewrite (param_range_entry_None L o) in Hm by (fold a b; lia). done.
Qed.

(** Everything the construction knows about one entry of a built map. *)
Lemma built_entry r W model dt g p m :
  build_model_gbuf_range r W model dt = Ok g ->
  dict_get p (param_map g) = Some m ->
  (forall imap, dict_get dt (_grad_buffer_param_index_map model) = Some imap ->
                NoDup imap.*1) ->
  exists buf imap o ws we,
    dict_get dt (_grad_buffers model) = Some buf /\
    dict_get dt (_grad_buffer_param_index_map model) = Some imap /\
    dict_get p imap = Some (o, ws, we) /\
    let a := Z.max ws (Range.start (world g)) in
    let b := Z.min we (Range.end_ (world g)) in
    a < b /\ gbuf_world m = Range.init a b /\
    param m = Range.init (a - ws) (b - ws).
Proof.
  intros Hg Hm Hnd.
  pose proof (build_model_gbuf_range_world_wf _ _ _ _ _ Hg) as HL.
  apply build_model_gbuf_range_inv in Hg as (buf & Hbuf & _ & _ & _ & _ & _ & Hmap).
  pose proof Hmap as Hmap0.
  unfold build_model_gbuf_param_range_map, dict_getitem in Hmap0.
  destruct (dict_get dt (_grad_buffer_param_index_map model)) as [imap|] eqn:Himap;
    [|done].
  clear Hmap0.
  rewrite (param_range_map_lookup _ _ imap _ _ p Himap (Hnd _ eq_refl) Hmap) in Hm.
  destruct (dict_get p imap) as [[[o ws] we]|] eqn:Hp; [|done]. csimpl in Hm.
  exists buf, imap, o, ws, we. repeat (split; [done|]).
  by apply (entry_ranges _ o).
Qed.

Lemma NoDup_bind_piece {A B} (f : A -> list B) (l : list A) x :
  NoDup (l ≫= f) -> x ∈ l -> NoDup (f x).
Proof.
  induction l as [|y l IH]; csimpl; [by intros _ ?%elem_of_nil|].
  intros (Hy & _ & Hl)%NoDup_app [->|Hx]%elem_of_cons; auto.
Qed.

(** The index map of a buffer lists every parameter once. *)
Lemma index_map_NoDup models model dt imap :
  NoDup (models ≫= model_params) ->
  model ∈ models -> dt ∈ dict_keys (_grad_buffers model) ->
  dict_get dt (_grad_buffer_param_index_map model) = Some imap ->
  NoDup imap.*1.
Proof.
  intros Hnd Hmodel Hdt Himap.
  apply (NoDup_bind_piece _ _ model) in Hnd; [|done].
  apply (NoDup_bind_piece _ _ dt) in Hnd; [|done].
  simpl in Hnd. by rewrite Himap in Hnd.
Qed.

Lemma built_range_elem r W model gm dt g :
  Forall2 (fun dt (e : dtype * GbufRange) =>
             e.1 = dt /\ build_model_gbuf_range r W model dt = Ok e.2)
          (dict_keys (_grad_buffers model)) gm ->
  (dt, g) ∈ gm ->
  dt ∈ dict_keys (_grad_buffers model) /\
  build_model_gbuf_range r W model dt = Ok g.
Proof.
  intros HF [i Hi]%list_elem_of_lookup.
  destruct (Forall2_lookup_r _ _ _ _ _ HF Hi) as (dt' & Hdt' & Heq & Hb).
  simpl in *. subst dt'. split; [by eapply list_elem_of_lookup_2|done].
Qed.

(** The parameters one model contributes to the three-way maps are
    among the parameters of its index maps, in their order. *)
Lemma model_owned_sublist r W model : forall keys gm,
  Forall2 (fun dt (e : dtype * GbufRange) =>
             e.1 = dt /\ build_model_gbuf_range r W model dt = Ok e.2) keys gm ->
  NoDup (keys ≫= fun dt =>
           (default [] (dict_get dt (_grad_buffer_param_index_map model))).*1) ->
  sublist (gm ≫= fun dg => param_map dg.2).*1
          (keys ≫= fun dt =>
             (default [] (dict_get dt (_grad_buffer_param_index_map model))).*1).
Proof.
  induction 1 as [|dt [dt' g] keys gm [Hdt Hg] _ IH]; csimpl; [done|].
  intros (Hpiece & _ & Hrest)%NoDup_app. simpl in *. subst dt'.
  rewrite fmap_app. apply sublist_app; [|by apply IH].
  apply build_model_gbuf_range_param_map in Hg.
  pose proof Hg as Hg0.
  unfold build_model_gbuf_param_range_map, dict_getitem in Hg0.
  destruct (dict_get dt (_grad_buffer_param_index_map model)) as [imap|] eqn:Himap;
    [|done].
  clear Hg0. simpl in *.
  rewrite (build_param_range_map_filter _ _ _ imap) in Hg by done.
  injection Hg as <-. apply retained_keys_sublist.
Qed.

Lemma owned_params_cons gm ranges :
  owned_params (gm :: ranges)
  = (gm ≫= fun dg : dtype * GbufRange => param_map dg.2).*1 ++ owned_params ranges.
Proof. unfold owned_params, owned_entries. csimpl. by rewrite fmap_app. Qed.

(** No parameter is owned twice when no parameter is indexed twice. *)
Lemma owned_params_NoDup r W models ranges :
  Forall2 (fun model gm => build_model_gbuf_range_map r W model = Ok gm)
          models ranges ->
  Forall (fun model => NoDup (dict_keys (_grad_buffers model))) models ->
  NoDup (models ≫= model_params) ->
  NoDup (owned_params ranges).
Proof.
  intros HF Hkeys Hnd. eapply sublist_NoDup; [exact Hnd|].
  induction HF as [|model gm models ranges Hgm _ IH]; [done|].
  apply Forall_cons in Hkeys as [Hk Hkeys].
  rewrite owned_params_cons. csimpl in *.
  apply NoDup_app in Hnd as (Hmodel & _ & Hrest).
  apply sublist_app; [|by apply IH].
  apply build_model_gbuf_range_map_inv in Hgm; [|done].
  by apply (model_owned_sublist r W).
Qed.

(** The chain of lookups for a parameter the rank owns a part of. *)
Lemma lookup_owned ranges p :
  Forall (fun gm : list (dtype * GbufRange) => NoDup gm.*1) ranges ->
  p ∈ owned_params ranges ->
  exists mi dt gm g m,
    dict_get p (build_model_param_gbuf_map ranges) = Some (mi, dt) /\
    ranges !! mi = Some gm /\ dict_get dt gm = Some g /\
    dict_get p (param_map g) = Some m /\
    lookup_param_range_map ranges (build_model_param_gbuf_map ranges) p = Ok m.
Proof.
  intros Hnd Hp.
  destruct (build_model_param_gbuf_map_spec ranges p) as [Hsome Hdom].
  apply Hdom in Hp as [[mi dt] Hg].
  destruct (Hsome _ _ Hg) as (gm & g & Hgm & Hdg & Hpg).
  assert (dict_get dt gm = Some g) as Hdt.
  { apply dict_get_NoDup; [|done]. rewrite Forall_forall in Hnd.
    apply Hnd. by eapply list_elem_of_lookup_2. }
  destruct (dict_get_is_Some _ _ Hpg) as (m & Hm & _).
  exists mi, dt, gm, g, m. repeat (split; [done|]).
  unfold lookup_param_range_map, dict_getitem. rewrite Hg. csimpl.
  rewrite list_getitem_nat, Hgm. csimpl. rewrite Hdt. csimpl. by rewrite Hm.
Qed.

(** A parameter the rank owns a part of, in an optimizer built from
    well-formed models: where it is indexed and what its entry is. *)
Lemma constructed_owned r W models ranges p :
  Forall2 (fun model gm => build_model_gbuf_range_map r W model = Ok gm)
          models ranges ->
  Forall model_well_formed models ->
  NoDup (models ≫= model_params) ->
  p ∈ owned_params ranges ->
  exists mi dt gm g m model buf imap o ws we,
    dict_get p (build_model_param_gbuf_map ranges) = Some (mi, dt) /\
    ranges !! mi = Some gm /\ dict_get dt gm = Some g /\
    dict_get p (param_map g) = Some m /\
    lookup_param_range_map ranges (build_model_param_gbuf_map ranges) p = Ok m /\
    models !! mi = Some model /\
    dict_get dt (_grad_buffers model) = Some buf /\
    dict_get dt (_grad_buffer_param_index_map model) = Some imap /\
    dict_get p imap = Some (o, ws, we) /\
    entry_fits (numel buf) (p, (o, ws, we)) /\
    entries_apart imap /\
    Range.size (world g) = Range.end_ (world g) - Range.start (world g) /\
    Z.max ws (Range.start (world g)) < Z.min we (Range.end_ (world g)) /\
    gbuf_world m = Range.init (Z.max ws (Range.start (world g)))
                              (Z.min we (Range.end_ (world g))) /\
    param m = Range.init (Z.max ws (Range.start (world g)) - ws)
                         (Z.min we (Range.end_ (world g)) - ws).
Proof.
  intros HF Hwf Hnd Hp.
  assert (forall mi gm, ranges !! mi = Some gm ->
            exists model, models !! mi = Some model /\ model_well_formed model /\
              Forall2 (fun dt (e : dtype * GbufRange) =>
                         e.1 = dt /\ build_model_gbuf_range r W model dt = Ok e.2)
                      (dict_keys (_grad_buffers model)) gm) as Hbuilt.
  { intros mi gm Hgm.
    destruct (Forall2_lookup_r _ _ _ _ _ HF Hgm) as (model & Hmodel & Hb).
    exists model. split; [done|].
    rewrite Forall_forall in Hwf.
    pose proof (Hwf model (list_elem_of_lookup_2 _ _ _ Hmodel)) as Hw.
    split; [done|]. apply build_model_gbuf_range_map_inv; [done|apply Hw]. }
  assert (Forall (fun gm : list (dtype * GbufRange) => NoDup gm.*1) ranges) as Hkeys.
  { apply Forall_forall. intros gm [mi Hgm]%list_elem_of_lookup.
    destruct (Hbuilt _ _ Hgm) as (model & _ & [Hk _] & Hb).
    by rewrite (gbuf_range_map_keys _ _ _ _ Hb). }
  destruct (lookup_owned _ _ Hkeys Hp) as (mi & dt & gm & g & m & H1 & H2 & H3 & H4 & H5).
  destruct (Hbuilt _ _ H2) as (model & Hmodel & [Hk Hbufs] & Hb).
  destruct (built_range_elem _ _ _ _ _ _ Hb (dict_get_elem_of _ _ _ H3))
    as [Hdt Hg].
  destruct (built_entry _ _ _ _ _ _ _ Hg H4)
    as (buf & imap & o & ws & we & Hbuf & Himap & Hidx & Hlt & Hw & Hpr).
  { intros imap Himap. eapply index_map_NoDup; [done| |done|done].
    by eapply list_elem_of_lookup_2. }
  exists mi, dt, gm, g, m, model, buf, imap, o, ws, we.
  repeat (split; [done|]).
  rewrite Forall_forall in Hbufs.
  pose proof (Hbufs _ (dict_get_elem_of _ _ _ Hbuf)) as Hwfb.
  unfold buffer_well_formed in Hwfb. simpl in Hwfb. rewrite Himap in Hwfb.
  destruct Hwfb as [Hfits Hapart].
  rewrite Forall_forall in Hfits.
  split; [apply Hfits; by apply dict_get_elem_of|]. split; [done|].
  split; [by eapply build_model_gbuf_range_world_wf|]. done.
Qed.

Lemma zip_Forall2_flip {A B} (R : A -> B -> Prop) xs ys :
  Forall2 R xs ys -> Forall (fun pair : B * A => R pair.2 pair.1) (zip ys xs).
Proof. induction 1; csimpl; by constructor. Qed.

(** The pairs the copy visits, when the groups are aligned. *)
Lemma group_pairs_spec (R : Param -> Shard -> Prop) ms gs :
  Forall2 (Forall2 R) ms gs ->
  (group_pairs gs ms).*2 = mjoin ms /\
  Forall (fun pair => R pair.2 pair.1) (group_pairs gs ms).
Proof.
  unfold group_pairs.
  induction 1 as [|m g ms gs Hmg _ [IH1 IH2]]; csimpl; [by split|].
  rewrite fmap_app, IH1, snd_zip by (apply Forall2_length in Hmg; lia).
  split; [done|]. apply Forall_app. split; [|done].
  by apply zip_Forall2_flip.
Qed.

Lemma filter_join {A} (P : A -> Prop) `{forall x, Decision (P x)} (ls : list (list A)) :
  filter P (mjoin ls) = mjoin (filter P <$> ls).
Proof.
  induction ls as [|l ls IH]; csimpl; [done|]. by rewrite filter_app, IH.
Qed.

Lemma join_filter_nonempty {A} (ls : list (list A)) :
  mjoin (filter (fun l => (0 < length l)%nat) ls) = mjoin ls.
Proof.
  induction ls as [|l ls IH]; csimpl; [done|].
  rewrite filter_cons. destruct (decide _) as [Hl|Hl]; csimpl.
  - by rewrite IH.
  - rewrite IH. destruct l; [done|simpl in Hl; lia].
Qed.

Lemma group_range_params (lists : list (list Param)) : forall groups : list (ParamGroup Param),
  length lists = length groups ->
  gr_params <$> filter (fun g => (0 < length (gr_params g))%nat)
                       (zip_with (fun ps g => mkGroupRange ps g) lists groups)
  = filter (fun l => (0 < length l)%nat) lists.
Proof.
  induction lists as [|l lists IH]; intros [|g groups] Hlen; try done.
  csimpl. rewrite !filter_cons. simpl.
  destruct (decide _); csimpl; rewrite IH by (simpl in Hlen; lia); done.
Qed.

(** Filters on the values of a function cut a duplicate-free list into
    pieces that share no element. *)
Lemma NoDup_join_filters {A} (f : A -> option nat) (l : list A) (n : nat) :
  forall a,
  NoDup l ->
  NoDup (mjoin ((fun i => filter (fun p => f p = Some i) l) <$> seq a n)).
Proof.
  induction n as [|n IH]; intros a Hnd; csimpl; [constructor|].
  apply NoDup_app. split; [by apply NoDup_filter|]. split; [|by apply IH].
  intros x [Hx _]%list_elem_of_filter
         (l' & Hin & (i & -> & Hi%elem_of_seq)%list_elem_of_fmap)%list_elem_of_join.
  apply list_elem_of_filter in Hin as [Hx' _].
  rewrite Hx in Hx'. injection Hx' as ->. lia.
Qed.

(** The parameters of the group ranges are the owned parameters, each
    once when no parameter is owned twice. *)
Lemma group_ranges_params groups ranges lmap grs :
  build_optimizer_group_ranges groups ranges = Ok (lmap, grs) ->
  (forall p, p ∈ mjoin (gr_params <$> grs) <-> p ∈ owned_params ranges) /\
  (NoDup (owned_params ranges) -> NoDup (mjoin (gr_params <$> grs))).
Proof.
  intros (wmap & lists & _ & _ & Hsome & Hall & Hlen & Hlists & _ & _ & ->)
         %build_optimizer_group_ranges_inv.
  rewrite group_range_params, join_filter_nonempty by done.
  assert (lists
          = (fun i => filter (fun p => dict_get p wmap = Some i) (owned_params ranges))
            <$> seq 0 (length groups)) as ->.
  { apply list_eq. intros i. rewrite list_lookup_fmap.
    destruct (decide (i < length groups)%nat) as [Hi|Hi].
    - rewrite Hlists by done. by rewrite lookup_seq_lt.
    - rewrite lookup_seq_ge by lia.
      apply lookup_ge_None. lia. }
  split; [|apply NoDup_join_filters].
  intros p. rewrite list_elem_of_join. split.
  - intros (l & Hp & (i & -> & _)%list_elem_of_fmap).
    by apply list_elem_of_filter in Hp as [_ Hp].
  - intros Hp. rewrite Forall_forall in Hall.
    destruct (Hall p Hp) as [gi Hgi].
    destruct (Hsome _ _ Hgi) as (g & Hg%lookup_lt_Some & _).
    exists (filter (fun p => dict_get p wmap = Some gi) (owned_params ranges)).
    split; [by apply list_elem_of_filter|].
    apply list_elem_of_fmap. exists gi. split; [done|].
    apply elem_of_seq. lia.
Qed.

(** The pairs of the copy in a constructed optimizer: one per owned
    parameter, with the shard cut from the parameter at its [param]
    range. *)
Lemma constructed_pairs self groups grs :
  build_optimizer_group_ranges groups (model_gbuf_ranges self)
  = Ok (model_param_group_index_map self, grs) ->
  build_model_and_main_param_groups (model_gbuf_ranges self)
    (model_param_gbuf_map self) grs = Ok (main_param_groups self) ->
  (forall p, p ∈ (main_model_pairs self).*2
             <-> p ∈ owned_params (model_gbuf_ranges self)) /\
  (NoDup (owned_params (model_gbuf_ranges self)) ->
   NoDup (main_model_pairs self).*2) /\
  Forall (fun pair : Shard * Param =>
            exists m,
              lookup_param_range_map (model_gbuf_ranges self)
                (model_param_gbuf_map self) pair.2 = Ok m /\
              shard_initial_data pair.1
              = py_slice (data pair.2) (Range.start (param m))
                         (Range.end_ (param m)))
         (main_model_pairs self).
Proof.
  intros Hgr HG.
  apply main_groups_aligned_all in HG as (Htyped & E16 & E32 & _ & F32 & F16).
  destruct (group_ranges_params _ _ _ _ Hgr) as [Hdom Hnd].
  destruct (group_pairs_spec _ _ _ F16) as [P16 Q16].
  destruct (group_pairs_spec _ _ _ F32) as [P32 Q32].
  assert (forall (P : Param -> Prop) `{forall x, Decision (P x)},
            mjoin ((fun gr => filter P (gr_params gr)) <$> grs)
            = filter P (mjoin (gr_params <$> grs))) as Hfilter
    by (intros P ?; rewrite filter_join, <- list_fmap_compose; done).
  split; [|split];
    [| |unfold main_model_pairs; apply Forall_app; split;
        [eapply Forall_impl; [exact Q16|]|eapply Forall_impl; [exact Q32|]];
        simpl; intros [main p] (m & Hm & ->); by exists m].
  all: unfold main_model_pairs; rewrite fmap_app, P16, P32, E16, E32, !Hfilter.
  - assert (Forall (fun p => is_float16 p \/ is_fp32 p)
                   (mjoin (gr_params <$> grs))) as Hall.
    { apply Forall_forall.
      intros p (l & Hp & (gr & -> & Hgr')%list_elem_of_fmap)%list_elem_of_join.
      rewrite Forall_forall in Htyped. specialize (Htyped gr Hgr').
      rewrite Forall_forall in Htyped. by apply Htyped. }
    intros p. rewrite elem_of_app, !list_elem_of_filter, <- Hdom.
    split; [tauto|]. intros Hp. rewrite Forall_forall in Hall.
    destruct (Hall p Hp); tauto.
  - intros Hnd'%Hnd. apply NoDup_app.
    split; [by apply NoDup_filter|]. split; [|by apply NoDup_filter].
    intros p [H16 _]%list_elem_of_filter [[Hno _] _]%list_elem_of_filter. done.
Qed.

(** A pair of the copy in an optimizer constructed from well-formed
    models: its stretch, its index entry and the contents of its shard. *)
Lemma constructed_pair_facts `{BaseOptimizer} r W models groups scaler self pair :
  init r W models groups scaler = Ok self ->
  Forall model_well_formed models ->
  NoDup (models ≫= model_params) ->
  pair ∈ main_model_pairs self ->
  exists mi dt gm g m model buf imap o ws we,
    copy_target self pair = Some (mi, dt, gbuf_world m) /\
    get_model_param_range_map self pair.2 = Ok m /\
    dict_get pair.2 (model_param_gbuf_map self) = Some (mi, dt) /\
    model_gbuf_ranges self !! mi = Some gm /\ dict_get dt gm = Some g /\
    models !! mi = Some model /\
    dict_get dt (_grad_buffers model) = Some buf /\
    dict_get dt (_grad_buffer_param_index_map model) = Some imap /\
    dict_get pair.2 imap = Some (o, ws, we) /\
    entry_fits (numel buf) (pair.2, (o, ws, we)) /\
    entries_apart imap /\
    Z.max ws (Range.start (world g)) < Z.min we (Range.end_ (world g)) /\
    gbuf_world m = Range.init (Z.max ws (Range.start (world g)))
                              (Z.min we (Range.end_ (world g))) /\
    param m = Range.init (Z.max ws (Range.start (world g)) - ws)
                         (Z.min we (Range.end_ (world g)) - ws) /\
    tensor_values self pair.1
    = py_slice (data pair.2) (Z.max ws (Range.start (world g)) - ws)
               (Z.min we (Range.end_ (world g)) - ws).
Proof.
  intros (grs & HF & Hgmap & Hgr & HG & _ & Hdata)%init_inv Hwf Hnd Hpair.
  destruct (constructed_pairs _ _ _ Hgr HG) as (Hdom & _ & Hshards).
  rewrite Forall_forall in Hshards.
  destruct (Hshards _ Hpair) as (m' & Hm' & Hinit).
  assert (pair.2 ∈ owned_params (model_gbuf_ranges self)) as Hown.
  { apply Hdom. apply list_elem_of_fmap. by exists pair. }
  destruct (constructed_owned _ _ _ _ _ HF Hwf Hnd Hown)
    as (mi & dt & gm & g & m & model & buf & imap & o & ws & we
        & H1 & H2 & H3 & H4 & H5 & H6 & H7 & H8 & H9 & H10 & H11 & H12 & H13
        & H14 & H15).
  rewrite <- Hgmap in H1, H5.
  assert (m' = m) as -> by congruence.
  exists mi, dt, gm, g, m, model, buf, imap, o, ws, we.
  split; [|repeat (split; [done|])].
  - unfold copy_target, get_model_param_range_map. by rewrite H5, H1.
  - rewrite (tensor_values_initial _ _ _ Hdata), Hinit, H15. done.
Qed.





(** ** From construction to the copy of the gradients *)

Lemma zip_swap {A B} (xs : list A) (ys : list B) :
  zip xs ys = prod_swap <$> zip ys xs.
Proof.
  revert ys. induction xs as [|x xs IH]; intros [|y ys]; csimpl; try done.
  by rewrite IH.
Qed.

(** The two nested loops visit the pairs of [group_pairs], model
    parameter first. *)
Lemma copy_group_grads_flat self main_grad ms gs grads :
  copy_group_grads self main_grad ms gs grads
  = for_each_in_place (copy_model_grad self main_grad)
      (prod_swap <$> group_pairs gs ms) grads.
Proof.
  unfold copy_group_grads, group_pairs.
  rewrite (zip_swap ms gs). generalize (zip gs ms). intros l.
  revert grads. induction l as [|[g m] l IH]; intros grads; csimpl; [done|].
  rewrite fmap_app, for_each_in_place_app, <- zip_swap.
  destruct (for_each_in_place _ (zip m g) grads) as [[[]|e] s']; [apply IH|done].
Qed.

Lemma copy_model_grads_flat self main_grad grads :
  _copy_model_grads_to_main_grads self main_grad grads
  = for_each_in_place (copy_model_grad self main_grad)
      (prod_swap <$> main_model_pairs self) grads.
Proof.
  unfold _copy_model_grads_to_main_grads, main_model_pairs.
  rewrite fmap_app, for_each_in_place_app, copy_group_grads_flat.
  destruct (for_each_in_place _ _ grads) as [[[]|e] s']; [|done].
  apply copy_group_grads_flat.
Qed.

(** The loop over pairs whose gradient slice has the size of the main
    shard: it returns, every main shard of the pairs gets the slice of
    the model gradient at the [param] range of the last parameter paired
    with it, and no other [grad] is touched. *)
Lemma copy_grads_loop self main_grad : forall (pairs : list (Shard * Param)) grads,
  Forall (fun pair : Shard * Param =>
            exists m,
              get_model_param_range_map self pair.2 = Ok m /\
              Range.size (param m) = Z.of_nat (length (tensor_values self pair.1)) /\
              length (py_slice (main_grad pair.2) (Range.start (param m))
                               (Range.end_ (param m)))
              = length (tensor_values self pair.1))
         pairs ->
  NoDup pairs.*1 ->
  exists grads',
    for_each_in_place (copy_model_grad self main_grad) (prod_swap <$> pairs) grads
    = (Ok tt, grads') /\
    (forall pair m, pair ∈ pairs -> get_model_param_range_map self pair.2 = Ok m ->
       dict_get pair.1 grads'
       = Some (py_slice (main_grad pair.2) (Range.start (param m))
                        (Range.end_ (param m)))) /\
    (forall t, t ∉ pairs.*1 -> dict_get t grads' = dict_get t grads).
Proof.
  induction pairs as [|[main p] pairs IH]; intros grads Hready Hnd; csimpl.
  - exists grads. repeat split; try done. intros pair m Hin. by apply elem_of_nil in Hin.
  - apply Forall_cons in Hready as [(m & Hm & Hsize & Hlen) Hready].
    apply NoDup_cons in Hnd as [Hfresh Hnd]. simpl in *.
    rewrite Hm. csimpl.
    rewrite (bool_decide_eq_true_2 _ Hsize). simpl.
    rewrite (bool_decide_eq_true_2 _ Hlen). simpl.
    destruct (IH (dict_set main (py_slice (main_grad p) (Range.start (param m))
                                          (Range.end_ (param m))) grads)
                 Hready Hnd) as (grads' & Hrun & Hset & Hkeep).
    exists grads'. split; [done|]. split.
    + intros pair m' [->|Hin]%elem_of_cons Hm'; [|by apply Hset].
      simpl in *. rewrite Hkeep by done.
      rewrite dict_get_set_eq. congruence.
    + intros t [Hne Hnot]%not_elem_of_cons. rewrite Hkeep by done.
      by rewrite dict_get_set_ne.
Qed.

(** The main shard of a pair names its parameter: different parameters
    have different shards. *)
Lemma constructed_shards_NoDup self groups grs :
  build_optimizer_group_ranges groups (model_gbuf_ranges self)
  = Ok (model_param_group_index_map self, grs) ->
  build_model_and_main_param_groups (model_gbuf_ranges self)
    (model_param_gbuf_map self) grs = Ok (main_param_groups self) ->
  NoDup (main_model_pairs self).*2 ->
  NoDup (main_model_pairs self).*1.
Proof.
  intros Hgr HG Hnd.
  apply main_groups_aligned_all in HG as (_ & _ & _ & _ & F32 & F16).
  destruct (group_pairs_spec _ _ _ F16) as [_ Q16].
  destruct (group_pairs_spec _ _ _ F32) as [_ Q32].
  assert (Forall (fun pair : Shard * Param =>
                    exists r, pair.1 = shard_main pair.2 r \/ pair.1 = shard_view pair.2 r)
                 (main_model_pairs self)) as Hnames.
  { unfold main_model_pairs. apply Forall_app. split.
    - eapply Forall_impl; [exact Q16|]. simpl.
      intros [main p] (m & _ & ->). exists (param m). by left.
    - eapply Forall_impl; [exact Q32|]. simpl.
      intros [main p] (m & _ & ->). exists (param m). by right. }
  revert Hnames Hnd. generalize (main_model_pairs self). clear.
  induction l as [|[main p] l IH]; csimpl; [constructor|].
  intros [Hp Hl]%Forall_cons [Hfresh Hnd]%NoDup_cons.
  apply NoDup_cons. split; [|by apply IH].
  intros (pair & Hmain & Hin)%list_elem_of_fmap. apply Hfresh.
  apply list_elem_of_fmap. exists pair. split; [|done].
  rewrite Forall_forall in Hl. destruct (Hl pair Hin) as (r' & Hpair).
  destruct Hp as (r & Hp). simpl in *.
  destruct Hp as [->| ->], Hpair as [Hpair|Hpair]; rewrite Hpair in Hmain;
    congruence.
Qed.

(** X23.  From construction to the copy of the gradients.  For an
    optimizer that [__init__] has built from well-formed models, and
    model gradients that have the number of elements of their
    parameters, [_copy_model_grads_to_main_grads] returns, and every
    main shard then has as [grad] the slice of the gradient of its
    model parameter at the parameter's [param] range, which has as many
    elements as the shard.  The [grad] of any other tensor is left as it
    was. *)
Theorem constructed_grads_copied `{BaseOptimizer}
    r W models groups scaler self main_grad grads :
  init r W models groups scaler = Ok self ->
  Forall model_well_formed models ->
  NoDup (models ≫= model_params) ->
  (forall p, p ∈ owned_params (model_gbuf_ranges self) ->
             length (main_grad p) = length (data p)) ->
  exists grads',
    _copy_model_grads_to_main_grads self main_grad grads = (Ok tt, grads') /\
    (forall pair, pair ∈ main_model_pairs self ->
       exists m shard_grad,
         get_model_param_range_map self pair.2 = Ok m /\
         dict_get pair.1 grads' = Some shard_grad /\
         shard_grad = py_slice (main_grad pair.2) (Range.start (param m))
                               (Range.end_ (param m)) /\
         length shard_grad = length (tensor_values self pair.1)) /\
    (forall t, t ∉ (main_model_pairs self).*1 ->
               dict_get t grads' = dict_get t grads).
Proof.
  intros Hinit Hwf Hnd Hgrad.
  pose proof (fun pair => constructed_pair_facts r W models groups scaler self pair
                            Hinit Hwf Hnd) as Hfacts.
  pose proof Hinit as (grs & HF & Hgmap & Hgr & HG & _ & Hdata)%init_inv.
  destruct (constructed_pairs _ _ _ Hgr HG) as (Hdom & HndP & _).
  assert (NoDup (main_model_pairs self).*1) as Hshards.
  { eapply constructed_shards_NoDup; [done..|].
    apply HndP. apply (owned_params_NoDup r W models); [done| |done].
    eapply Forall_impl; [exact Hwf|]. by intros model [? _]. }
  assert (forall pair, pair ∈ main_model_pairs self ->
            exists m,
              get_model_param_range_map self pair.2 = Ok m /\
              Range.size (param m) = Z.of_nat (length (tensor_values self pair.1)) /\
              length (py_slice (main_grad pair.2) (Range.start (param m))
                               (Range.end_ (param m)))
              = length (tensor_values self pair.1)) as Hready.
  { intros pair Hpair.
    destruct (Hfacts pair Hpair)
      as (mi & dt & gm & g & m & model & buf & imap & o & ws & we
          & _ & Hm & _ & _ & _ & _ & _ & _ & _ & Hentry & _ & Hlt & _ & Hp & Hvals).
    exists m. split; [done|].
    destruct Hentry as (Hws & Hwe & Hsize). simpl in *.
    assert (length (main_grad pair.2) = length (data pair.2)) as Hg.
    { apply Hgrad, Hdom. apply list_elem_of_fmap. by exists pair. }
    rewrite Hp, Hvals. simpl.
    rewrite !py_slice_in_range, !length_take, !length_drop by lia. lia. }
  destruct (copy_grads_loop self main_grad (main_model_pairs self) grads)
    as (grads' & Hrun & Hset & Hkeep); [by apply Forall_forall|done|].
  exists grads'. rewrite copy_model_grads_flat. split; [done|]. split; [|done].
  intros pair Hpair. destruct (Hready pair Hpair) as (m & Hm & _ & Hlen).
  exists m, (py_slice (main_grad pair.2) (Range.start (param m))
                      (Range.end_ (param m))).
  split; [done|]. split; [by apply Hset|]. by split.
Qed.

(** Scenario A on rank 0 of 2, with no gradient assigned before. *)
Lemma constructed_grads_copied_witness :
  exists grads',
    _copy_model_grads_to_main_grads scenario_A_rank0 scenario_A_main_grad []
    = (Ok tt, grads') /\
    forall t, t ∉ (main_model_pairs scenario_A_rank0).*1 -> dict_get t grads' = None.
Proof.
  destruct (constructed_grads_copied (H := torch_optimizer) 0 2 [scenario_A]
              [mkParamGroup [half_param 0 3; half_param 1 5] [("lr", 1)]] None
              scenario_A_rank0 scenario_A_main_grad [])
    as (grads' & Hrun & _ & Hkeep).
  - vm_compute. reflexivity.
  - apply (bool_decide_unpack _). vm_compute. exact I.
  - apply (bool_decide_unpack _). vm_compute. exact I.
  - intros p _. unfold scenario_A_main_grad, seqZ.
    by rewrite length_fmap, length_seq, Nat2Z.id.
  - exists grads'. split; [exact Hrun|exact Hkeep].
Defined.

(** ** The numbering of the gradient buffer views *)

Lemma flat_single_buffers (l : list (dtype * list scalar)) : forall f : nat -> nat,
  (ib ← imap (fun i b => (f i, b))
             ((fun db : dtype * list scalar => [db]) <$> l);
   pair ib.1 <$> ib.2)
  = imap (fun i db => (f i, db)) l.
Proof.
  induction l as [|db l IH]; intros f; csimpl; [done|].
  f_equal. apply (IH (f ∘ S)).
Qed.

Lemma flat_buffers_single (l : list (dtype * list scalar)) :
  flat_buffers ((fun db : dtype * list scalar => [db]) <$> l) = imap pair l.
Proof. exact (flat_single_buffers l id). Qed.

(** X24.  [get_model_grad_buffer_dp_views] numbers its items by buffer,
    not by model: the item of the [k]-th gradient buffer, counted
    through all models, carries [k] as its model index, with the data
    type and the contents of that buffer. *)
Theorem grad_buffer_views_numbered_by_buffer W grad_buffers items :
  get_model_grad_buffer_dp_views W grad_buffers = Ok items ->
  (fun item : ViewItem => item.1) <$> items
  = imap (fun k (db : dtype * list scalar) => (k, db.1, db.2)) (mjoin grad_buffers).
Proof.
  unfold get_model_grad_buffer_dp_views.
  rewrite get_model_buffer_dp_views_flat.
  assert ((model ← grad_buffers; (fun db : dtype * list scalar => [db]) <$> model)
          = (fun db : dtype * list scalar => [db]) <$> mjoin grad_buffers) as ->.
  { induction grad_buffers as [|model l IH]; csimpl; [done|].
    by rewrite fmap_app, IH. }
  rewrite flat_buffers_single.
  intros (new & -> & Hnew)%for_each_append. rewrite app_nil_l.
  revert Hnew. generalize (mjoin grad_buffers). intros l.
  change (imap pair l)
    with (imap (fun (k : nat) (db : dtype * list scalar) => (id k, db)) l).
  change (fun (k : nat) (db : dtype * list scalar) => (k, db.1, db.2))
    with (fun (k : nat) (db : dtype * list scalar) => (id k, db.1, db.2)).
  generalize (@id nat). revert new.
  induction l as [|db l IH]; intros new f Hnew; csimpl in *.
  - by apply Forall2_nil_inv_l in Hnew as ->.
  - apply Forall2_cons_inv_l in Hnew as (item & new' & Hitem & Hnew & ->).
    pose proof (view_item_outcome W (f 0%nat, db)) as Hout.
    rewrite Hitem in Hout. destruct Hout as (_ & _ & Heq). csimpl.
    f_equal; [exact Heq|]. by apply (IH new' (f ∘ S)).
Qed.

(** The third buffer belongs to the second model and is numbered 2. *)
Lemma grad_buffer_views_numbered_by_buffer_witness :
  exists items,
    get_model_grad_buffer_dp_views 2 two_buffer_models = Ok items /\
    (fun item : ViewItem => item.1) <$> items
    = [(0%nat, torch_float, [1; 2]); (1%nat, torch_half, [3; 4]);
       (2%nat, torch_float, [5; 6])].
Proof.
  eexists. split; [vm_compute; reflexivity|].
  apply (grad_buffer_views_numbered_by_buffer 2 two_buffer_models).
  vm_compute. reflexivity.
Defined.
